(** * naev: verification of the texture and blitting core of [src/opengl.c]

    A shallow embedding of the texture cache ([gl_newImage], [gl_newSprite],
    [gl_freeTexture]), the surface helpers ([gl_pot], [SDL_IsTrans],
    [SDL_MapTrans], [SDL_VFlipSurface]), the sprite addressing
    ([gl_getSpriteFromDir]), the blit entry points, the extension probe
    ([gl_hasExt]), the fullscreen-mode and viewport parts of [gl_init] and
    the leak report of [gl_exit], followed by the properties the
    specification states about them and by further properties read off the
    code.

    Conventions of the embedding.
    - C [int] is a [Z] with the 32-bit two's complement wrap-around written
      out ([wrap32]); [/] and [%] are C's truncating [Z.quot] and [Z.rem].
    - C [double] is IEEE 754 binary64, taken from the Standard Library's
      executable specification [SpecFloat] (precision 53, [emax] 1024,
      round to nearest even).
    - The global state ([texture_list], the heap of [glTexture] objects,
      [gl_screen], [gl_camera]) is threaded explicitly through a small
      state-and-fault monad; calls into OpenGL and the log macros are
      recorded in a trace of events.
    - [malloc] does not fail.  [free] marks a block of the heap and leaves
      its contents in place: C gives no meaning to a read through a dangling
      pointer, the embedding lets the read see the old contents, so that
      what the code goes on to do (a second [free]) shows in the trace.
    - The collaborators outside the file (ndata, SDL_image, SDL, the GL
      driver) are parameters of the development. *)

From Stdlib Require Import ZArith List Bool String Lia.
From Stdlib Require Import SpecFloat.
From Stdlib Require Import Ascii DecimalString.
From stdpp Require Import base list.
Import ListNotations.

#[local] Open Scope Z_scope.

(** ** C integers *)

Module CInt.

Definition INT_MIN : Z := - 2 ^ 31.
Definition INT_MAX : Z := 2 ^ 31 - 1.

(** Reduction of a mathematical integer to the value an [int] holds. *)
Definition wrap32 (z : Z) : Z := (z + 2 ^ 31) mod 2 ^ 32 - 2 ^ 31.

Definition in_int (z : Z) : bool := (INT_MIN <=? z) && (z <=? INT_MAX).

Definition add (a b : Z) : Z := wrap32 (a + b).
Definition sub (a b : Z) : Z := wrap32 (a - b).
Definition mul (a b : Z) : Z := wrap32 (a * b).
Definition shl (a k : Z) : Z := wrap32 (Z.shiftl a k).
(** [a / b] and [a % b]: truncation towards zero. *)
Definition div (a b : Z) : Z := wrap32 (Z.quot a b).
Definition rem (a b : Z) : Z := Z.rem a b.

End CInt.

(** ** C doubles *)

Module CDouble.

Definition prec : Z := 53.
Definition emax : Z := 1024.

Definition double : Type := spec_float.

Definition add : double -> double -> double := SFadd prec emax.
Definition sub : double -> double -> double := SFsub prec emax.
Definition mul : double -> double -> double := SFmul prec emax.
Definition div : double -> double -> double := SFdiv prec emax.
Definition ltb : double -> double -> bool := SFltb.
Definition eqb : double -> double -> bool := SFeqb.
Definition fabs : double -> double := SFabs.
Definition opp : double -> double := SFopp.

(** [(double)n] for an integer [n]. *)
Definition of_int (n : Z) : double := binary_normalize prec emax n 0 false.

(** The integer part of a finite double, rounded towards zero. *)
Definition trunc (f : double) : option Z :=
  match f with
  | S754_zero _ => Some 0
  | S754_finite s m e =>
      let q := if 0 <=? e then Z.pos m * 2 ^ e else Z.pos m / 2 ^ (- e) in
      Some (if s then - q else q)
  | S754_infinity _ | S754_nan => None
  end.

(** [(int)f]: defined by C only when the integer part fits an [int]. *)
Definition to_int (f : double) : option Z :=
  match trunc f with
  | Some v => if CInt.in_int v then Some v else None
  | None => None
  end.

(** [M_PI] of math.h, the double 0x400921FB54442D18. *)
Definition M_PI : double := S754_finite false 7074237752028440 (-51).

Definition zero : double := S754_zero false.
Definition one : double := of_int 1.
Definition two : double := of_int 2.

End CDouble.

Abbreviation double := CDouble.double.

Declare Scope double_scope.
Delimit Scope double_scope with D.
Infix "+" := CDouble.add : double_scope.
Infix "-" := CDouble.sub : double_scope.
Infix "*" := CDouble.mul : double_scope.
Infix "/" := CDouble.div : double_scope.
Infix "<?" := CDouble.ltb : double_scope.

(** ** Data

    [glTexture], [glInfo] and [glColour] are declared in opengl.h and
    [Vector2d] in physics.h; the fields below are the ones [opengl.c] reads
    and writes, with the types its casts and format strings show. *)

(** Memory of bytes: a read outside the buffer yields 0. *)
Definition load8 (m : list Z) (off : Z) : Z :=
  if off <? 0 then 0 else default 0 (m !! Z.to_nat off).

(** [SDL_Surface], with the members of its [SDL_PixelFormat] inlined. *)
Module SDL_Surface.
Record t := mk {
  flags : Z;
  w : Z;
  h : Z;
  pitch : Z;
  BytesPerPixel : Z;
  colorkey : Z;
  alpha : Z;
  pixels : list Z
}.
Definition set_pixels (px : list Z) (s : t) : t :=
  mk (flags s) (w s) (h s) (pitch s) (BytesPerPixel s) (colorkey s) (alpha s) px.
End SDL_Surface.

(** Modelled from the spec: the struct [glTexture] of opengl.h, the
    TextureResource of the data model: logical size [w],[h], physical size
    [rw],[rh], sheet geometry [sx],[sy], cell size [sw],[sh], the GPU handle
    [texture], the transparency bits [trans] and the identity [name]
    ([None] is C's NULL). *)
Module glTexture.
Record t := mk {
  w : double; h : double;
  rw : double; rh : double;
  sx : double; sy : double;
  sw : double; sh : double;
  texture : Z;
  trans : option (list Z);
  name : option string
}.
Definition set_w v x := mk v (h x) (rw x) (rh x) (sx x) (sy x) (sw x) (sh x) (texture x) (trans x) (name x).
Definition set_h v x := mk (w x) v (rw x) (rh x) (sx x) (sy x) (sw x) (sh x) (texture x) (trans x) (name x).
Definition set_rw v x := mk (w x) (h x) v (rh x) (sx x) (sy x) (sw x) (sh x) (texture x) (trans x) (name x).
Definition set_rh v x := mk (w x) (h x) (rw x) v (sx x) (sy x) (sw x) (sh x) (texture x) (trans x) (name x).
Definition set_sx v x := mk (w x) (h x) (rw x) (rh x) v (sy x) (sw x) (sh x) (texture x) (trans x) (name x).
Definition set_sy v x := mk (w x) (h x) (rw x) (rh x) (sx x) v (sw x) (sh x) (texture x) (trans x) (name x).
Definition set_sw v x := mk (w x) (h x) (rw x) (rh x) (sx x) (sy x) v (sh x) (texture x) (trans x) (name x).
Definition set_sh v x := mk (w x) (h x) (rw x) (rh x) (sx x) (sy x) (sw x) v (texture x) (trans x) (name x).
Definition set_texture v x := mk (w x) (h x) (rw x) (rh x) (sx x) (sy x) (sw x) (sh x) v (trans x) (name x).
Definition set_trans v x := mk (w x) (h x) (rw x) (rh x) (sx x) (sy x) (sw x) (sh x) (texture x) v (name x).
Definition set_name v x := mk (w x) (h x) (rw x) (rh x) (sx x) (sy x) (sw x) (sh x) (texture x) (trans x) v.
(** The contents of a block fresh from [malloc]. *)
Definition uninit : t :=
  mk CDouble.zero CDouble.zero CDouble.zero CDouble.zero CDouble.zero
     CDouble.zero CDouble.zero CDouble.zero 0 None None.
End glTexture.

(** Modelled from the spec: the struct [glInfo] of opengl.h, the viewport
    state: logical size [w],[h], real size [rw],[rh], native size [nw],[nh]
    (all [int]) and the derived scale factors. *)
Module glInfo.
Record t := mk {
  w : Z; h : Z;
  rw : Z; rh : Z;
  nw : Z; nh : Z;
  scale : double;
  wscale : double; hscale : double;
  mxscale : double; myscale : double
}.
End glInfo.

(** The [x] and [y] of a [Vector2d], which the macros [VX] and [VY] read. *)
Record Vector2d := { vx : double; vy : double }.

(** The four channels of a [glColour], which the macro [COLOUR] hands to
    [glColor4d]. *)
Record glColour := { col_r : double; col_g : double; col_b : double; col_a : double }.

(** A heap address of a [glTexture]; a [glTexture*] is an [option loc]. *)
Definition loc : Type := nat.

(** A node of the texture list; [next] is the tail of the Rocq list. *)
Record glTexList := { tex : option loc; used : Z }.

(** A heap block.  [free] marks the block and leaves its contents in
    place, so that what the code does with a dangling pointer stays
    visible. *)
Record cell := { obj : glTexture.t; freed : bool }.

Inductive GLenum :=
| GL_NO_ERROR | GL_INVALID_ENUM | GL_INVALID_VALUE | GL_INVALID_OPERATION
| GL_STACK_OVERFLOW | GL_STACK_UNDERFLOW | GL_OUT_OF_MEMORY
| GL_TABLE_TOO_LARGE | GL_other (code : Z).

Inductive texparam :=
| GL_TEXTURE_MAG_FILTER | GL_TEXTURE_MIN_FILTER
| GL_TEXTURE_WRAP_S | GL_TEXTURE_WRAP_T.

Inductive texvalue := GL_LINEAR | GL_NEAREST | GL_REPEAT.

Inductive level := LvlWARN | LvlERR | LvlDEBUG.

(** The blocks [gl_freeTexture] hands to [free]: the struct of a texture,
    its transparency bits and its name. *)
Inductive block := BTexture (p : loc) | BTrans (p : loc) | BName (p : loc).

(** Observable actions: OpenGL calls, log output and [free]. *)
Inductive event :=
| glEnable_TEXTURE_2D
| glDisable_TEXTURE_2D
| glGenTextures (texture : Z)
| glBindTexture (texture : Z)
| glTexParameteri (pname : texparam) (param : texvalue)
| glTexImage2D (bpp w h : Z) (pixels : list Z)
| glDeleteTextures (texture : Z)
| glBegin_QUADS
| glEnd
| glColor4d (r g b a : double)
| glTexCoord2d (x y : double)
| glVertex2d (x y : double)
| glMatrixMode_PROJECTION
| glLoadIdentity
| glOrtho (left right bottom top near far : double)
| glScaled (x y z : double)
| glGetError (err : GLenum)
| SDL_FreeSurface
| free (b : block)
| LOG (l : level) (fmt : string) (args : list string).

Record state := mkState {
  heap : list cell;
  texture_list : list glTexList;
  gl_screen : glInfo.t;
  gl_camera : option Vector2d;
  gui_xoff : double;
  gui_yoff : double;
  trace : list event
}.

(** The collaborators outside [opengl.c]. *)
Record Extern := {
  SDL_BIG_ENDIAN : bool;
  ndata_read : string -> option (list Z);
  IMG_Load_RW : list Z -> option SDL_Surface.t;
  IMG_GetError : string;
  SDL_GetError : string;
  SDL_DisplayFormatAlpha : SDL_Surface.t -> option SDL_Surface.t;
  SDL_SetAlpha : SDL_Surface.t -> Z -> Z -> SDL_Surface.t;
  SDL_SetColorKey : SDL_Surface.t -> Z -> Z -> SDL_Surface.t;
  SDL_CreateRGBSurface : Z -> Z -> Z -> Z -> option SDL_Surface.t;
  SDL_MapRGBA : SDL_Surface.t -> Z -> Z -> Z -> Z -> Z;
  SDL_FillRect : SDL_Surface.t -> Z -> option SDL_Surface.t;
  SDL_BlitSurface : SDL_Surface.t -> SDL_Surface.t -> SDL_Surface.t;
  driver_glGenTextures : list event -> Z;
  driver_glGetError : list event -> GLenum
}.

(** Flags of SDL 1.2 and of opengl.h. *)
Definition SDL_SRCCOLORKEY : Z := 0x1000.
Definition SDL_RLEACCELOK : Z := 0x2000.
Definition SDL_SRCALPHA : Z := 0x10000.
Definition SDL_ALPHA_OPAQUE : Z := 255.
Definition SDL_ALPHA_TRANSPARENT : Z := 0.

(** Modelled from the spec: the load flag [OPENGL_TEX_MAPTRANS] of opengl.h,
    the request for pixel-accurate collision data. *)
Definition OPENGL_TEX_MAPTRANS : Z := 1.

(** Modelled from the spec: the macros [SCREEN_W] and [SCREEN_H] of
    opengl.h, the logical screen size held in [gl_screen]. *)
Definition SCREEN_W (scr : glInfo.t) : Z := glInfo.w scr.
Definition SCREEN_H (scr : glInfo.t) : Z := glInfo.h scr.

(** ** Miscellaneous helpers of the file *)

(** [for (i = 0; i < n; i++) body]. *)
Definition for_loop {A : Type} (n : Z) (body : Z -> A -> A) (a : A) : A :=
  fold_left (fun acc i => body (Z.of_nat i) acc) (seq 0 (Z.to_nat n)) a.

(** [gl_pot]: [int i = 1; while (i < n) i <<= 1; return i;].  The loop is
    unrolled by [fuel]; [None] stands for a loop that has not exited after
    [fuel] tests.  The [int] shift wraps, so that once [i] has left the
    positive range the loop can no longer reach [n]. *)
Fixpoint gl_pot_loop (fuel : nat) (i n : Z) : option Z :=
  match fuel with
  | O => None
  | S fuel' => if i <? n then gl_pot_loop fuel' (CInt.shl i 1) n else Some i
  end.

Definition gl_pot (n : Z) : option Z := gl_pot_loop 32 1 n.

Definition memcpy (m : list Z) (dst : Z) (src : list Z) : list Z :=
  take (Z.to_nat dst) m ++ src ++ drop (Z.to_nat dst + length src) m.

Definition row (m : list Z) (off n : Z) : list Z :=
  take (Z.to_nat n) (drop (Z.to_nat off) m).

(** [SDL_VFlipSurface]: swaps row [y] with row [h - 1 - y] for [y < h / 2].
    The scratch row comes from [malloc], which does not fail in this
    embedding, so the function returns 0 and only the surface is kept. *)
Definition SDL_VFlipSurface (surface : SDL_Surface.t) : SDL_Surface.t :=
  let pitch := SDL_Surface.pitch surface in
  let rowhi := 0 in
  let rowlo := rowhi + SDL_Surface.h surface * pitch - pitch in
  let '(px, _, _) :=
    for_loop (Z.quot (SDL_Surface.h surface) 2)
      (fun _ '(px, rowhi, rowlo) =>
         let tmpbuf := row px rowhi pitch in
         let px := memcpy px rowhi (row px rowlo pitch) in
         let px := memcpy px rowlo tmpbuf in
         (px, rowhi + pitch, rowlo - pitch))
      (SDL_Surface.pixels surface, rowhi, rowlo) in
  SDL_Surface.set_pixels px surface.

(** The local [pixelcolour] of [SDL_IsTrans]: the [BytesPerPixel] bytes at
    [pixels + y*pitch + x*bpp], read in the byte order of the host. *)
Definition pixelcolour (big_endian : bool) (s : SDL_Surface.t) (x y : Z) : Z :=
  let bpp := SDL_Surface.BytesPerPixel s in
  let p := CInt.mul y (SDL_Surface.pitch s) + CInt.mul x bpp in
  let b k := load8 (SDL_Surface.pixels s) (p + k) in
  let le16 := Z.lor (b 0) (Z.shiftl (b 1) 8) in
  let be16 := Z.lor (Z.shiftl (b 0) 8) (b 1) in
  let le24 := Z.lor (Z.lor (b 0) (Z.shiftl (b 1) 8)) (Z.shiftl (b 2) 16) in
  let be24 := Z.lor (Z.lor (Z.shiftl (b 0) 16) (Z.shiftl (b 1) 8)) (b 2) in
  let le32 := Z.lor le24 (Z.shiftl (b 3) 24) in
  let be32 := Z.lor (Z.shiftl be24 8) (b 3) in
  if bpp =? 1 then b 0
  else if bpp =? 2 then (if big_endian then be16 else le16)
  else if bpp =? 3 then (if big_endian then be24 else le24)
  else if bpp =? 4 then (if big_endian then be32 else le32)
  else 0.

(** [SDL_IsTrans]: does the pixel at [(x, y)] hold the colour key? *)
Definition SDL_IsTrans (big_endian : bool) (s : SDL_Surface.t) (x y : Z) : bool :=
  pixelcolour big_endian s x y =? SDL_Surface.colorkey s.

(** The statement [t[k/8] |= bit] of [SDL_MapTrans] on the [uint8_t] array. *)
Definition or_byte (t : list Z) (k bit : Z) : list Z :=
  let idx := Z.to_nat (CInt.div k 8) in
  <[idx := Z.land (Z.lor (default 0 (t !! idx)) bit) 255]> t.

(** [SDL_MapTrans]: one bit per pixel, set when the pixel is not
    transparent. *)
Definition SDL_MapTrans (big_endian : bool) (s : SDL_Surface.t) : list Z :=
  let w := SDL_Surface.w s in
  let h := SDL_Surface.h s in
  let size := CInt.add (CInt.div (CInt.mul w h) 8)
                       (if CInt.rem (CInt.mul w h) 8 =? 0 then 0 else 1) in
  let t := replicate (Z.to_nat size) 0 in
  for_loop h (fun i t =>
    for_loop w (fun j t =>
      let k := CInt.add (CInt.mul i w) j in
      or_byte t k (if SDL_IsTrans big_endian s j i then 0
                   else CInt.shl 1 (CInt.rem k 8))) t) t.

(** [gl_isTrans]: [None] when the read is not defined (no transparency
    bits, an index outside the array, a width that is no [int]). *)
Definition gl_isTrans (t : glTexture.t) (x y : Z) : option bool :=
  tw ← CDouble.to_int (glTexture.w t);
  bits ← glTexture.trans t;
  let k := CInt.add (CInt.mul y tw) x in
  if k <? 0 then None else
  b ← bits !! Z.to_nat (CInt.div k 8);
  Some (Z.land b (CInt.shl 1 (CInt.rem k 8)) =? 0).

(** [gl_getSpriteFromDir]: the pair is [( *x, *y )]; [None] when a cast to
    [int] or a division is not defined. *)
Definition gl_getSpriteFromDir (t : glTexture.t) (dir : double) : option (Z * Z) :=
  let shard := ((CDouble.two * CDouble.M_PI) / (glTexture.sy t * glTexture.sx t))%D in
  let rdir := (dir + shard / CDouble.two)%D in
  let rdir := if (rdir <? CDouble.zero)%D then CDouble.zero else rdir in
  s ← CDouble.to_int (rdir / shard)%D;
  sx ← CDouble.to_int (glTexture.sx t);
  sy ← CDouble.to_int (glTexture.sy t);
  s ← (if s >? CInt.sub (CInt.mul sy sx) 1
       then (if CInt.mul sy sx =? 0 then None else Some (CInt.rem s (CInt.mul sy sx)))
       else Some s);
  if sx =? 0 then None else Some (CInt.rem s sx, CInt.div s sx).

(** ** The state-and-fault monad *)

Inductive fault := NullPointer | DivisionByZero | Diverges.

Inductive result (A : Type) :=
| Ok (a : A) (s : state)
| Fault (f : fault).
Arguments Ok {A} a s.
Arguments Fault {A} f.

Definition M (A : Type) : Type := state -> result A.

Definition ret {A : Type} (a : A) : M A := fun s => Ok a s.

Definition bind {A B : Type} (m : M A) (k : A -> M B) : M B :=
  fun s => match m s with
           | Ok a s' => k a s'
           | Fault f => Fault f
           end.

Definition fail {A : Type} (f : fault) : M A := fun _ => Fault f.

Notation "'let*' x ':=' m 'in' k" := (bind m (fun x => k))
  (at level 10, x pattern, m at level 100, k at level 200).
Notation "m ';;' k" := (bind m (fun _ => k))
  (at level 100, k at level 200, right associativity).

Definition get : M state := fun s => Ok s s.

Definition emit (e : event) : M unit :=
  fun s => Ok tt (mkState (heap s) (texture_list s) (gl_screen s) (gl_camera s)
                          (gui_xoff s) (gui_yoff s) (trace s ++ [e])).

Definition set_heap (hp : list cell) : M unit :=
  fun s => Ok tt (mkState hp (texture_list s) (gl_screen s) (gl_camera s)
                          (gui_xoff s) (gui_yoff s) (trace s)).

Definition set_texture_list (l : list glTexList) : M unit :=
  fun s => Ok tt (mkState (heap s) l (gl_screen s) (gl_camera s)
                          (gui_xoff s) (gui_yoff s) (trace s)).

Definition set_gl_screen (scr : glInfo.t) : M unit :=
  fun s => Ok tt (mkState (heap s) (texture_list s) scr (gl_camera s)
                          (gui_xoff s) (gui_yoff s) (trace s)).

Definition set_gl_camera (c : option Vector2d) : M unit :=
  fun s => Ok tt (mkState (heap s) (texture_list s) (gl_screen s) c
                          (gui_xoff s) (gui_yoff s) (trace s)).

Definition WARN (fmt : string) (args : list string) : M unit := emit (LOG LvlWARN fmt args).
Definition ERR (fmt : string) (args : list string) : M unit := emit (LOG LvlERR fmt args).

(** [malloc(sizeof(glTexture))]: a fresh block at the end of the heap. *)
Definition malloc_glTexture : M loc :=
  fun s => Ok (length (heap s))
              (mkState (heap s ++ [Build_cell glTexture.uninit false]) (texture_list s)
                       (gl_screen s) (gl_camera s) (gui_xoff s) (gui_yoff s) (trace s)).

(** [*p] for a [glTexture* p]; NULL faults, a freed block still reads. *)
Definition deref (p : option loc) : M glTexture.t :=
  fun s => match p with
           | None => Fault NullPointer
           | Some l => match heap s !! l with
                       | Some c => Ok (obj c) s
                       | None => Fault NullPointer
                       end
           end.

(** Assignment to members of [*p]. *)
Definition store (l : loc) (f : glTexture.t -> glTexture.t) : M unit :=
  fun s => match heap s !! l with
           | Some c => set_heap (<[l := Build_cell (f (obj c)) (freed c)]> (heap s)) s
           | None => Fault NullPointer
           end.

(** [free(texture)]. *)
Definition free_glTexture (l : loc) : M unit :=
  (fun s => match heap s !! l with
            | Some c => set_heap (<[l := Build_cell (obj c) true]> (heap s)) s
            | None => Fault NullPointer
            end);;
  emit (free (BTexture l)).

Definition when (b : bool) (m : M unit) : M unit := if b then m else ret tt.

Definition is_Some_b {A : Type} (o : option A) : bool :=
  match o with Some _ => true | None => false end.

(** ** The texture functions *)

Section Program.

Variable ext : Extern.

(** [gl_checkErr]: asks the driver for its error flag and reports it. *)
Definition gl_checkErr : M unit :=
  let* s := get in
  let err := driver_glGetError ext (trace s) in
  emit (glGetError err);;
  match err with
  | GL_NO_ERROR => ret tt
  | GL_INVALID_ENUM => WARN "OpenGL error: %s" ["GL invalid enum"%string]
  | GL_INVALID_VALUE => WARN "OpenGL error: %s" ["GL invalid value"%string]
  | GL_INVALID_OPERATION => WARN "OpenGL error: %s" ["GL invalid operation"%string]
  | GL_STACK_OVERFLOW => WARN "OpenGL error: %s" ["GL stack overflow"%string]
  | GL_STACK_UNDERFLOW => WARN "OpenGL error: %s" ["GL stack underflow"%string]
  | GL_OUT_OF_MEMORY => WARN "OpenGL error: %s" ["GL out of memory"%string]
  | GL_TABLE_TOO_LARGE => WARN "OpenGL error: %s" ["GL table too large"%string]
  | GL_other _ => WARN "OpenGL error: %s" ["GL unknown error"%string]
  end.

Definition gl_pot_M (n : Z) : M Z :=
  match gl_pot n with
  | Some p => ret p
  | None => fail Diverges
  end.

(** [gl_prepareSurface]: the surface copied onto a new one whose sides are
    powers of two; [None] is the NULL result. *)
Definition gl_prepareSurface (surface : SDL_Surface.t) : M (option SDL_Surface.t) :=
  let* potw := gl_pot_M (SDL_Surface.w surface) in
  let* poth := gl_pot_M (SDL_Surface.h surface) in
  let saved_flags := Z.land (SDL_Surface.flags surface) (Z.lor SDL_SRCALPHA SDL_RLEACCELOK) in
  let has_alpha := Z.land saved_flags SDL_SRCALPHA =? SDL_SRCALPHA in
  let surface := if has_alpha then SDL_SetAlpha ext surface 0 SDL_ALPHA_OPAQUE else surface in
  let surface := if has_alpha
                 then SDL_SetColorKey ext surface 0 (SDL_Surface.colorkey surface)
                 else surface in
  match SDL_CreateRGBSurface ext SDL_SRCCOLORKEY potw poth
          (SDL_Surface.BytesPerPixel surface * 8) with
  | None =>
      WARN "Unable to create POT surface: %s" [SDL_GetError ext];;
      ret None
  | Some temp =>
      match SDL_FillRect ext temp
              (SDL_MapRGBA ext surface 0 0 0 SDL_ALPHA_TRANSPARENT) with
      | None =>
          WARN "Unable to fill rect: %s" [SDL_GetError ext];;
          ret None
      | Some temp =>
          let temp := SDL_BlitSurface ext surface temp in
          emit SDL_FreeSurface;;
          let surface := temp in
          let surface := if has_alpha then SDL_SetAlpha ext surface 0 0 else surface in
          ret (Some surface)
      end
  end.

(** [gl_loadSurface]: the result is [(texture, *rw, *rh)]. *)
Definition gl_loadSurface (surface : SDL_Surface.t) : M (Z * Z * Z) :=
  let* prepared := gl_prepareSurface surface in
  match prepared with
  | None => fail NullPointer
  | Some surface =>
      let rw := SDL_Surface.w surface in
      let rh := SDL_Surface.h surface in
      let* s := get in
      let texture := driver_glGenTextures ext (trace s) in
      emit (glGenTextures texture);;
      emit (glBindTexture texture);;
      (if negb (CDouble.eqb (glInfo.scale (gl_screen s)) CDouble.one)
       then emit (glTexParameteri GL_TEXTURE_MAG_FILTER GL_LINEAR);;
            emit (glTexParameteri GL_TEXTURE_MIN_FILTER GL_LINEAR)
       else emit (glTexParameteri GL_TEXTURE_MAG_FILTER GL_NEAREST);;
            emit (glTexParameteri GL_TEXTURE_MIN_FILTER GL_NEAREST));;
      emit (glTexParameteri GL_TEXTURE_WRAP_S GL_REPEAT);;
      emit (glTexParameteri GL_TEXTURE_WRAP_T GL_REPEAT);;
      emit (glTexImage2D (SDL_Surface.BytesPerPixel surface)
              (SDL_Surface.w surface) (SDL_Surface.h surface)
              (SDL_Surface.pixels surface));;
      emit SDL_FreeSurface;;
      gl_checkErr;;
      ret (texture, rw, rh)
  end.

(** [gl_loadImage]. *)
Definition gl_loadImage (surface : SDL_Surface.t) : M loc :=
  let* texture := malloc_glTexture in
  store texture (fun t =>
    glTexture.set_sy CDouble.one (glTexture.set_sx CDouble.one
      (glTexture.set_h (CDouble.of_int (SDL_Surface.h surface))
        (glTexture.set_w (CDouble.of_int (SDL_Surface.w surface)) t))));;
  let* (id, rw, rh) := gl_loadSurface surface in
  store texture (fun t =>
    let t := glTexture.set_texture id t in
    let t := glTexture.set_rw (CDouble.of_int rw) t in
    let t := glTexture.set_rh (CDouble.of_int rh) t in
    let t := glTexture.set_sw (glTexture.w t) t in
    let t := glTexture.set_sh (glTexture.h t) t in
    let t := glTexture.set_trans None t in
    glTexture.set_name None t);;
  ret texture.

(** [gl_loadNewImage]: [None] is the NULL result. *)
Definition gl_loadNewImage (path : string) (flags : Z) : M (option loc) :=
  match ndata_read ext path with
  | None =>
      ERR "Loading surface from ndata." [];;
      ret None
  | Some buf =>
      match IMG_Load_RW ext buf with
      | None =>
          ERR "'%s' could not be opened: %s" [path; IMG_GetError ext];;
          ret None
      | Some temp =>
          match SDL_DisplayFormatAlpha ext temp with
          | None =>
              WARN "Error converting image to screen format: %s" [SDL_GetError ext];;
              ret None
          | Some surface =>
              emit SDL_FreeSurface;;
              let surface := SDL_VFlipSurface surface in
              let trans :=
                if negb (Z.land flags OPENGL_TEX_MAPTRANS =? 0)
                then Some (SDL_MapTrans (SDL_BIG_ENDIAN ext) surface)
                else None in
              let* t := gl_loadImage surface in
              store t (glTexture.set_trans trans);;
              store t (glTexture.set_name (Some path));;
              ret (Some t)
          end
      end
  end.

(** The search loop of [gl_newImage]: [strcmp(path, cur->tex->name)] for
    each node in turn.  A node without a texture, or a texture without a
    name, makes the comparison dereference NULL. *)
Inductive scan :=
| ScanFault
| ScanMiss
| ScanHit (t : option loc) (l : list glTexList).

Fixpoint gl_newImage_scan (hp : list cell) (path : string) (l : list glTexList) : scan :=
  match l with
  | [] => ScanMiss
  | cur :: rest =>
      match tex cur with
      | None => ScanFault
      | Some p =>
          match hp !! p with
          | None => ScanFault
          | Some c =>
              match glTexture.name (obj c) with
              | None => ScanFault
              | Some nm =>
                  if String.eqb path nm
                  then ScanHit (tex cur)
                         (Build_glTexList (tex cur) (CInt.add (used cur) 1) :: rest)
                  else match gl_newImage_scan hp path rest with
                       | ScanHit t l' => ScanHit t (cur :: l')
                       | r => r
                       end
              end
          end
      end
  end.

(** [gl_newImage]. *)
Definition gl_newImage (path : string) (flags : Z) : M (option loc) :=
  let* s := get in
  match gl_newImage_scan (heap s) path (texture_list s) with
  | ScanFault => fail NullPointer
  | ScanHit t l' =>
      set_texture_list l';;
      ret t
  | ScanMiss =>
      let* t := gl_loadNewImage path flags in
      let* s := get in
      set_texture_list (texture_list s ++ [Build_glTexList t 1]);;
      ret t
  end.

(** [gl_newSprite]. *)
Definition gl_newSprite (path : string) (sx sy : Z) (flags : Z) : M (option loc) :=
  let* texture := gl_newImage path flags in
  match texture with
  | None => ret None
  | Some p =>
      store p (fun t =>
        let t := glTexture.set_sx (CDouble.of_int sx) t in
        let t := glTexture.set_sy (CDouble.of_int sy) t in
        let t := glTexture.set_sw (glTexture.w t / glTexture.sx t)%D t in
        glTexture.set_sh (glTexture.h t / glTexture.sy t)%D t);;
      ret (Some p)
  end.

Definition ptr_eqb (p : option loc) (q : loc) : bool :=
  match p with
  | Some l => Nat.eqb l q
  | None => false
  end.

(** The search loop of [gl_freeTexture]: the first node with
    [cur->tex == texture].  The result is the decremented count, the list
    with the count stored and the list with the node unlinked. *)
Fixpoint gl_freeTexture_find (texture : loc) (l : list glTexList)
  : option (Z * list glTexList * list glTexList) :=
  match l with
  | [] => None
  | cur :: rest =>
      if ptr_eqb (tex cur) texture
      then let u := CInt.sub (used cur) 1 in
           Some (u, Build_glTexList (tex cur) u :: rest, rest)
      else match gl_freeTexture_find texture rest with
           | Some (u, kept, removed) => Some (u, cur :: kept, cur :: removed)
           | None => None
           end
  end.

(** The four statements with which both paths of [gl_freeTexture] give the
    texture back: [glDeleteTextures], [free(trans)], [free(name)],
    [free(texture)]. *)
Definition gl_freeTexture_blocks (p : loc) : M unit :=
  let* t := deref (Some p) in
  emit (glDeleteTextures (glTexture.texture t));;
  when (is_Some_b (glTexture.trans t)) (emit (free (BTrans p)));;
  when (is_Some_b (glTexture.name t)) (emit (free (BName p)));;
  free_glTexture p.

(** [gl_freeTexture]. *)
Definition gl_freeTexture (texture : option loc) : M unit :=
  match texture with
  | None => WARN "Attempting to free NULL texture!" []
  | Some p =>
      let* s := get in
      match gl_freeTexture_find p (texture_list s) with
      | Some (u, kept, removed) =>
          if u <=? 0
          then gl_freeTexture_blocks p;;
               set_texture_list removed
          else set_texture_list kept
      | None =>
          let* t := deref (Some p) in
          match glTexture.name t with
          | Some nm => WARN "Attempting to free texture '%s' not found in stack!" [nm]
          | None => ret tt
          end;;
          gl_freeTexture_blocks p;;
          gl_checkErr
      end
  end.

(** ** Blitting *)

(** [gl_blitTexture]. *)
Definition gl_blitTexture (texture : glTexture.t) (x y tx ty : double)
    (c : option glColour) : M unit :=
  let tw := (glTexture.sw texture / glTexture.rw texture)%D in
  let th := (glTexture.sh texture / glTexture.rh texture)%D in
  emit glEnable_TEXTURE_2D;;
  emit (glBindTexture (glTexture.texture texture));;
  emit glBegin_QUADS;;
  match c with
  | None => emit (glColor4d CDouble.one CDouble.one CDouble.one CDouble.one)
  | Some c => emit (glColor4d (col_r c) (col_g c) (col_b c) (col_a c))
  end;;
  emit (glTexCoord2d tx ty);;
  emit (glVertex2d x y);;
  emit (glTexCoord2d (tx + tw)%D ty);;
  emit (glVertex2d (x + glTexture.sw texture)%D y);;
  emit (glTexCoord2d (tx + tw)%D (ty + th)%D);;
  emit (glVertex2d (x + glTexture.sw texture)%D (y + glTexture.sh texture)%D);;
  emit (glTexCoord2d tx (ty + th)%D);;
  emit (glVertex2d x (y + glTexture.sh texture)%D);;
  emit glEnd;;
  emit glDisable_TEXTURE_2D;;
  gl_checkErr.

(** The texture coordinates both sprite entry points compute. *)
Definition sprite_tx (sprite : glTexture.t) (sx : Z) : double :=
  (glTexture.sw sprite * CDouble.of_int sx / glTexture.rw sprite)%D.

Definition sprite_ty (sprite : glTexture.t) (sy : Z) : double :=
  (glTexture.sh sprite * (glTexture.sy sprite - CDouble.of_int sy - CDouble.one)
   / glTexture.rh sprite)%D.

(** [gl_blitSprite]: position relative to the camera. *)
Definition gl_blitSprite (sprite : glTexture.t) (bx by_ : double) (sx sy : Z)
    (c : option glColour) : M unit :=
  let* s := get in
  match gl_camera s with
  | None => fail NullPointer
  | Some cam =>
      let x := (bx - vx cam - glTexture.sw sprite / CDouble.two + gui_xoff s)%D in
      let y := (by_ - vy cam - glTexture.sh sprite / CDouble.two + gui_yoff s)%D in
      if (CDouble.of_int (CInt.div (SCREEN_W (gl_screen s)) 2) + glTexture.sw sprite
            <? CDouble.fabs x)%D
         || (CDouble.of_int (CInt.div (SCREEN_H (gl_screen s)) 2) + glTexture.sh sprite
               <? CDouble.fabs y)%D
      then ret tt
      else gl_blitTexture sprite x y (sprite_tx sprite sx) (sprite_ty sprite sy) c
  end.

(** [gl_blitStaticSprite]: position in screen coordinates. *)
Definition gl_blitStaticSprite (sprite : glTexture.t) (bx by_ : double) (sx sy : Z)
    (c : option glColour) : M unit :=
  let* s := get in
  let x := (bx - CDouble.of_int (SCREEN_W (gl_screen s)) / CDouble.two)%D in
  let y := (by_ - CDouble.of_int (SCREEN_H (gl_screen s)) / CDouble.two)%D in
  gl_blitTexture sprite x y (sprite_tx sprite sx) (sprite_ty sprite sy) c.

(** [gl_blitScale]. *)
Definition gl_blitScale (texture : glTexture.t) (bx by_ bw bh : double)
    (c : option glColour) : M unit :=
  let* s := get in
  let x := (bx - CDouble.of_int (SCREEN_W (gl_screen s)) / CDouble.two)%D in
  let y := (by_ - CDouble.of_int (SCREEN_H (gl_screen s)) / CDouble.two)%D in
  let tw := (glTexture.sw texture / glTexture.rw texture)%D in
  let th := (glTexture.sh texture / glTexture.rh texture)%D in
  let tx := CDouble.zero in
  let ty := CDouble.zero in
  emit glEnable_TEXTURE_2D;;
  emit (glBindTexture (glTexture.texture texture));;
  emit glBegin_QUADS;;
  match c with
  | None => emit (glColor4d CDouble.one CDouble.one CDouble.one CDouble.one)
  | Some c => emit (glColor4d (col_r c) (col_g c) (col_b c) (col_a c))
  end;;
  emit (glTexCoord2d tx ty);;
  emit (glVertex2d x y);;
  emit (glTexCoord2d (tx + tw)%D ty);;
  emit (glVertex2d (x + bw)%D y);;
  emit (glTexCoord2d (tx + tw)%D (ty + th)%D);;
  emit (glVertex2d (x + bw)%D (y + bh)%D);;
  emit (glTexCoord2d tx (ty + th)%D);;
  emit (glVertex2d x (y + bh)%D);;
  emit glEnd;;
  emit glDisable_TEXTURE_2D;;
  gl_checkErr.

(** [gl_blitStatic]. *)
Definition gl_blitStatic (texture : glTexture.t) (bx by_ : double)
    (c : option glColour) : M unit :=
  let* s := get in
  let x := (bx - CDouble.of_int (SCREEN_W (gl_screen s)) / CDouble.two)%D in
  let y := (by_ - CDouble.of_int (SCREEN_H (gl_screen s)) / CDouble.two)%D in
  gl_blitTexture texture x y CDouble.zero CDouble.zero c.

(** [gl_bindCamera]. *)
Definition gl_bindCamera (pos : option Vector2d) : M unit := set_gl_camera pos.

(** ** The viewport *)

(** The scale factors, the last four assignments of the viewport block of
    [gl_init]. *)
Definition gl_init_scales (w h rw rh nw nh : Z) (scale : double) : glInfo.t :=
  glInfo.mk w h rw rh nw nh scale
    (CDouble.of_int nw / CDouble.of_int w)%D
    (CDouble.of_int nh / CDouble.of_int h)%D
    (CDouble.of_int w / CDouble.of_int rw)%D
    (CDouble.of_int h / CDouble.of_int rh)%D.

(** The viewport block of [gl_init] ("Set up the proper viewport to use"),
    on the [w] and [h] that the video mode left in [gl_screen].  [None] is
    an integer division by zero. *)
Definition gl_init_viewport (scr : glInfo.t) : option glInfo.t :=
  let w := glInfo.w scr in
  let h := glInfo.h scr in
  let rw := w in
  let rh := h in
  let nw := w in
  let nh := h in
  if (w <? 600) && (w <=? h) then
    if w =? 0 then None else
    let scale := (CDouble.of_int w / CDouble.of_int 600)%D in
    let h' := CInt.div (CInt.mul h 600) w in
    let nh := CInt.div (CInt.mul rh w) 600 in
    Some (gl_init_scales 600 h' rw rh nw nh scale)
  else if (h <? 600) && (w >=? h) then
    if h =? 0 then None else
    let scale := (CDouble.of_int h / CDouble.of_int 600)%D in
    let w' := CInt.div (CInt.mul w 600) h in
    let nw := CInt.div (CInt.mul rw h) 600 in
    Some (gl_init_scales w' 600 rw rh nw nh scale)
  else Some (gl_init_scales w h rw rh nw nh CDouble.one).

(** [gl_defViewport]. *)
Definition gl_defViewport : M unit :=
  let* s := get in
  let scr := gl_screen s in
  emit glMatrixMode_PROJECTION;;
  emit glLoadIdentity;;
  emit (glOrtho (CDouble.opp (CDouble.of_int (glInfo.nw scr)) / CDouble.two)%D
                (CDouble.of_int (glInfo.nw scr) / CDouble.two)%D
                (CDouble.opp (CDouble.of_int (glInfo.nh scr)) / CDouble.two)%D
                (CDouble.of_int (glInfo.nh scr) / CDouble.two)%D
                (CDouble.opp CDouble.one) CDouble.one);;
  when (negb (CDouble.eqb (glInfo.scale scr) CDouble.one))
       (emit (glScaled (glInfo.wscale scr) (glInfo.hscale scr) CDouble.one)).

(** The last part of [gl_init]: the viewport block, then [gl_defViewport]. *)
Definition gl_init_tail : M unit :=
  let* s := get in
  match gl_init_viewport (gl_screen s) with
  | None => fail DivisionByZero
  | Some scr =>
      set_gl_screen scr;;
      gl_defViewport
  end.

End Program.

(** * The rest of the file: extension probe, shutdown, fullscreen modes *)

(** ** C strings

    A C string is the list of the characters before its terminating NUL. *)

Definition strlen (s : list ascii) : nat := length s.

(** [strcspn(s, reject)]: the length of the longest prefix of [s] without a
    character of [reject]. *)
Fixpoint strcspn (s reject : list ascii) : nat :=
  match s with
  | [] => O
  | c :: s' => if existsb (Ascii.eqb c) reject then O else S (strcspn s' reject)
  end.

(** [strncmp(a, b, n)]: the difference of the first pair of characters that
    differ among the first [n], the terminating NUL included; 0 when there
    is none. *)
Fixpoint strncmp (a b : list ascii) (n : nat) : Z :=
  match n with
  | O => 0
  | S n' =>
      match a, b with
      | [], [] => 0
      | [], y :: _ => - Z.of_N (N_of_ascii y)
      | x :: _, [] => Z.of_N (N_of_ascii x)
      | x :: a', y :: b' =>
          if Ascii.eqb x y then strncmp a' b' n'
          else Z.of_N (N_of_ascii x) - Z.of_N (N_of_ascii y)
      end
  end.

(** ** [gl_hasExt] *)

(** The loop of [gl_hasExt].  The pointer [p] is an offset into the
    extension string and [end] is the length of the string; [None] stands
    for a loop that has not exited after [fuel] tests. *)
Fixpoint gl_hasExt_loop (fuel : nat) (name extensions : list ascii) (p : nat)
  : option bool :=
  match fuel with
  | O => None
  | S fuel' =>
      if (p <? strlen extensions)%nat then
        let n := strcspn (drop p extensions) [" "%char] in
        if (strlen name =? n)%nat && (strncmp name (drop p extensions) n =? 0)
        then Some true
        else gl_hasExt_loop fuel' name extensions (p + (n + 1))
      else Some false
  end.

(** [gl_hasExt]; [extensions] is the string that
    [glGetString(GL_EXTENSIONS)] returns.  Every round moves [p] forward,
    so one round for each character and one more are enough. *)
Definition gl_hasExt (extensions name : list ascii) : option bool :=
  gl_hasExt_loop (S (strlen extensions)) name extensions 0.

(** ** [gl_exit] *)

Definition DEBUG (fmt : string) (args : list string) : M unit := emit (LOG LvlDEBUG fmt args).

(** The conversion [%d] of the log macros. *)
Definition fmt_d (z : Z) : string := NilZero.string_of_int (Z.to_int z).

(** The loop of [gl_exit]: one line for each node, with [tex->tex->name]
    and [tex->used].  A node without a texture faults, and so does a
    texture without a name, which [%s] would read through. *)
Fixpoint gl_exit_loop (l : list glTexList) : M unit :=
  match l with
  | [] => ret tt
  | cur :: rest =>
      let* t := deref (tex cur) in
      match glTexture.name t with
      | None => fail NullPointer
      | Some nm =>
          DEBUG "   '%s' opened %d times" [nm; fmt_d (used cur)];;
          gl_exit_loop rest
      end
  end.

(** [gl_exit]: the report of the textures still in the list.  The call of
    [SDL_QuitSubSystem] that follows touches nothing of the state. *)
Definition gl_exit : M unit :=
  let* s := get in
  match texture_list s with
  | [] => ret tt
  | l =>
      DEBUG "Texture leak detected!" [];;
      gl_exit_loop l
  end.

(** ** The fullscreen modes of [gl_init] *)

(** The [w] and [h] of an [SDL_Rect], both [Uint16]. *)
Record SDL_Rect := { rect_w : Z; rect_h : Z }.

(** What [SDL_ListModes] returns: NULL when there is no mode, the value -1
    cast to a pointer when every size is possible, or an array of modes
    that ends with a NULL entry. *)
Inductive SDL_modes :=
| modes_NULL
| modes_any
| modes_array (a : list SDL_Rect).

(** The macros [ABS] and [MIN] come from naev.h, which is not among the
    sources at hand; they are read as [((x) < 0) ? -(x) : (x)] and
    [((x) < (y)) ? (x) : (y)]. *)
Definition ABS (x : Z) : Z := if x <? 0 then CInt.sub 0 x else x.
Definition MIN (x y : Z) : Z := if x <? y then x else y.

(** Assignment to [gl_screen.w] and [gl_screen.h]. *)
Definition set_screen_size (w h : Z) : M unit :=
  let* s := get in
  let scr := gl_screen s in
  set_gl_screen (glInfo.mk w h (glInfo.rw scr) (glInfo.rh scr) (glInfo.nw scr)
                   (glInfo.nh scr) (glInfo.scale scr) (glInfo.wscale scr)
                   (glInfo.hscale scr) (glInfo.mxscale scr) (glInfo.myscale scr)).

(** The first loop over the modes: each one is logged, and [supported]
    is set when one has the size asked for. *)
Fixpoint gl_init_list_modes (fullscreen : bool) (modes : list SDL_Rect)
    (supported : bool) : M bool :=
  match modes with
  | [] => ret supported
  | m :: rest =>
      DEBUG "  %d x %d" [fmt_d (rect_w m); fmt_d (rect_h m)];;
      let* s := get in
      let supported :=
        if fullscreen && (rect_w m =? SCREEN_W (gl_screen s))
           && (rect_h m =? SCREEN_H (gl_screen s))
        then true else supported in
      gl_init_list_modes fullscreen rest supported
  end.

(** The second loop, "try to get closest aproximation to mode asked for":
    the result is [(j, off)]. *)
Fixpoint gl_init_closest (W H : Z) (modes : list SDL_Rect) (i j off : Z) : Z * Z :=
  match modes with
  | [] => (j, off)
  | m :: rest =>
      let toff := CInt.add (ABS (CInt.sub W (rect_w m))) (ABS (CInt.sub H (rect_h m))) in
      if (off =? -1) || (toff <? off)
      then gl_init_closest W H rest (CInt.add i 1) i toff
      else gl_init_closest W H rest (CInt.add i 1) j off
  end.

(** The format of the warning about a mode that is not supported; the
    character 10 is the line feed. *)
Definition switching_fmt : string :=
  ("Fullscreen mode %dx%d is not supported by your setup"
   ++ String (ascii_of_nat 10) "   switching to %dx%d")%string.

(** The part of [gl_init] that settles the size of the screen, from "Try
    to use desktop resolution" to the clamp to the desktop size.
    [fullscreen] and [dim_def] are the bits [OPENGL_FULLSCREEN] and
    [OPENGL_DIM_DEF] of [gl_screen.flags], [current_w] and [current_h] the
    desktop size in [SDL_VideoInfo], [sdl_1_2_10] the compile-time test
    [SDL_VERSION_ATLEAST(1,2,10)].  The result is the bit [SDL_FULLSCREEN]
    of [flags].  An array is read through [modes[i]] whatever
    [SDL_ListModes] returned: NULL and -1 fault there, and so does the
    entry that ends an empty array. *)
Definition gl_init_modes (sdl_1_2_10 fullscreen dim_def : bool)
    (current_w current_h : Z) (modes : SDL_modes) : M bool :=
  let flags := fullscreen in
  let* flags :=
    if fullscreen then
      when (sdl_1_2_10 && negb dim_def) (set_screen_size current_w current_h);;
      let* (flags, supported) :=
        match modes with
        | modes_NULL =>
            WARN "No fullscreen modes available" [];;
            if flags
            then WARN "Disabling fullscreen mode" [];; ret (false, false)
            else ret (flags, false)
        | modes_any =>
            DEBUG "All fullscreen modes available" [];;
            ret (flags, false)
        | modes_array a =>
            DEBUG "Available fullscreen modes:" [];;
            let* supported := gl_init_list_modes flags a false in
            ret (flags, supported)
        end in
      if flags && negb supported then
        let* s := get in
        match modes with
        | modes_array a =>
            let (j, _) := gl_init_closest (SCREEN_W (gl_screen s)) (SCREEN_H (gl_screen s))
                            a 0 0 (-1) in
            match a !! Z.to_nat j with
            | None => fail NullPointer
            | Some m =>
                WARN switching_fmt
                     [fmt_d (SCREEN_W (gl_screen s)); fmt_d (SCREEN_H (gl_screen s));
                      fmt_d (rect_w m); fmt_d (rect_h m)];;
                set_screen_size (rect_w m) (rect_h m);;
                ret flags
            end
        | _ => fail NullPointer
        end
      else ret flags
    else ret flags in
  when (sdl_1_2_10 && negb dim_def)
       (let* s := get in
        set_screen_size (MIN (glInfo.w (gl_screen s)) current_w)
                        (MIN (glInfo.h (gl_screen s)) current_h));;
  ret flags.

(** * Vocabulary of the properties *)

(** [p] is the least power of two that is at least [n]. *)
Definition smallest_pot (p n : Z) : Prop :=
  exists k, 0 <= k /\ p = 2 ^ k /\ n <= p /\
            forall j, 0 <= j -> n <= 2 ^ j -> p <= 2 ^ j.

(** [s] with [evs] appended to its trace. *)
Definition log (s : state) (evs : list event) : state :=
  mkState (heap s) (texture_list s) (gl_screen s) (gl_camera s)
          (gui_xoff s) (gui_yoff s) (trace s ++ evs).

(** [s] after a texture [tx] was allocated and [evs] were emitted. *)
Definition alloc_state (s : state) (tx : glTexture.t) (evs : list event) : state :=
  mkState (heap s ++ [Build_cell tx false]) (texture_list s) (gl_screen s)
          (gl_camera s) (gui_xoff s) (gui_yoff s) (trace s ++ evs).

(** What [gl_checkErr] appends to a trace [tr]. *)
Definition gl_checkErr_events (ext : Extern) (tr : list event) : list event :=
  glGetError (driver_glGetError ext tr) ::
  match driver_glGetError ext tr with
  | GL_NO_ERROR => []
  | GL_INVALID_ENUM => [LOG LvlWARN "OpenGL error: %s" ["GL invalid enum"%string]]
  | GL_INVALID_VALUE => [LOG LvlWARN "OpenGL error: %s" ["GL invalid value"%string]]
  | GL_INVALID_OPERATION => [LOG LvlWARN "OpenGL error: %s" ["GL invalid operation"%string]]
  | GL_STACK_OVERFLOW => [LOG LvlWARN "OpenGL error: %s" ["GL stack overflow"%string]]
  | GL_STACK_UNDERFLOW => [LOG LvlWARN "OpenGL error: %s" ["GL stack underflow"%string]]
  | GL_OUT_OF_MEMORY => [LOG LvlWARN "OpenGL error: %s" ["GL out of memory"%string]]
  | GL_TABLE_TOO_LARGE => [LOG LvlWARN "OpenGL error: %s" ["GL table too large"%string]]
  | GL_other _ => [LOG LvlWARN "OpenGL error: %s" ["GL unknown error"%string]]
  end.

(** The SDL calls of [gl_prepareSurface] keep the size of the surface they
    work on, and [SDL_CreateRGBSurface] makes a surface of the size asked
    for. *)
Record SDL_keeps_size (ext : Extern) : Prop := {
  create_size : forall fl w h d s,
    SDL_CreateRGBSurface ext fl w h d = Some s ->
    SDL_Surface.w s = w /\ SDL_Surface.h s = h;
  fill_size : forall s c s',
    SDL_FillRect ext s c = Some s' ->
    SDL_Surface.w s' = SDL_Surface.w s /\ SDL_Surface.h s' = SDL_Surface.h s;
  blit_size : forall src dst,
    SDL_Surface.w (SDL_BlitSurface ext src dst) = SDL_Surface.w dst /\
    SDL_Surface.h (SDL_BlitSurface ext src dst) = SDL_Surface.h dst;
  alpha_size : forall s fl v,
    SDL_Surface.w (SDL_SetAlpha ext s fl v) = SDL_Surface.w s /\
    SDL_Surface.h (SDL_SetAlpha ext s fl v) = SDL_Surface.h s
}.

(** The texture [gl_loadImage] builds from a surface, a handle and the
    size of the prepared surface. *)
Definition loaded_texture (surface : SDL_Surface.t) (id rw rh : Z) : glTexture.t :=
  glTexture.mk (CDouble.of_int (SDL_Surface.w surface)) (CDouble.of_int (SDL_Surface.h surface))
    (CDouble.of_int rw) (CDouble.of_int rh) CDouble.one CDouble.one
    (CDouble.of_int (SDL_Surface.w surface)) (CDouble.of_int (SDL_Surface.h surface))
    id None None.

(** The texture [gl_loadNewImage] returns for [path]: the loaded texture
    with its transparency bits and its name. *)
Definition named_texture (path : string) (trans : option (list Z))
    (surface : SDL_Surface.t) (id rw rh : Z) : glTexture.t :=
  glTexture.set_name (Some path) (glTexture.set_trans trans (loaded_texture surface id rw rh)).

(** [SDL_CreateRGBSurface] and [SDL_FillRect] do not fail. *)
Definition SDL_succeeds (ext : Extern) : Prop :=
  (forall fl w h d, SDL_CreateRGBSurface ext fl w h d <> None) /\
  (forall s c, SDL_FillRect ext s c <> None).

(** Bit [k] of a bit array stored 8 bits per byte, low bit first. *)
Definition get_bit (t : list Z) (k : Z) : bool :=
  Z.testbit (default 0 (t !! Z.to_nat (k / 8))) (k mod 8).

(** A node the search of [gl_newImage] for [path] walks past: it has a
    texture, the texture has a name, and the name is not [path]. *)
Definition passes (hp : list cell) (path : string) (n : glTexList) : Prop :=
  exists q c nm, tex n = Some q /\ hp !! q = Some c /\
                 glTexture.name (obj c) = Some nm /\ String.eqb path nm = false.

(** The state after the first [gl_newImage] of a path: one more texture
    in the heap, one more node, used once, at the end of the list. *)
Definition acquired (s : state) (tx : glTexture.t) (u : Z) (evs : list event) : state :=
  mkState (heap s ++ [Build_cell tx false])
          (texture_list s ++ [Build_glTexList (Some (length (heap s))) u])
          (gl_screen s) (gl_camera s) (gui_xoff s) (gui_yoff s) (trace s ++ evs).

(** What the last release of a texture at [p] appends to the trace. *)
Definition release_events (p : loc) (tx : glTexture.t) : list event :=
  [glDeleteTextures (glTexture.texture tx)]
  ++ (if is_Some_b (glTexture.trans tx) then [free (BTrans p)] else [])
  ++ (if is_Some_b (glTexture.name tx) then [free (BName p)] else [])
  ++ [free (BTexture p)].

(** An event that gives a resource back: a [free] or a
    [glDeleteTextures]. *)
Definition destroys (e : event) : bool :=
  match e with
  | free _ | glDeleteTextures _ => true
  | _ => false
  end.

(** Release-after-free safety as the specification words it, for a release
    that takes [s] to [s']: the list is untouched, a warning is logged, and
    nothing that was destroyed before is destroyed again. *)
Definition release_after_free_safe (s s' : state) : Prop :=
  texture_list s' = texture_list s /\
  exists new,
    trace s' = trace s ++ new /\
    (exists fmt args, In (LOG LvlWARN fmt args) new) /\
    forall e, destroys e = true -> In e (trace s) -> ~ In e new.

(** What a release of a texture without a node appends to the trace. *)
Definition untracked_release_events (ext : Extern) (tr : list event) (p : loc)
    (tx : glTexture.t) : list event :=
  let warn := match glTexture.name tx with
              | Some nm => [LOG LvlWARN "Attempting to free texture '%s' not found in stack!" [nm]]
              | None => []
              end in
  warn ++ release_events p tx
       ++ gl_checkErr_events ext (tr ++ warn ++ release_events p tx).

(** [gl_newSprite] applied to the struct of a texture. *)
Definition with_sprites (sx sy : Z) (t : glTexture.t) : glTexture.t :=
  glTexture.mk (glTexture.w t) (glTexture.h t) (glTexture.rw t) (glTexture.rh t)
    (CDouble.of_int sx) (CDouble.of_int sy)
    (glTexture.w t / CDouble.of_int sx)%D (glTexture.h t / CDouble.of_int sy)%D
    (glTexture.texture t) (glTexture.trans t) (glTexture.name t).

(** A corner of a quad: its texture coordinate and its vertex. *)
Definition corner : Type := (double * double) * (double * double).

(** A quad as OpenGL assembles it: the texture bound when it was drawn and
    its corners in the order of the [glVertex2d] calls. *)
Record quad := { quad_texture : option Z; quad_corners : list corner }.

(** The quads a trace draws: the vertices between [glBegin(GL_QUADS)] and
    [glEnd], each with the texture coordinate current at the time. *)
Fixpoint quads_from (bound : option Z) (open : option (list corner))
    (tc : double * double) (tr : list event) : list quad :=
  match tr with
  | [] => []
  | glBindTexture t :: tr => quads_from (Some t) open tc tr
  | glBegin_QUADS :: tr => quads_from bound (Some []) tc tr
  | glTexCoord2d u v :: tr => quads_from bound open (u, v) tr
  | glVertex2d x y :: tr =>
      quads_from bound (option_map (fun cs => cs ++ [(tc, (x, y))]) open) tc tr
  | glEnd :: tr =>
      match open with
      | Some cs => Build_quad bound cs :: quads_from bound None tc tr
      | None => quads_from bound None tc tr
      end
  | _ :: tr => quads_from bound open tc tr
  end.

Definition quads (tr : list event) : list quad :=
  quads_from None None (CDouble.zero, CDouble.zero) tr.

(** The textures a trace binds. *)
Definition binds (tr : list event) : list Z :=
  omap (fun e => match e with glBindTexture t => Some t | _ => None end) tr.

(** The rectangle with lower left vertex [(x, y)] and size [(w, h)],
    textured with the rectangle with lower left texel [(tx, ty)] and size
    [(tw, th)]: lower left, lower right, upper right, upper left. *)
Definition rectangle (x y w h tx ty tw th : double) : list corner :=
  [((tx, ty), (x, y));
   ((tx + tw, ty), (x + w, y));
   ((tx + tw, ty + th), (x + w, y + h));
   ((tx, ty + th), (x, y + h))]%D.

(** The OpenGL calls of [gl_blitTexture] up to [gl_checkErr]. *)
Definition gl_blitTexture_calls (texture : glTexture.t) (x y tx ty : double)
    (c : option glColour) : list event :=
  let tw := (glTexture.sw texture / glTexture.rw texture)%D in
  let th := (glTexture.sh texture / glTexture.rh texture)%D in
  [glEnable_TEXTURE_2D; glBindTexture (glTexture.texture texture); glBegin_QUADS;
   match c with
   | None => glColor4d CDouble.one CDouble.one CDouble.one CDouble.one
   | Some c => glColor4d (col_r c) (col_g c) (col_b c) (col_a c)
   end;
   glTexCoord2d tx ty; glVertex2d x y;
   glTexCoord2d (tx + tw)%D ty; glVertex2d (x + glTexture.sw texture)%D y;
   glTexCoord2d (tx + tw)%D (ty + th)%D;
   glVertex2d (x + glTexture.sw texture)%D (y + glTexture.sh texture)%D;
   glTexCoord2d tx (ty + th)%D; glVertex2d x (y + glTexture.sh texture)%D;
   glEnd; glDisable_TEXTURE_2D].

Definition gl_blitTexture_events (ext : Extern) (tr : list event)
    (texture : glTexture.t) (x y tx ty : double) (c : option glColour) : list event :=
  gl_blitTexture_calls texture x y tx ty c
  ++ gl_checkErr_events ext (tr ++ gl_blitTexture_calls texture x y tx ty c).

(** A double that is not below zero: a zero of either sign, a finite or
    infinite positive, or a NaN. *)
Definition not_negative (f : double) : Prop :=
  match f with
  | S754_finite true _ _ | S754_infinity true => False
  | _ => True
  end.

(** A double whose sign bit is clear, or a NaN. *)
Definition sign_clear (f : double) : Prop :=
  match f with
  | S754_zero s | S754_infinity s | S754_finite s _ _ => s = false
  | S754_nan => True
  end.

(** ** Vocabulary of the further properties *)

(** The words of a string, separated by single spaces. *)
Fixpoint words (s : list ascii) : list (list ascii) :=
  match s with
  | [] => [[]]
  | c :: s' =>
      if Ascii.eqb c " " then [] :: words s'
      else match words s' with
           | w :: ws => (c :: w) :: ws
           | [] => [[c]]
           end
  end.

(** [m], [n] times in a row. *)
Fixpoint repeat_M {A : Type} (n : nat) (m : M A) : M unit :=
  match n with
  | O => ret tt
  | S n' => m;; repeat_M n' m
  end.

(** [n] is a node whose texture is in the heap and carries the name [nm]. *)
Definition named_node (hp : list cell) (n : glTexList) (nm : string) : Prop :=
  exists p c, tex n = Some p /\ hp !! p = Some c /\ glTexture.name (obj c) = Some nm.

(** The line of the leak report for a node. *)
Definition leak_line (n : glTexList) (nm : string) : event :=
  LOG LvlDEBUG "   '%s' opened %d times" [nm; fmt_d (used n)].

(** The leak report for a list of nodes with the names of their textures. *)
Definition leak_report (l : list glTexList) (names : list string) : list event :=
  match l with
  | [] => []
  | _ => LOG LvlDEBUG "Texture leak detected!" [] :: zip_with leak_line l names
  end.

(** [s] with another texture list. *)
Definition with_texture_list (s : state) (l : list glTexList) : state :=
  mkState (heap s) l (gl_screen s) (gl_camera s) (gui_xoff s) (gui_yoff s) (trace s).

(** [s] with another [gl_screen]. *)
Definition with_gl_screen (s : state) (scr : glInfo.t) : state :=
  mkState (heap s) (texture_list s) scr (gl_camera s) (gui_xoff s) (gui_yoff s) (trace s).

(** [s] after the texture at [p] was given back: its block is marked, the
    list is [l], the trace has the events of the release. *)
Definition released (s : state) (p : loc) (c : cell) (l : list glTexList) : state :=
  mkState (<[p := Build_cell (obj c) true]> (heap s)) l (gl_screen s) (gl_camera s)
          (gui_xoff s) (gui_yoff s) (trace s ++ release_events p (obj c)).

(** A surface whose pixel buffer holds [h] rows of [pitch] bytes. *)
Definition rows_of_pitch (s : SDL_Surface.t) : Prop :=
  0 <= SDL_Surface.h s /\ 0 <= SDL_Surface.pitch s /\
  Z.of_nat (length (SDL_Surface.pixels s)) = SDL_Surface.h s * SDL_Surface.pitch s.

(** The filter [gl_loadSurface] picks: [GL_LINEAR] on a scaled screen. *)
Definition texture_filter (scr : glInfo.t) : texvalue :=
  if CDouble.eqb (glInfo.scale scr) CDouble.one then GL_NEAREST else GL_LINEAR.

(** The calls with which [gl_loadSurface] uploads the prepared surface
    [out] as the texture [id]. *)
Definition upload_events (scr : glInfo.t) (id : Z) (out : SDL_Surface.t) : list event :=
  [glGenTextures id; glBindTexture id;
   glTexParameteri GL_TEXTURE_MAG_FILTER (texture_filter scr);
   glTexParameteri GL_TEXTURE_MIN_FILTER (texture_filter scr);
   glTexParameteri GL_TEXTURE_WRAP_S GL_REPEAT;
   glTexParameteri GL_TEXTURE_WRAP_T GL_REPEAT;
   glTexImage2D (SDL_Surface.BytesPerPixel out) (SDL_Surface.w out) (SDL_Surface.h out)
     (SDL_Surface.pixels out);
   SDL_FreeSurface].

(** The projection [gl_defViewport] sets up for the native size of [scr]. *)
Definition projection (scr : glInfo.t) : list event :=
  [glMatrixMode_PROJECTION; glLoadIdentity;
   glOrtho (CDouble.opp (CDouble.of_int (glInfo.nw scr)) / CDouble.two)%D
           (CDouble.of_int (glInfo.nw scr) / CDouble.two)%D
           (CDouble.opp (CDouble.of_int (glInfo.nh scr)) / CDouble.two)%D
           (CDouble.of_int (glInfo.nh scr) / CDouble.two)%D
           (CDouble.opp CDouble.one) CDouble.one].

(** [n / 600.] differs from [1.] for every [n] from 1 to 599. *)
Definition small_scales_differ : bool :=
  forallb (fun n => negb (CDouble.eqb (CDouble.of_int (Z.of_nat n) / CDouble.of_int 600)%D
                            CDouble.one))
          (seq 1 599).

(** Is [GL_TEXTURE_2D] enabled after the trace [tr], when it was [on]
    before? *)
Definition texturing (on : bool) (tr : list event) : bool :=
  fold_left (fun on e => match e with
                         | glEnable_TEXTURE_2D => true
                         | glDisable_TEXTURE_2D => false
                         | _ => on
                         end) tr on.

(** The OpenGL calls of [gl_blitScale] up to [gl_checkErr]. *)
Definition gl_blitScale_calls (texture : glTexture.t) (x y bw bh : double)
    (c : option glColour) : list event :=
  let tw := (glTexture.sw texture / glTexture.rw texture)%D in
  let th := (glTexture.sh texture / glTexture.rh texture)%D in
  [glEnable_TEXTURE_2D; glBindTexture (glTexture.texture texture); glBegin_QUADS;
   match c with
   | None => glColor4d CDouble.one CDouble.one CDouble.one CDouble.one
   | Some c => glColor4d (col_r c) (col_g c) (col_b c) (col_a c)
   end;
   glTexCoord2d CDouble.zero CDouble.zero; glVertex2d x y;
   glTexCoord2d (CDouble.zero + tw)%D CDouble.zero; glVertex2d (x + bw)%D y;
   glTexCoord2d (CDouble.zero + tw)%D (CDouble.zero + th)%D;
   glVertex2d (x + bw)%D (y + bh)%D;
   glTexCoord2d CDouble.zero (CDouble.zero + th)%D; glVertex2d x (y + bh)%D;
   glEnd; glDisable_TEXTURE_2D].

(** The distance the search for a fullscreen mode minimises. *)
Definition mode_distance (W H : Z) (m : SDL_Rect) : Z :=
  Z.abs (W - rect_w m) + Z.abs (H - rect_h m).

(** Modes whose sides are [Uint16] values. *)
Definition uint16_modes (a : list SDL_Rect) : Prop :=
  Forall (fun m => 0 <= rect_w m < 65536 /\ 0 <= rect_h m < 65536) a.

(** What the search holds after the modes [pre]: nothing yet, or the index
    [j] of the first mode of least distance [off]. *)
Definition closest_inv (W H : Z) (pre : list SDL_Rect) (j off : Z) : Prop :=
  (pre = [] /\ j = 0 /\ off = -1) \/
  (exists m, pre !! Z.to_nat j = Some m /\ 0 <= j /\ off = mode_distance W H m /\
             (forall m', In m' pre -> off <= mode_distance W H m') /\
             (forall k m', (k < Z.to_nat j)%nat -> pre !! k = Some m' ->
                           off < mode_distance W H m')).

(** [scr] with another logical size. *)
Definition resized (scr : glInfo.t) (w h : Z) : glInfo.t :=
  glInfo.mk w h (glInfo.rw scr) (glInfo.rh scr) (glInfo.nw scr) (glInfo.nh scr)
    (glInfo.scale scr) (glInfo.wscale scr) (glInfo.hscale scr)
    (glInfo.mxscale scr) (glInfo.myscale scr).

(** The size [gl_init] asks for in fullscreen: the desktop size when no
    size was given and SDL knows it, the size in [gl_screen] otherwise. *)
Definition requested_size (sdl_1_2_10 dim_def : bool) (current_w current_h : Z)
    (scr : glInfo.t) : Z * Z :=
  if sdl_1_2_10 && negb dim_def then (current_w, current_h)
  else (glInfo.w scr, glInfo.h scr).

(** The line of the log for a mode. *)
Definition mode_line (m : SDL_Rect) : event :=
  LOG LvlDEBUG "  %d x %d" [fmt_d (rect_w m); fmt_d (rect_h m)].

Definition has_size (W H : Z) (m : SDL_Rect) : bool :=
  (rect_w m =? W) && (rect_h m =? H).

(** ** Environments for the examples *)

Module Scenario.

(** A 5x5 image, one byte per pixel, colour key 0. *)
Definition image5 : SDL_Surface.t :=
  SDL_Surface.mk 0 5 5 5 1 0 255
    [0; 0; 9; 0; 0;
     0; 9; 9; 9; 0;
     9; 9; 9; 9; 9;
     0; 9; 0; 9; 0;
     0; 9; 0; 9; 0].

(** Collaborators that know the asset [a.png] (the image above), fail to
    decode [bad.png] and have nothing else. *)
Definition ext0 : Extern := {|
  SDL_BIG_ENDIAN := false;
  ndata_read := fun path =>
    if String.eqb path "a.png" then Some [137; 80; 78; 71]
    else if String.eqb path "bad.png" then Some []
    else None;
  IMG_Load_RW := fun buf => match buf with [] => None | _ => Some image5 end;
  IMG_GetError := "unsupported image format";
  SDL_GetError := "";
  SDL_DisplayFormatAlpha := fun s => Some s;
  SDL_SetAlpha := fun s _ _ => s;
  SDL_SetColorKey := fun s _ _ => s;
  SDL_CreateRGBSurface := fun fl w h depth =>
    Some (SDL_Surface.mk fl w h (w * (depth / 8)) (depth / 8) 0 255
            (replicate (Z.to_nat (w * h * (depth / 8))) 0));
  SDL_MapRGBA := fun _ _ _ _ _ => 0;
  SDL_FillRect := fun s _ => Some s;
  SDL_BlitSurface := fun _ dst => dst;
  driver_glGenTextures := fun tr => Z.of_nat (length tr);
  driver_glGetError := fun _ => GL_NO_ERROR
|}.

Definition screen : glInfo.t :=
  glInfo.mk 800 600 800 600 800 600 CDouble.one CDouble.one CDouble.one
            CDouble.one CDouble.one.

(** An empty cache, an 800x600 screen, the camera at the origin. *)
Definition s0 : state :=
  mkState [] [] screen
          (Some (Build_Vector2d CDouble.zero CDouble.zero))
          CDouble.zero CDouble.zero [].

(** The state a run ends in ([s0] after a fault). *)
Definition final {A : Type} (r : result A) : state :=
  match r with
  | Ok _ s => s
  | Fault _ => s0
  end.

(** The states of the sequence acquire, release, release on [a.png]. *)
Definition s1 : state := Eval vm_compute in final (gl_newImage ext0 "a.png" 1 s0).

Definition s2 : state := Eval vm_compute in final (gl_freeTexture ext0 (Some 0%nat) s1).

Definition s3 : state := Eval vm_compute in final (gl_freeTexture ext0 (Some 0%nat) s2).

(** A 4x2 sheet of 64x64 cells on a 256x128 image. *)
Definition sheet : glTexture.t :=
  glTexture.mk (CDouble.of_int 256) (CDouble.of_int 128)
    (CDouble.of_int 256) (CDouble.of_int 128)
    (CDouble.of_int 4) (CDouble.of_int 2)
    (CDouble.of_int 64) (CDouble.of_int 64) 7 None None.

Definition origin : Vector2d := Build_Vector2d CDouble.zero CDouble.zero.

(** [gl_screen] when the viewport block of [gl_init] starts: the video
    mode has set [w] and [h], nothing else is set yet. *)
Definition video_mode (w h : Z) : glInfo.t :=
  glInfo.mk w h 0 0 0 0 CDouble.zero CDouble.zero CDouble.zero CDouble.zero
            CDouble.zero.

(** The state after [gl_loadImage] of the 5x5 image. *)
Definition s_image5 : state := Eval vm_compute in final (gl_loadImage ext0 image5 s0).

(** The block of the texture of [a.png] once it has been freed. *)
Definition c2 : cell :=
  Eval vm_compute in default (Build_cell glTexture.uninit false) (heap s2 !! 0%nat).

End Scenario.

(** ** Environments for the further examples *)

Module Cases.

(** Collaborators for which every path is an asset that holds the 5x5
    image. *)
Definition ext_all : Extern := {|
  SDL_BIG_ENDIAN := false;
  ndata_read := fun _ => Some [137; 80; 78; 71];
  IMG_Load_RW := fun _ => Some Scenario.image5;
  IMG_GetError := "";
  SDL_GetError := "";
  SDL_DisplayFormatAlpha := fun s => Some s;
  SDL_SetAlpha := fun s _ _ => s;
  SDL_SetColorKey := fun s _ _ => s;
  SDL_CreateRGBSurface := fun fl w h depth =>
    Some (SDL_Surface.mk fl w h (w * (depth / 8)) (depth / 8) 0 255
            (replicate (Z.to_nat (w * h * (depth / 8))) 0));
  SDL_MapRGBA := fun _ _ _ _ _ => 0;
  SDL_FillRect := fun s _ => Some s;
  SDL_BlitSurface := fun _ dst => dst;
  driver_glGenTextures := fun tr => Z.of_nat (length tr);
  driver_glGetError := fun _ => GL_NO_ERROR
|}.

(** The cache after [a.png] and then [b.png] were acquired, once each. *)
Definition s_a : state :=
  Eval vm_compute in Scenario.final (gl_newImage ext_all "a.png" 0 Scenario.s0).

Definition s_ab : state :=
  Eval vm_compute in Scenario.final (gl_newImage ext_all "b.png" 0 s_a).

(** The blocks of the two textures. *)
Definition c_a : cell :=
  Eval vm_compute in default (Build_cell glTexture.uninit false) (heap s_ab !! 0%nat).

Definition c_b : cell :=
  Eval vm_compute in default (Build_cell glTexture.uninit false) (heap s_ab !! 1%nat).

(** The cache after the load of the missing asset [nope.png] failed. *)
Definition s_nope : state :=
  Eval vm_compute in
    Scenario.final (gl_newImage Scenario.ext0 "nope.png" 0 Scenario.s0).

(** The cache after [a.png] was acquired without a transparency map. *)
Definition s_plain : state :=
  Eval vm_compute in Scenario.final (gl_newImage Scenario.ext0 "a.png" 0 Scenario.s0).

(** Collaborators like [Scenario.ext0], but for which SDL has no memory
    left for a new surface. *)
Definition ext_nomem : Extern := {|
  SDL_BIG_ENDIAN := false;
  ndata_read := ndata_read Scenario.ext0;
  IMG_Load_RW := IMG_Load_RW Scenario.ext0;
  IMG_GetError := "";
  SDL_GetError := "Out of memory";
  SDL_DisplayFormatAlpha := fun s => Some s;
  SDL_SetAlpha := fun s _ _ => s;
  SDL_SetColorKey := fun s _ _ => s;
  SDL_CreateRGBSurface := fun _ _ _ _ => None;
  SDL_MapRGBA := fun _ _ _ _ _ => 0;
  SDL_FillRect := fun s _ => Some s;
  SDL_BlitSurface := fun _ dst => dst;
  driver_glGenTextures := fun tr => Z.of_nat (length tr);
  driver_glGetError := fun _ => GL_NO_ERROR
|}.

(** A surface one pixel wider than the largest power of two of an [int]. *)
Definition wide : SDL_Surface.t := SDL_Surface.mk 0 (2 ^ 30 + 1) 1 0 4 0 255 [].

(** The state when the viewport block of [gl_init] starts on a 400x600
    video mode. *)
Definition small_screen : state :=
  mkState [] [] (Scenario.video_mode 400 600) None CDouble.zero CDouble.zero [].

(** Three fullscreen modes, none of them 800x600, and the same with
    800x600 added. *)
Definition modes3 : list SDL_Rect :=
  [Build_SDL_Rect 1024 768; Build_SDL_Rect 640 480; Build_SDL_Rect 1280 1024].

Definition modes4 : list SDL_Rect := modes3 ++ [Build_SDL_Rect 800 600].

End Cases.

(** * Properties *)

(** ** Integers and doubles *)

Lemma wrap32_small z : CInt.INT_MIN <= z <= CInt.INT_MAX -> CInt.wrap32 z = z.
Proof.
  unfold CInt.wrap32, CInt.INT_MIN, CInt.INT_MAX. intros Hz.
  rewrite Z.mod_small by lia. lia.
Qed.

Ltac int_small :=
  unfold CInt.add, CInt.sub, CInt.mul, CInt.div;
  rewrite wrap32_small by (unfold CInt.INT_MIN, CInt.INT_MAX; lia).

Lemma digits2_pos_iter_xO k : forall p,
  digits2_pos (Pos.iter xO p k) = (digits2_pos p + k)%positive.
Proof.
  induction k as [|k IH] using Pos.peano_ind; intros p.
  - cbn. lia.
  - rewrite Pos.iter_succ. cbn [digits2_pos]. rewrite IH. lia.
Qed.

Lemma Zpos_iter_xO k : forall p,
  Z.pos (Pos.iter xO p k) = Z.pos p * 2 ^ Z.pos k.
Proof.
  induction k as [|k IH] using Pos.peano_ind; intros p.
  - cbn. lia.
  - rewrite Pos.iter_succ, Pos2Z.inj_xO, IH, Pos2Z.inj_succ, Z.pow_succ_r by lia. lia.
Qed.

Lemma digits2_pos_bound p : forall k,
  0 <= k -> Z.pos p < 2 ^ k -> Z.pos (digits2_pos p) <= k.
Proof.
  induction p as [p IH|p IH|]; intros k Hk Hp; cbn [digits2_pos];
    assert (k <> 0) by (intros ->; cbn in Hp; lia); [| |lia];
    replace k with (Z.succ (k - 1)) in Hp by lia;
    rewrite Z.pow_succ_r in Hp by lia;
    specialize (IH (k - 1)); lia.
Qed.

(** An integer below 2^53 is a binary64 number: rounding leaves it alone. *)
Lemma binary_round_small sx p :
  Z.pos p < 2 ^ 53 ->
  exists m e, binary_round CDouble.prec CDouble.emax sx p 0 = S754_finite sx m e /\
              e <= 0 /\ Z.pos m = Z.pos p * 2 ^ (- e).
Proof.
  intros Hp. pose proof (digits2_pos_bound p 53 ltac:(lia) Hp) as Hd.
  unfold binary_round, shl_align, fexp, emin, CDouble.prec, CDouble.emax.
  set (d := digits2_pos p) in *.
  destruct (Z.eq_dec (Z.pos d) 53) as [Heq|Hne].
  - replace (Z.max (Z.pos d + 0 - 53) (3 - 1024 - 53) - 0) with 0 by lia.
    unfold binary_round_aux, shr_fexp, Zdigits2, fexp, emin. fold d.
    replace (Z.max (Z.pos d + 0 - 53) (3 - 1024 - 53) - 0) with 0 by lia.
    cbn [shr shr_record_of_loc shr_m loc_of_shr_record round_nearest_even Zdigits2].
    fold d. replace (Z.max (Z.pos d + 0 - 53) (3 - 1024 - 53) - 0) with 0 by lia.
    cbn. exists p, 0. split; [reflexivity|]. cbn. lia.
  - assert (Hk : Z.max (Z.pos d + 0 - 53) (3 - 1024 - 53) - 0 = Z.neg (53 - d)).
    { rewrite <- Pos2Z.opp_pos, Pos2Z.inj_sub by lia. lia. }
    rewrite Hk.
    assert (Hk' : Z.max (Z.pos d + 0 - 53) (3 - 1024 - 53) = Z.pos d - 53) by lia.
    rewrite Hk'.
    unfold binary_round_aux, shr_fexp, Zdigits2, fexp, emin.
    rewrite digits2_pos_iter_xO. fold d.
    replace (Z.max (Z.pos (d + (53 - d)) + (Z.pos d - 53) - 53) (3 - 1024 - 53)
             - (Z.pos d - 53)) with 0 by lia.
    cbn [shr shr_record_of_loc shr_m loc_of_shr_record round_nearest_even Zdigits2].
    rewrite digits2_pos_iter_xO. fold d.
    replace (Z.max (Z.pos (d + (53 - d)) + (Z.pos d - 53) - 53) (3 - 1024 - 53)
             - (Z.pos d - 53)) with 0 by lia.
    cbn [shr shr_m].
    replace (Z.pos d - 53 <=? 1024 - 53) with true by (symmetry; apply Z.leb_le; lia).
    eexists _, _. split; [reflexivity|]. split; [lia|].
    rewrite Zpos_iter_xO. f_equal. f_equal. lia.
Qed.

Lemma trunc_of_int n : - 2 ^ 53 < n < 2 ^ 53 -> CDouble.trunc (CDouble.of_int n) = Some n.
Proof.
  intros Hn. unfold CDouble.of_int, binary_normalize.
  destruct n as [|p|p]; [reflexivity| |].
  - destruct (binary_round_small false p) as (m & e & -> & He & Hm); [lia|].
    cbn [CDouble.trunc]. destruct (Z.leb_spec 0 e).
    + replace e with 0 in * by lia. cbn in Hm. f_equal. lia.
    + rewrite Hm, Z.div_mul; [reflexivity|]. apply Z.pow_nonzero; lia.
  - destruct (binary_round_small true p) as (m & e & -> & He & Hm); [lia|].
    cbn [CDouble.trunc]. destruct (Z.leb_spec 0 e).
    + replace e with 0 in * by lia. cbn in Hm. f_equal. lia.
    + rewrite Hm, Z.div_mul; [f_equal; lia|]. apply Z.pow_nonzero; lia.
Qed.

(** [(int)(double)n == n] for every [int] [n]. *)
Lemma to_int_of_int n :
  CInt.INT_MIN <= n <= CInt.INT_MAX -> CDouble.to_int (CDouble.of_int n) = Some n.
Proof.
  intros Hn. unfold CDouble.to_int.
  rewrite trunc_of_int by (unfold CInt.INT_MIN, CInt.INT_MAX in Hn; lia).
  unfold CInt.in_int.
  destruct (Z.leb_spec CInt.INT_MIN n), (Z.leb_spec n CInt.INT_MAX); try lia.
  reflexivity.
Qed.

(** ** [gl_pot] *)

Lemma shl_pow2 k : 0 <= k < 30 -> CInt.shl (2 ^ k) 1 = 2 ^ (k + 1).
Proof.
  intros Hk. unfold CInt.shl. rewrite Z.shiftl_mul_pow2 by lia.
  rewrite <- Z.pow_add_r by lia.
  apply wrap32_small. unfold CInt.INT_MIN, CInt.INT_MAX.
  assert (2 ^ (k + 1) <= 2 ^ 30) by (apply Z.pow_le_mono_r; lia).
  assert (0 < 2 ^ (k + 1)) by (apply Z.pow_pos_nonneg; lia).
  lia.
Qed.

Lemma gl_pot_loop_spec fuel : forall k n,
  0 <= k <= 30 -> n <= 2 ^ 30 ->
  (k = 0 \/ 2 ^ (k - 1) < n) ->
  30 - k < Z.of_nat fuel ->
  exists k', k <= k' <= 30 /\ gl_pot_loop fuel (2 ^ k) n = Some (2 ^ k') /\
             n <= 2 ^ k' /\ (k' = 0 \/ 2 ^ (k' - 1) < n).
Proof.
  induction fuel as [|fuel IH]; intros k n Hk Hn Hlow Hfuel; [lia|].
  cbn [gl_pot_loop]. destruct (Z.ltb_spec (2 ^ k) n) as [Hlt|Hge].
  - assert (k < 30).
    { destruct (Z.eq_dec k 30) as [->|]; lia. }
    rewrite shl_pow2 by lia.
    destruct (IH (k + 1) n) as (k' & Hk' & Heq & Hle & Hmin); try lia.
    { right. replace (k + 1 - 1) with k by lia. exact Hlt. }
    exists k'. repeat split; try lia; assumption.
  - exists k. repeat split; try lia; assumption.
Qed.

(** Within the range where an [int] power of two exists, the loop exits
    with the least one. *)
Lemma gl_pot_smallest n :
  n <= 2 ^ 30 -> exists p, gl_pot n = Some p /\ smallest_pot p n.
Proof.
  intros Hn. unfold gl_pot.
  destruct (gl_pot_loop_spec 32 0 n) as (k & Hk & Heq & Hle & Hmin); try lia.
  exists (2 ^ k). split; [exact Heq|].
  exists k. repeat split; try lia.
  intros j Hj Hnj. destruct Hmin as [->|Hmin].
  - change (2 ^ 0) with 1. pose proof (Z.pow_pos_nonneg 2 j). lia.
  - apply Z.pow_le_mono_r; [lia|].
    destruct (Z.le_gt_cases k j) as [|Hjk]; [assumption|].
    assert (2 ^ j <= 2 ^ (k - 1)) by (apply Z.pow_le_mono_r; lia). lia.
Qed.

Lemma gl_pot_loop_zero fuel n : 0 < n -> gl_pot_loop fuel 0 n = None.
Proof.
  intros Hn. induction fuel as [|fuel IH]; [reflexivity|].
  cbn [gl_pot_loop]. destruct (Z.ltb_spec 0 n); [|lia]. exact IH.
Qed.

Lemma gl_pot_loop_big fuel : forall k n,
  0 <= k <= 30 -> 2 ^ 30 < n -> gl_pot_loop fuel (2 ^ k) n = None.
Proof.
  induction fuel as [|fuel IH]; intros k n Hk Hn; [reflexivity|].
  cbn [gl_pot_loop].
  assert (2 ^ k <= 2 ^ 30) by (apply Z.pow_le_mono_r; lia).
  destruct (Z.ltb_spec (2 ^ k) n); [|lia].
  destruct (Z.eq_dec k 30) as [->|Hk30].
  - change (CInt.shl (2 ^ 30) 1) with (- 2 ^ 31).
    destruct fuel as [|fuel]; [reflexivity|]. cbn [gl_pot_loop].
    destruct (Z.ltb_spec (- 2 ^ 31) n); [|lia].
    change (CInt.shl (- 2 ^ 31) 1) with 0. apply gl_pot_loop_zero. lia.
  - rewrite shl_pow2 by lia. apply IH; lia.
Qed.

(** Beyond that range the loop never exits, whatever the fuel. *)
Lemma gl_pot_diverges fuel n : 2 ^ 30 < n -> gl_pot_loop fuel 1 n = None.
Proof. intros Hn. apply (gl_pot_loop_big fuel 0 n); lia. Qed.

Lemma gl_pot_spec n p : gl_pot n = Some p -> smallest_pot p n.
Proof.
  intros Hp. destruct (Z.le_gt_cases n (2 ^ 30)) as [Hn|Hn].
  - destruct (gl_pot_smallest n Hn) as (p' & Hp' & Hs). congruence.
  - unfold gl_pot in Hp. rewrite gl_pot_diverges in Hp by lia. discriminate.
Qed.

(** ** Running the monad *)

Lemma log_nil s : log s [] = s.
Proof. destruct s. unfold log. cbn. rewrite app_nil_r. reflexivity. Qed.

Lemma log_log s a b : log (log s a) b = log s (a ++ b).
Proof. unfold log. cbn. rewrite <- app_assoc. reflexivity. Qed.

Lemma bind_Ok {A B : Type} (m : M A) (k : A -> M B) s r s' :
  bind m k s = Ok r s' -> exists a s1, m s = Ok a s1 /\ k a s1 = Ok r s'.
Proof.
  unfold bind. destruct (m s) as [a s1|f]; [|discriminate].
  intros H. exists a, s1. split; [reflexivity|exact H].
Qed.

Lemma lookup_snoc {A : Type} (l : list A) (x : A) : (l ++ [x]) !! length l = Some x.
Proof. induction l as [|y l IH]; [reflexivity|exact IH]. Qed.

Lemma insert_snoc {A : Type} (l : list A) (x y : A) :
  <[length l := y]> (l ++ [x]) = l ++ [y].
Proof. induction l as [|z l IH]; [reflexivity|]. cbn. f_equal. exact IH. Qed.

Lemma lookup_snoc_lt {A : Type} (l : list A) (x : A) (i : nat) :
  (i < length l)%nat -> (l ++ [x]) !! i = l !! i.
Proof. intros Hi. apply lookup_app_l. exact Hi. Qed.

Lemma gl_checkErr_run ext s :
  gl_checkErr ext s = Ok tt (log s (gl_checkErr_events ext (trace s))).
Proof.
  unfold gl_checkErr, gl_checkErr_events, log, bind, get, WARN, ret.
  unfold emit at 1. cbn.
  destruct (driver_glGetError ext (trace s)); unfold emit; cbn;
    rewrite <- ?app_assoc, ?app_nil_r; reflexivity.
Qed.

Lemma gl_prepareSurface_log ext surface s r s' :
  gl_prepareSurface ext surface s = Ok r s' -> exists evs, s' = log s evs.
Proof.
  unfold gl_prepareSurface, gl_pot_M, bind, ret, fail, WARN, emit.
  destruct (gl_pot (SDL_Surface.w surface)); [|discriminate].
  destruct (gl_pot (SDL_Surface.h surface)); [|discriminate].
  destruct (SDL_CreateRGBSurface _ _ _ _ _) as [temp|]; cbn.
  - destruct (SDL_FillRect _ _ _) as [temp'|]; cbn;
      intros [= <- <-]; eexists; reflexivity.
  - intros [= <- <-]; eexists; reflexivity.
Qed.

Lemma gl_prepareSurface_size ext surface s out s' :
  SDL_keeps_size ext ->
  gl_prepareSurface ext surface s = Ok (Some out) s' ->
  gl_pot (SDL_Surface.w surface) = Some (SDL_Surface.w out) /\
  gl_pot (SDL_Surface.h surface) = Some (SDL_Surface.h out).
Proof.
  intros Hsdl. unfold gl_prepareSurface, gl_pot_M, bind, ret, fail, WARN, emit.
  destruct (gl_pot (SDL_Surface.w surface)) as [pw|]; [|discriminate].
  destruct (gl_pot (SDL_Surface.h surface)) as [ph|]; [|discriminate].
  destruct (SDL_CreateRGBSurface _ _ _ _ _) as [temp|] eqn:Hc; cbn; [|discriminate].
  destruct (SDL_FillRect _ _ _) as [temp'|] eqn:Hf; cbn; [|discriminate].
  intros [= <- <-].
  destruct (create_size ext Hsdl _ _ _ _ _ Hc) as [Hw Hh].
  destruct (fill_size ext Hsdl _ _ _ Hf) as [Hw' Hh'].
  match goal with |- context [SDL_BlitSurface ext ?a ?b] =>
    destruct (blit_size ext Hsdl a b) as [Hw'' Hh''] end.
  destruct (_ =? SDL_SRCALPHA).
  - match goal with |- context [SDL_SetAlpha ext ?a ?b ?c] =>
      destruct (alpha_size ext Hsdl a b c) as [Ha Hb] end.
    split; f_equal; congruence.
  - split; f_equal; congruence.
Qed.

Arguments gl_checkErr : simpl never.

Lemma gl_loadSurface_Ok ext surface s id rw rh s' :
  gl_loadSurface ext surface s = Ok (id, rw, rh) s' ->
  (exists evs, s' = log s evs) /\
  (SDL_keeps_size ext ->
   gl_pot (SDL_Surface.w surface) = Some rw /\
   gl_pot (SDL_Surface.h surface) = Some rh).
Proof.
  intros H. unfold gl_loadSurface in H.
  apply bind_Ok in H as (prep & s1 & Hprep & H).
  destruct prep as [out|]; [|discriminate].
  destruct (gl_prepareSurface_log _ _ _ _ _ Hprep) as [evs0 ->].
  unfold bind, get in H. unfold emit in H. cbn in H.
  destruct (negb _) in H; cbn in H; rewrite gl_checkErr_run in H; cbn in H;
    injection H as <- <- <- <-;
    (split; [eexists; unfold log; cbn; rewrite <- !app_assoc; reflexivity
            |intros Hsdl; exact (gl_prepareSurface_size _ _ _ _ _ Hsdl Hprep)]).
Qed.

Lemma gl_loadImage_Ok ext surface s p s' :
  gl_loadImage ext surface s = Ok p s' ->
  p = length (heap s) /\
  exists id rw rh evs,
    s' = alloc_state s (loaded_texture surface id rw rh) evs /\
    (SDL_keeps_size ext ->
     gl_pot (SDL_Surface.w surface) = Some rw /\
     gl_pot (SDL_Surface.h surface) = Some rh).
Proof.
  intros H. unfold gl_loadImage in H.
  unfold bind at 1 in H. unfold malloc_glTexture in H.
  unfold bind at 1 in H. unfold store at 1 in H. cbn [heap] in H.
  rewrite lookup_snoc in H. unfold set_heap in H. cbn in H.
  rewrite insert_snoc in H.
  apply bind_Ok in H as ([[id rw] rh] & s1 & Hload & H).
  apply gl_loadSurface_Ok in Hload as [[evs ->] Hsize].
  unfold bind, store, set_heap, ret in H. cbn in H.
  rewrite lookup_snoc in H. cbn in H. rewrite insert_snoc in H.
  injection H as <- <-. split; [reflexivity|].
  exists id, rw, rh, evs. split; [reflexivity|exact Hsize].
Qed.

Lemma gl_loadNewImage_Some ext path flags s p s' :
  gl_loadNewImage ext path flags s = Ok (Some p) s' ->
  p = length (heap s) /\
  exists buf temp surface0 id rw rh evs,
    ndata_read ext path = Some buf /\
    IMG_Load_RW ext buf = Some temp /\
    SDL_DisplayFormatAlpha ext temp = Some surface0 /\
    let surface := SDL_VFlipSurface surface0 in
    let trans := if negb (Z.land flags OPENGL_TEX_MAPTRANS =? 0)
                 then Some (SDL_MapTrans (SDL_BIG_ENDIAN ext) surface) else None in
    s' = alloc_state s (named_texture path trans surface id rw rh) evs /\
    (SDL_keeps_size ext ->
     gl_pot (SDL_Surface.w surface) = Some rw /\
     gl_pot (SDL_Surface.h surface) = Some rh).
Proof.
  intros H. unfold gl_loadNewImage in H.
  destruct (ndata_read ext path) as [buf|] eqn:Hread; [|discriminate].
  destruct (IMG_Load_RW ext buf) as [temp|] eqn:Himg; [|discriminate].
  destruct (SDL_DisplayFormatAlpha ext temp) as [surface0|] eqn:Hfmt; [|discriminate].
  unfold bind at 1 in H. unfold emit at 1 in H.
  apply bind_Ok in H as (t & s1 & Hload & H).
  apply gl_loadImage_Ok in Hload as [-> (id & rw & rh & evs & -> & Hsize)].
  cbn [heap length] in H.
  unfold bind, store, set_heap, ret, alloc_state in H. cbn in H.
  rewrite lookup_snoc in H. cbn in H. rewrite insert_snoc in H. cbn in H.
  rewrite lookup_snoc in H. cbn in H. rewrite insert_snoc in H.
  injection H as <- <-. split; [reflexivity|].
  exists buf, temp, surface0, id, rw, rh, (SDL_FreeSurface :: evs).
  repeat split; try reflexivity; try apply Hsize; try assumption.
  unfold alloc_state. cbn. rewrite <- app_assoc. reflexivity.
Qed.

(** A failed load returns NULL and touches neither the heap nor the list. *)
Lemma gl_loadNewImage_None ext path flags s s' :
  gl_loadNewImage ext path flags s = Ok None s' -> exists evs, s' = log s evs.
Proof.
  intros H. unfold gl_loadNewImage in H.
  destruct (ndata_read ext path) as [buf|].
  2:{ injection H as <-. eexists. reflexivity. }
  destruct (IMG_Load_RW ext buf) as [temp|].
  2:{ injection H as <-. eexists. reflexivity. }
  destruct (SDL_DisplayFormatAlpha ext temp) as [surface0|].
  2:{ injection H as <-. eexists. reflexivity. }
  unfold bind at 1 in H. unfold emit at 1 in H.
  apply bind_Ok in H as (t & s1 & _ & H).
  apply bind_Ok in H as (? & s2 & _ & H).
  apply bind_Ok in H as (? & s3 & _ & H). discriminate.
Qed.

Lemma gl_prepareSurface_returns ext surface s :
  SDL_succeeds ext ->
  SDL_Surface.w surface <= 2 ^ 30 -> SDL_Surface.h surface <= 2 ^ 30 ->
  exists out s', gl_prepareSurface ext surface s = Ok (Some out) s'.
Proof.
  intros [Hcreate Hfill] Hw Hh.
  destruct (gl_pot_smallest _ Hw) as (pw & Hpw & _).
  destruct (gl_pot_smallest _ Hh) as (ph & Hph & _).
  unfold gl_prepareSurface, gl_pot_M, bind, ret. rewrite Hpw, Hph.
  match goal with |- context [SDL_CreateRGBSurface ext ?a ?b ?c ?d] =>
    destruct (SDL_CreateRGBSurface ext a b c d) as [temp|] eqn:Hc;
      [|exfalso; exact (Hcreate _ _ _ _ Hc)] end.
  match goal with |- context [SDL_FillRect ext ?a ?b] =>
    destruct (SDL_FillRect ext a b) as [temp'|] eqn:Hf;
      [|exfalso; exact (Hfill _ _ Hf)] end.
  cbn. eexists _, _. reflexivity.
Qed.

Lemma gl_loadImage_returns ext surface s :
  SDL_succeeds ext ->
  SDL_Surface.w surface <= 2 ^ 30 -> SDL_Surface.h surface <= 2 ^ 30 ->
  exists p s', gl_loadImage ext surface s = Ok p s'.
Proof.
  intros Hsdl Hw Hh.
  unfold gl_loadImage. unfold bind at 1. unfold malloc_glTexture.
  unfold bind at 1. unfold store at 1. cbn [heap].
  rewrite lookup_snoc. unfold set_heap. cbn.
  unfold bind at 1. unfold gl_loadSurface. unfold bind at 1.
  match goal with |- context [gl_prepareSurface ext surface ?st] =>
    destruct (gl_prepareSurface_returns ext surface st Hsdl Hw Hh)
      as (out & s1 & Hprep);
    pose proof (gl_prepareSurface_log _ _ _ _ _ Hprep) as [evs ->];
    rewrite Hprep end.
  unfold bind, get. unfold emit. cbn.
  destruct (negb _); cbn; rewrite gl_checkErr_run; cbn;
    unfold store, set_heap, ret; cbn;
    rewrite insert_snoc, lookup_snoc; cbn; eexists _, _; reflexivity.
Qed.

(** ** The transparency map *)

Lemma for_loop_ind {A : Type} (P : Z -> A -> Prop) (n : Z) (body : Z -> A -> A) (a : A) :
  0 <= n ->
  P 0 a ->
  (forall i acc, 0 <= i < n -> P i acc -> P (i + 1) (body i acc)) ->
  P n (for_loop n body a).
Proof.
  intros Hn H0 Hstep. unfold for_loop.
  rewrite <- (Z2Nat.id n) at 1 by exact Hn.
  assert (Hle : (Z.to_nat n <= Z.to_nat n)%nat) by lia.
  revert Hle. generalize (Z.to_nat n) at 1 3 4 as m.
  induction m as [|m IH]; intros Hle; [exact H0|].
  rewrite seq_S, fold_left_app. cbn [fold_left Nat.add].
  replace (Z.of_nat (S m)) with (Z.of_nat m + 1) by lia.
  apply Hstep; [lia|]. apply IH. lia.
Qed.

Lemma land_pow2_eqb b i :
  0 <= i -> (Z.land b (2 ^ i) =? 0) = negb (Z.testbit b i).
Proof.
  intros Hi. destruct (Z.testbit b i) eqn:Hb; cbn [negb].
  - apply Z.eqb_neq. intros Hz.
    assert (Z.testbit (Z.land b (2 ^ i)) i = true) as Ht.
    { rewrite Z.land_spec, Hb, Z.pow2_bits_true by lia. reflexivity. }
    rewrite Hz, Z.bits_0 in Ht. discriminate.
  - apply Z.eqb_eq. apply Z.bits_inj'. intros n Hn.
    rewrite Z.land_spec, Z.bits_0, Z.pow2_bits_eqb by lia.
    destruct (Z.eqb_spec i n) as [->|]; [rewrite Hb|]; auto using andb_false_r.
Qed.

Lemma int_div8 k : 0 <= k <= CInt.INT_MAX -> CInt.div k 8 = k / 8.
Proof.
  intros Hk. unfold CInt.div. rewrite Z.quot_div_nonneg by lia.
  apply wrap32_small. unfold CInt.INT_MIN, CInt.INT_MAX in *.
  pose proof (Z.div_pos k 8). pose proof (Z.div_le_upper_bound k 8 k). lia.
Qed.

Lemma int_rem8 k : 0 <= k -> CInt.rem k 8 = k mod 8.
Proof. intros Hk. unfold CInt.rem. apply Z.rem_mod_nonneg; lia. Qed.

Lemma int_shl1 m : 0 <= m < 8 -> CInt.shl 1 m = 2 ^ m.
Proof.
  intros Hm. unfold CInt.shl. rewrite Z.shiftl_1_l.
  apply wrap32_small. unfold CInt.INT_MIN, CInt.INT_MAX.
  assert (2 ^ m <= 2 ^ 8) by (apply Z.pow_le_mono_r; lia).
  assert (0 < 2 ^ m) by (apply Z.pow_pos_nonneg; lia).
  change (2 ^ 8) with 256 in *. lia.
Qed.

Lemma or_byte_length t k bit : length (or_byte t k bit) = length t.
Proof. unfold or_byte. apply length_insert. Qed.

(** [t[k/8] |= bit] sets bit [k] when [bit] is [1 << (k % 8)], sets nothing
    when it is 0, and keeps every other bit. *)
Lemma or_byte_get_bit t k (set : bool) k' :
  0 <= k <= CInt.INT_MAX -> 0 <= k' ->
  (Z.to_nat (k / 8) < length t)%nat ->
  get_bit (or_byte t k (if set then CInt.shl 1 (CInt.rem k 8) else 0)) k'
  = get_bit t k' || (set && (k' =? k)).
Proof.
  intros Hk Hk' Hlen. unfold get_bit, or_byte.
  rewrite int_div8 by exact Hk.
  assert (Hm : 0 <= k mod 8 < 8) by (apply Z.mod_pos_bound; lia).
  assert (Hm' : 0 <= k' mod 8 < 8) by (apply Z.mod_pos_bound; lia).
  destruct (Z.eq_dec (k' / 8) (k / 8)) as [Heq|Hne].
  - rewrite Heq, list_lookup_insert_eq by exact Hlen. cbn [from_option id].
    rewrite Z.land_spec, Z.lor_spec.
    change 255 with (Z.ones 8). rewrite Z.ones_spec_low, andb_true_r by lia.
    f_equal. destruct set; cbn [andb].
    + rewrite int_rem8, int_shl1, Z.pow2_bits_eqb by lia.
      destruct (Z.eqb_spec (k mod 8) (k' mod 8)) as [Hmm|Hmm];
        destruct (Z.eqb_spec k' k) as [Hkk|Hkk]; try reflexivity.
      * exfalso. apply Hkk.
        rewrite (Z.div_mod k' 8), (Z.div_mod k 8) by lia. lia.
      * exfalso. subst k'. lia.
    + apply Z.bits_0.
  - rewrite list_lookup_insert_ne by (intros Hq; apply Hne; apply Z2Nat.inj in Hq;
      [lia|apply Z.div_pos; lia|apply Z.div_pos; lia]).
    destruct (Z.eqb_spec k' k) as [->|]; [congruence|].
    rewrite andb_false_r, orb_false_r. reflexivity.
Qed.

Lemma get_bit_replicate (n : nat) (k : Z) : get_bit (replicate n 0) k = false.
Proof.
  unfold get_bit. destruct (replicate n 0 !! Z.to_nat (k / 8)) as [b|] eqn:Hb.
  - apply lookup_replicate in Hb as [-> _]. apply Z.bits_0.
  - apply Z.bits_0.
Qed.

Lemma byte_index_in_range n k :
  0 <= k < n ->
  (Z.to_nat (k / 8) < Z.to_nat (n / 8 + (if n mod 8 =? 0 then 0 else 1))%Z)%nat.
Proof.
  intros Hk.
  assert (k / 8 < n / 8 + (if n mod 8 =? 0 then 0 else 1)).
  { pose proof (Z.div_mod n 8 ltac:(lia)). pose proof (Z.mod_pos_bound n 8 ltac:(lia)).
    destruct (Z.eqb_spec (n mod 8) 0).
    - apply Z.div_lt_upper_bound; lia.
    - apply Z.div_lt_upper_bound; lia. }
  pose proof (Z.div_pos k 8). lia.
Qed.

Lemma pixel_index w x y : 0 <= x < w -> (y * w + x) mod w = x /\ (y * w + x) / w = y.
Proof.
  intros Hx. split.
  - rewrite Z.add_comm, Z.mod_add by lia. apply Z.mod_small. exact Hx.
  - rewrite Z.add_comm, Z.div_add by lia. rewrite Z.div_small by exact Hx. lia.
Qed.

(** After [SDL_MapTrans] bit [k] of the map is set exactly for the pixels
    [k < w * h] that [SDL_IsTrans] does not find transparent. *)
Lemma SDL_MapTrans_bits be s :
  0 < SDL_Surface.w s -> 0 < SDL_Surface.h s ->
  SDL_Surface.w s * SDL_Surface.h s <= CInt.INT_MAX ->
  let w := SDL_Surface.w s in
  let h := SDL_Surface.h s in
  let t := SDL_MapTrans be s in
  length t = Z.to_nat (w * h / 8 + (if (w * h) mod 8 =? 0 then 0 else 1)) /\
  forall k, 0 <= k ->
    get_bit t k = (k <? w * h) && negb (SDL_IsTrans be s (k mod w) (k / w)).
Proof.
  intros Hw Hh Hwh w h. unfold SDL_MapTrans. fold w h.
  assert (Hmax : CInt.INT_MAX = 2147483647) by reflexivity.
  assert (Hmin : CInt.INT_MIN = -2147483648) by reflexivity.
  assert (Hsize : CInt.add (CInt.div (CInt.mul w h) 8)
                    (if CInt.rem (CInt.mul w h) 8 =? 0 then 0 else 1)
                  = w * h / 8 + (if (w * h) mod 8 =? 0 then 0 else 1)).
  { unfold CInt.mul. rewrite (wrap32_small (w * h)) by nia.
    rewrite int_div8, int_rem8 by nia.
    unfold CInt.add. apply wrap32_small.
    pose proof (Z.div_pos (w * h) 8 ltac:(nia) ltac:(lia)).
    pose proof (Z.mul_div_le (w * h) 8 ltac:(lia)).
    destruct (_ =? 0); lia. }
  rewrite Hsize. set (L := Z.to_nat _).
  set (P := fun (n : Z) (t : list Z) =>
    length t = L /\
    forall k, 0 <= k ->
      get_bit t k = (k <? n) && negb (SDL_IsTrans be s (k mod w) (k / w))).
  assert (Hfinal : P (h * w) (for_loop h (fun i t =>
    for_loop w (fun j t =>
      let k := CInt.add (CInt.mul i w) j in
      or_byte t k (if SDL_IsTrans be s j i then 0
                   else CInt.shl 1 (CInt.rem k 8))) t) (replicate L 0))).
  { apply (for_loop_ind (fun i t => P (i * w) t)); [lia| |].
    - split; [apply length_replicate|]. intros k Hk.
      rewrite get_bit_replicate. destruct (Z.ltb_spec k (0 * w)); [lia|reflexivity].
    - intros i acc Hi Hacc.
      replace ((i + 1) * w) with (i * w + w) by lia.
      apply (for_loop_ind (fun j t => P (i * w + j) t)); [lia| |].
      + rewrite Z.add_0_r. exact Hacc.
      + intros j t Hj [Hlen' Hbits'].
        replace (i * w + (j + 1)) with (i * w + j + 1) by lia.
        assert (Hk : 0 <= i * w + j < w * h) by nia.
        assert (Hidx : CInt.add (CInt.mul i w) j = i * w + j).
        { unfold CInt.mul. rewrite (wrap32_small (i * w)) by nia.
          unfold CInt.add. apply wrap32_small. nia. }
        cbv zeta. rewrite !Hidx.
        replace (if SDL_IsTrans be s j i then 0
                 else CInt.shl 1 (CInt.rem (i * w + j) 8))
          with (if negb (SDL_IsTrans be s j i)
                then CInt.shl 1 (CInt.rem (i * w + j) 8) else 0)
          by (destruct (SDL_IsTrans be s j i); reflexivity).
        split; [rewrite or_byte_length; exact Hlen'|].
        intros k Hk0. rewrite or_byte_get_bit; [|lia|lia|].
        2:{ rewrite Hlen'. apply byte_index_in_range. lia. }
        rewrite Hbits' by exact Hk0.
        destruct (Z.eqb_spec k (i * w + j)) as [->|Hne].
        * destruct (pixel_index w j i ltac:(lia)) as [-> ->].
          destruct (Z.ltb_spec (i * w + j) (i * w + j)); [lia|].
          destruct (Z.ltb_spec (i * w + j) (i * w + j + 1)); [|lia].
          cbn [andb orb]. rewrite andb_true_r. reflexivity.
        * rewrite andb_false_r, orb_false_r. f_equal.
          destruct (Z.ltb_spec k (i * w + j)), (Z.ltb_spec k (i * w + j + 1));
            try reflexivity; lia. }
  destruct Hfinal as [Hlen Hbits]. split; [exact Hlen|].
  intros k Hk. rewrite Hbits by exact Hk. rewrite (Z.mul_comm h w). reflexivity.
Qed.

Lemma gl_isTrans_MapTrans be s (t : glTexture.t) x y :
  0 < SDL_Surface.w s -> 0 < SDL_Surface.h s ->
  SDL_Surface.w s * SDL_Surface.h s <= CInt.INT_MAX ->
  0 <= x < SDL_Surface.w s -> 0 <= y < SDL_Surface.h s ->
  glTexture.w t = CDouble.of_int (SDL_Surface.w s) ->
  glTexture.trans t = Some (SDL_MapTrans be s) ->
  gl_isTrans t x y = Some (SDL_IsTrans be s x y).
Proof.
  intros Hw Hh Hwh Hx Hy Htw Htrans.
  destruct (SDL_MapTrans_bits be s Hw Hh Hwh) as [Hlen Hbits].
  assert (Hmax : CInt.INT_MAX = 2147483647) by reflexivity.
  assert (Hmin : CInt.INT_MIN = -2147483648) by reflexivity.
  unfold gl_isTrans. rewrite Htw, to_int_of_int by nia. cbn [mbind option_bind].
  rewrite Htrans. cbn [mbind option_bind].
  assert (Hk : 0 <= y * SDL_Surface.w s + x < SDL_Surface.w s * SDL_Surface.h s) by nia.
  assert (Hidx : CInt.add (CInt.mul y (SDL_Surface.w s)) x = y * SDL_Surface.w s + x).
  { unfold CInt.mul. rewrite (wrap32_small (y * _)) by nia.
    unfold CInt.add. apply wrap32_small. nia. }
  rewrite Hidx. destruct (Z.ltb_spec (y * SDL_Surface.w s + x) 0); [lia|].
  rewrite int_div8, int_rem8 by lia.
  rewrite int_shl1 by (apply Z.mod_pos_bound; lia).
  pose proof (byte_index_in_range _ _ Hk) as Hin. rewrite <- Hlen in Hin.
  destruct (lookup_lt_is_Some_2 _ _ Hin) as [b Hb].
  rewrite Hb. cbn [mbind option_bind]. f_equal.
  rewrite land_pow2_eqb by (apply Z.mod_pos_bound; lia).
  specialize (Hbits _ (proj1 Hk)). unfold get_bit in Hbits. rewrite Hb in Hbits.
  cbn [from_option id] in Hbits. rewrite Hbits.
  destruct (pixel_index (SDL_Surface.w s) x y Hx) as [-> ->].
  destruct (Z.ltb_spec (y * SDL_Surface.w s + x) (SDL_Surface.w s * SDL_Surface.h s)); [|lia].
  cbn [andb]. apply negb_involutive.
Qed.

(** ** The texture list *)

Lemma scan_miss_passes hp path l :
  gl_newImage_scan hp path l = ScanMiss -> Forall (passes hp path) l.
Proof.
  induction l as [|n l IH]; intros H; [constructor|].
  cbn [gl_newImage_scan] in H.
  destruct (tex n) as [q|] eqn:Hq; [|discriminate].
  destruct (hp !! q) as [c|] eqn:Hc; [|discriminate].
  destruct (glTexture.name (obj c)) as [nm|] eqn:Hnm; [|discriminate].
  destruct (String.eqb path nm) eqn:Heq; [discriminate|].
  destruct (gl_newImage_scan hp path l); try discriminate.
  constructor; [|apply IH; reflexivity].
  exists q, c, nm. auto.
Qed.

Lemma passes_snoc hp c path n : passes hp path n -> passes (hp ++ [c]) path n.
Proof.
  intros (q & c' & nm & Hq & Hc & Hnm & Hne). exists q, c', nm.
  repeat split; try assumption.
  rewrite lookup_app_l; [exact Hc|]. apply lookup_lt_Some in Hc. exact Hc.
Qed.

Lemma scan_app hp path l rest :
  Forall (passes hp path) l ->
  gl_newImage_scan hp path (l ++ rest) =
  match gl_newImage_scan hp path rest with
  | ScanHit t l' => ScanHit t (l ++ l')
  | r => r
  end.
Proof.
  induction 1 as [|n l (q & c & nm & Hq & Hc & Hnm & Hne) _ IH].
  - cbn. destruct (gl_newImage_scan hp path rest); reflexivity.
  - cbn [app gl_newImage_scan]. rewrite Hq, Hc, Hnm, Hne, IH.
    destruct (gl_newImage_scan hp path rest); reflexivity.
Qed.

Lemma passes_valid hp path n : passes hp path n -> ptr_eqb (tex n) (length hp) = false.
Proof.
  intros (q & c & nm & Hq & Hc & _). rewrite Hq. cbn.
  apply lookup_lt_Some in Hc. apply Nat.eqb_neq. lia.
Qed.

Lemma find_app_fresh t l n :
  Forall (fun m => ptr_eqb (tex m) t = false) l ->
  ptr_eqb (tex n) t = true ->
  gl_freeTexture_find t (l ++ [n]) =
  Some (CInt.sub (used n) 1,
        l ++ [Build_glTexList (tex n) (CInt.sub (used n) 1)], l).
Proof.
  intros Hl Hn. induction Hl as [|m l Hm _ IH].
  - cbn. rewrite Hn. reflexivity.
  - cbn [app gl_freeTexture_find]. rewrite Hm, IH. reflexivity.
Qed.

Lemma find_none t l :
  Forall (fun m => ptr_eqb (tex m) t = false) l -> gl_freeTexture_find t l = None.
Proof.
  induction 1 as [|m l Hm _ IH]; [reflexivity|].
  cbn [gl_freeTexture_find]. rewrite Hm, IH. reflexivity.
Qed.

Lemma gl_newImage_first ext path flags s t s1 :
  gl_newImage_scan (heap s) path (texture_list s) = ScanMiss ->
  gl_newImage ext path flags s = Ok (Some t) s1 ->
  t = length (heap s) /\
  exists tx evs, s1 = acquired s tx 1 evs /\ glTexture.name tx = Some path.
Proof.
  intros Hmiss H. unfold gl_newImage in H. unfold bind at 1, get at 1 in H.
  rewrite Hmiss in H.
  apply bind_Ok in H as (r & s' & Hload & H).
  unfold bind, get, set_texture_list, ret in H. cbn in H.
  injection H as -> <-.
  apply gl_loadNewImage_Some in Hload
    as [-> (buf & temp & surface0 & id & rw & rh & evs & _ & _ & _ & -> & _)].
  split; [reflexivity|]. eexists _, evs. split; reflexivity.
Qed.

Lemma gl_newImage_again ext path flags s tx u evs :
  Forall (passes (heap s) path) (texture_list s) ->
  glTexture.name tx = Some path ->
  gl_newImage ext path flags (acquired s tx u evs)
  = Ok (Some (length (heap s))) (acquired s tx (CInt.add u 1) evs).
Proof.
  intros Hpass Hname. unfold gl_newImage, bind, get. cbn [heap texture_list acquired].
  rewrite scan_app by (eapply Forall_impl; [exact Hpass|apply passes_snoc]).
  cbn [gl_newImage_scan tex used]. rewrite lookup_snoc. cbn [obj].
  rewrite Hname, String.eqb_refl. reflexivity.
Qed.

Lemma gl_freeTexture_keep ext s tx u evs :
  Forall (fun m => ptr_eqb (tex m) (length (heap s)) = false) (texture_list s) ->
  0 < CInt.sub u 1 ->
  gl_freeTexture ext (Some (length (heap s))) (acquired s tx u evs)
  = Ok tt (acquired s tx (CInt.sub u 1) evs).
Proof.
  intros Hpass Hu. unfold gl_freeTexture, bind, get. cbn [texture_list acquired].
  rewrite find_app_fresh.
  - cbn [used tex]. destruct (Z.leb_spec (CInt.sub u 1) 0); [lia|]. reflexivity.
  - exact Hpass.
  - cbn. apply Nat.eqb_refl.
Qed.

Lemma gl_freeTexture_blocks_run s p c :
  heap s !! p = Some c ->
  gl_freeTexture_blocks p s
  = Ok tt (mkState (<[p := Build_cell (obj c) true]> (heap s)) (texture_list s)
             (gl_screen s) (gl_camera s) (gui_xoff s) (gui_yoff s)
             (trace s ++ release_events p (obj c))).
Proof.
  intros Hc. unfold gl_freeTexture_blocks, release_events, deref, bind.
  rewrite Hc. unfold emit at 1. cbn.
  destruct (glTexture.trans (obj c)), (glTexture.name (obj c)); cbn;
    unfold free_glTexture, bind, emit, set_heap; cbn; rewrite Hc; cbn;
    rewrite <- ?app_assoc; reflexivity.
Qed.

Lemma gl_freeTexture_last ext s tx u evs :
  Forall (fun m => ptr_eqb (tex m) (length (heap s)) = false) (texture_list s) ->
  CInt.sub u 1 <= 0 ->
  gl_freeTexture ext (Some (length (heap s))) (acquired s tx u evs)
  = Ok tt (mkState (heap s ++ [Build_cell tx true]) (texture_list s)
             (gl_screen s) (gl_camera s) (gui_xoff s) (gui_yoff s)
             (trace s ++ evs ++ release_events (length (heap s)) tx)).
Proof.
  intros Hpass Hu. unfold gl_freeTexture, bind at 1, get. cbn [texture_list acquired].
  rewrite find_app_fresh.
  - cbn [used tex]. destruct (Z.leb_spec (CInt.sub u 1) 0); [|lia].
    unfold bind. erewrite gl_freeTexture_blocks_run by (cbn; apply lookup_snoc).
    cbn. rewrite insert_snoc, <- app_assoc. reflexivity.
  - exact Hpass.
  - cbn. apply Nat.eqb_refl.
Qed.

Lemma ext0_keeps_size : SDL_keeps_size Scenario.ext0.
Proof.
  constructor; cbn.
  - intros fl w h d s [= <-]. split; reflexivity.
  - intros s c s' [= <-]. split; reflexivity.
  - intros src dst. split; reflexivity.
  - intros s fl v. split; reflexivity.
Qed.


(** * The claims *)

(** C1 (cache deduplication and reference counting).  Let [path] have no
    entry in the texture list and let a first [gl_newImage path] return the
    texture [t].  Then a second [gl_newImage path] returns the same pointer
    [t] without touching the heap (same struct, same GPU handle) or the
    trace (no reload, no OpenGL call) and raises the count of the entry to
    2; one [gl_freeTexture t] leaves the entry in place with count 1 and
    deletes nothing; a second [gl_freeTexture t] deletes the GPU handle,
    frees the transparency bits (when there are any), the name and the
    struct, and unlinks the entry, so that the list is again the one before
    the first acquire. *)
Theorem cache_dedup_refcount ext path flags flags' s t s1 :
  gl_newImage_scan (heap s) path (texture_list s) = ScanMiss ->
  gl_newImage ext path flags s = Ok (Some t) s1 ->
  exists tx s2 s3 s4,
    heap s1 !! t = Some (Build_cell tx false) /\
    glTexture.name tx = Some path /\
    texture_list s1 = texture_list s ++ [Build_glTexList (Some t) 1] /\
    gl_newImage ext path flags' s1 = Ok (Some t) s2 /\
    heap s2 = heap s1 /\ trace s2 = trace s1 /\
    texture_list s2 = texture_list s ++ [Build_glTexList (Some t) 2] /\
    gl_freeTexture ext (Some t) s2 = Ok tt s3 /\
    heap s3 = heap s1 /\ trace s3 = trace s1 /\
    texture_list s3 = texture_list s ++ [Build_glTexList (Some t) 1] /\
    gl_freeTexture ext (Some t) s3 = Ok tt s4 /\
    texture_list s4 = texture_list s /\
    heap s4 = <[t := Build_cell tx true]> (heap s1) /\
    trace s4 = trace s1
               ++ [glDeleteTextures (glTexture.texture tx)]
               ++ (if is_Some_b (glTexture.trans tx) then [free (BTrans t)] else [])
               ++ [free (BName t); free (BTexture t)].
Proof.
  intros Hmiss Hfirst.
  pose proof (scan_miss_passes _ _ _ Hmiss) as Hpass.
  assert (Hfresh : Forall (fun m => ptr_eqb (tex m) (length (heap s)) = false)
                     (texture_list s)).
  { eapply Forall_impl; [exact Hpass|]. intros n. apply passes_valid. }
  destruct (gl_newImage_first _ _ _ _ _ _ Hmiss Hfirst) as [-> (tx & evs & -> & Hname)].
  exists tx, (acquired s tx 2 evs), (acquired s tx 1 evs).
  eexists.
  split; [apply lookup_snoc|]. split; [exact Hname|]. split; [reflexivity|].
  split; [apply (gl_newImage_again ext path flags' s tx 1 evs Hpass Hname)|].
  split; [reflexivity|]. split; [reflexivity|]. split; [reflexivity|].
  split; [apply (gl_freeTexture_keep ext s tx 2 evs Hfresh); reflexivity|].
  split; [reflexivity|]. split; [reflexivity|]. split; [reflexivity|].
  split; [apply (gl_freeTexture_last ext s tx 1 evs Hfresh); discriminate|].
  cbn [texture_list heap trace acquired].
  split; [reflexivity|]. split; [rewrite insert_snoc; reflexivity|].
  unfold release_events. rewrite Hname. cbn [is_Some_b].
  rewrite <- !app_assoc. reflexivity.
Qed.

(** The sequence acquire, acquire, release, release on the asset [a.png],
    from an empty cache. *)
Lemma cache_dedup_refcount_a_png :
  gl_newImage_scan (heap Scenario.s0) "a.png" (texture_list Scenario.s0) = ScanMiss /\
  gl_newImage Scenario.ext0 "a.png" 1 Scenario.s0 = Ok (Some 0%nat) Scenario.s1 /\
  exists tx s2 s3 s4,
    heap Scenario.s1 !! 0%nat = Some (Build_cell tx false) /\
    glTexture.name tx = Some "a.png"%string /\
    texture_list Scenario.s1
      = texture_list Scenario.s0 ++ [Build_glTexList (Some 0%nat) 1] /\
    gl_newImage Scenario.ext0 "a.png" 0 Scenario.s1 = Ok (Some 0%nat) s2 /\
    heap s2 = heap Scenario.s1 /\ trace s2 = trace Scenario.s1 /\
    texture_list s2 = texture_list Scenario.s0 ++ [Build_glTexList (Some 0%nat) 2] /\
    gl_freeTexture Scenario.ext0 (Some 0%nat) s2 = Ok tt s3 /\
    heap s3 = heap Scenario.s1 /\ trace s3 = trace Scenario.s1 /\
    texture_list s3 = texture_list Scenario.s0 ++ [Build_glTexList (Some 0%nat) 1] /\
    gl_freeTexture Scenario.ext0 (Some 0%nat) s3 = Ok tt s4 /\
    texture_list s4 = texture_list Scenario.s0 /\
    heap s4 = <[0%nat := Build_cell tx true]> (heap Scenario.s1) /\
    trace s4 = trace Scenario.s1
               ++ [glDeleteTextures (glTexture.texture tx)]
               ++ (if is_Some_b (glTexture.trans tx) then [free (BTrans 0%nat)] else [])
               ++ [free (BName 0%nat); free (BTexture 0%nat)].
Proof.
  split; [vm_compute; reflexivity|]. split; [vm_compute; reflexivity|].
  apply (cache_dedup_refcount Scenario.ext0 "a.png" 1 0 Scenario.s0 0%nat Scenario.s1);
    vm_compute; reflexivity.
Defined.

(** C8 (load-failure atomicity), at the failing input: the asset
    [nope.png] does not exist and the cache is empty.  [gl_newImage] returns
    NULL without a fault and logs the error, but it has linked a node with a
    NULL texture into the list, so the list is not the one before the call;
    the search loop of the next [gl_newImage] dereferences that NULL.  The
    same node is linked when the asset [bad.png] is read but not decoded. *)
Theorem gl_newImage_missing_asset :
  (exists s',
     gl_newImage Scenario.ext0 "nope.png" 0 Scenario.s0 = Ok None s' /\
     trace s' = [LOG LvlERR "Loading surface from ndata." []] /\
     texture_list s' = [Build_glTexList None 1] /\
     texture_list s' <> texture_list Scenario.s0 /\
     gl_newImage Scenario.ext0 "a.png" 0 s' = Fault NullPointer) /\
  (exists s',
     gl_newImage Scenario.ext0 "bad.png" 0 Scenario.s0 = Ok None s' /\
     trace s' = [LOG LvlERR "'%s' could not be opened: %s"
                   ["bad.png"%string; "unsupported image format"%string]] /\
     texture_list s' = [Build_glTexList None 1]).
Proof.
  split; eexists; (split; [vm_compute; reflexivity|]);
    repeat split; try reflexivity; discriminate.
Qed.

(** The same for every failed load: the node is linked whatever
    [gl_loadNewImage] returned. *)
Lemma gl_newImage_failed_load ext path flags s s' :
  gl_newImage_scan (heap s) path (texture_list s) = ScanMiss ->
  gl_newImage ext path flags s = Ok None s' ->
  heap s' = heap s /\
  texture_list s' = texture_list s ++ [Build_glTexList None 1].
Proof.
  intros Hmiss H. unfold gl_newImage in H. unfold bind at 1, get at 1 in H.
  rewrite Hmiss in H.
  apply bind_Ok in H as (r & s1 & Hload & H).
  unfold bind, get, set_texture_list, ret in H. cbn in H.
  injection H as -> <-.
  apply gl_loadNewImage_None in Hload as [evs ->]. split; reflexivity.
Qed.




Lemma scan_hit_lookup hp path l p l' :
  gl_newImage_scan hp path l = ScanHit (Some p) l' ->
  exists c, hp !! p = Some c /\ glTexture.name (obj c) = Some path.
Proof.
  revert l'. induction l as [|n l IH]; intros l' H; [discriminate|].
  cbn [gl_newImage_scan] in H.
  destruct (tex n) as [q|] eqn:Hq; [|discriminate].
  destruct (hp !! q) as [c|] eqn:Hc; [|discriminate].
  destruct (glTexture.name (obj c)) as [nm|] eqn:Hnm; [|discriminate].
  destruct (String.eqb_spec path nm) as [->|Hne].
  - injection H as -> _. exists c. auto.
  - destruct (gl_newImage_scan hp path l) as [| |t l0]; try discriminate.
    injection H as -> _. eapply IH. reflexivity.
Qed.

(** C10 (sheet geometry of a cached identity).  When [path] already has an
    entry, with its texture at [p], [gl_newSprite path sx sy] returns [p]
    and overwrites, in the one struct that every holder of [p] reads, the
    members [sx], [sy], [sw] and [sh] with [sx], [sy], [w/sx] and [h/sy].
    The GPU handle, the logical and the physical size, the name and the
    transparency bits of the struct stay, as does every other block of the
    heap; nothing is loaded and no OpenGL call is made. *)
Theorem gl_newSprite_cached ext path sx sy flags s p l' :
  gl_newImage_scan (heap s) path (texture_list s) = ScanHit (Some p) l' ->
  exists c s',
    heap s !! p = Some c /\
    gl_newSprite ext path sx sy flags s = Ok (Some p) s' /\
    heap s' = <[p := Build_cell (with_sprites sx sy (obj c)) (freed c)]> (heap s) /\
    deref (Some p) s' = Ok (with_sprites sx sy (obj c)) s' /\
    (forall q, q <> p -> heap s' !! q = heap s !! q) /\
    texture_list s' = l' /\
    trace s' = trace s /\
    glTexture.texture (with_sprites sx sy (obj c)) = glTexture.texture (obj c) /\
    glTexture.w (with_sprites sx sy (obj c)) = glTexture.w (obj c) /\
    glTexture.h (with_sprites sx sy (obj c)) = glTexture.h (obj c) /\
    glTexture.rw (with_sprites sx sy (obj c)) = glTexture.rw (obj c) /\
    glTexture.rh (with_sprites sx sy (obj c)) = glTexture.rh (obj c) /\
    glTexture.name (with_sprites sx sy (obj c)) = glTexture.name (obj c) /\
    glTexture.trans (with_sprites sx sy (obj c)) = glTexture.trans (obj c).
Proof.
  intros Hhit. destruct (scan_hit_lookup _ _ _ _ _ Hhit) as (c & Hc & _).
  exists c. eexists. split; [exact Hc|].
  split.
  { unfold gl_newSprite, gl_newImage, bind, get. rewrite Hhit.
    unfold set_texture_list, ret, store. cbn [heap]. rewrite Hc.
    unfold set_heap. cbn. reflexivity. }
  cbn [heap trace]. split; [reflexivity|].
  split.
  { unfold deref. cbn [heap].
    rewrite list_lookup_insert_eq by (apply lookup_lt_Some in Hc; exact Hc).
    reflexivity. }
  split.
  { intros q Hq. apply list_lookup_insert_ne. congruence. }
  repeat split.
Qed.

(** The asset [a.png], cached as a 1x1 sheet and asked for again as a 5x1
    sheet. *)
Lemma gl_newSprite_cached_a_png :
  gl_newImage_scan (heap Scenario.s1) "a.png" (texture_list Scenario.s1)
  = ScanHit (Some 0%nat) [Build_glTexList (Some 0%nat) 2] /\
  exists c s',
    heap Scenario.s1 !! 0%nat = Some c /\
    gl_newSprite Scenario.ext0 "a.png" 5 1 0 Scenario.s1 = Ok (Some 0%nat) s' /\
    heap s' = <[0%nat := Build_cell (with_sprites 5 1 (obj c)) (freed c)]> (heap Scenario.s1) /\
    deref (Some 0%nat) s' = Ok (with_sprites 5 1 (obj c)) s' /\
    (forall q, q <> 0%nat -> heap s' !! q = heap Scenario.s1 !! q) /\
    texture_list s' = [Build_glTexList (Some 0%nat) 2] /\
    trace s' = trace Scenario.s1 /\
    glTexture.texture (with_sprites 5 1 (obj c)) = glTexture.texture (obj c) /\
    glTexture.w (with_sprites 5 1 (obj c)) = glTexture.w (obj c) /\
    glTexture.h (with_sprites 5 1 (obj c)) = glTexture.h (obj c) /\
    glTexture.rw (with_sprites 5 1 (obj c)) = glTexture.rw (obj c) /\
    glTexture.rh (with_sprites 5 1 (obj c)) = glTexture.rh (obj c) /\
    glTexture.name (with_sprites 5 1 (obj c)) = glTexture.name (obj c) /\
    glTexture.trans (with_sprites 5 1 (obj c)) = glTexture.trans (obj c).
Proof.
  split; [reflexivity|].
  apply (gl_newSprite_cached Scenario.ext0 "a.png" 5 1 0 Scenario.s1 0%nat
           [Build_glTexList (Some 0%nat) 2]).
  reflexivity.
Defined.

(** C6 (power-of-two padding).  In the struct that [gl_loadImage] returns
    for a surface of size [(w, h)], the logical size is [(w, h)] and the
    physical size [(rw, rh)] is [(gl_pot w, gl_pot h)], each the least power
    of two that is at least the logical side; [gl_pot] takes 5 to 8 and
    leaves 16 at 16, and it returns for every [n] up to 2^30, the largest
    power of two an [int] holds. *)
Theorem gl_loadImage_physical_size ext surface s p s' :
  SDL_keeps_size ext ->
  gl_loadImage ext surface s = Ok p s' ->
  (exists t pw ph,
     heap s' !! p = Some (Build_cell t false) /\
     glTexture.w t = CDouble.of_int (SDL_Surface.w surface) /\
     glTexture.h t = CDouble.of_int (SDL_Surface.h surface) /\
     glTexture.rw t = CDouble.of_int pw /\
     glTexture.rh t = CDouble.of_int ph /\
     gl_pot (SDL_Surface.w surface) = Some pw /\
     gl_pot (SDL_Surface.h surface) = Some ph /\
     smallest_pot pw (SDL_Surface.w surface) /\
     smallest_pot ph (SDL_Surface.h surface)) /\
  gl_pot 5 = Some 8 /\ gl_pot 16 = Some 16 /\
  (forall n, n <= 2 ^ 30 -> exists q, gl_pot n = Some q /\ smallest_pot q n).
Proof.
  intros Hsdl Hload.
  apply gl_loadImage_Ok in Hload as [-> (id & rw & rh & evs & -> & Hsize)].
  destruct (Hsize Hsdl) as [Hw Hh].
  split; [|split; [reflexivity|split; [reflexivity|exact gl_pot_smallest]]].
  exists (loaded_texture surface id rw rh), rw, rh.
  split; [apply lookup_snoc|].
  repeat split; try assumption; apply gl_pot_spec; assumption.
Qed.

(** The 5x5 image: its texture is 8x8. *)
Lemma gl_loadImage_physical_size_5x5 :
  SDL_keeps_size Scenario.ext0 /\
  gl_loadImage Scenario.ext0 Scenario.image5 Scenario.s0 = Ok 0%nat Scenario.s_image5 /\
  (exists t pw ph,
     heap Scenario.s_image5 !! 0%nat = Some (Build_cell t false) /\
     glTexture.w t = CDouble.of_int (SDL_Surface.w Scenario.image5) /\
     glTexture.h t = CDouble.of_int (SDL_Surface.h Scenario.image5) /\
     glTexture.rw t = CDouble.of_int pw /\
     glTexture.rh t = CDouble.of_int ph /\
     gl_pot (SDL_Surface.w Scenario.image5) = Some pw /\
     gl_pot (SDL_Surface.h Scenario.image5) = Some ph /\
     smallest_pot pw (SDL_Surface.w Scenario.image5) /\
     smallest_pot ph (SDL_Surface.h Scenario.image5)) /\
  gl_pot 5 = Some 8 /\ gl_pot 16 = Some 16 /\
  (forall n, n <= 2 ^ 30 -> exists q, gl_pot n = Some q /\ smallest_pot q n).
Proof.
  split; [exact ext0_keeps_size|]. split; [vm_compute; reflexivity|].
  apply (gl_loadImage_physical_size Scenario.ext0 Scenario.image5 Scenario.s0 0%nat
           Scenario.s_image5 ext0_keeps_size).
  vm_compute. reflexivity.
Defined.



(** ** Quads *)

Arguments CDouble.add : simpl never.
Arguments CDouble.sub : simpl never.
Arguments CDouble.mul : simpl never.
Arguments CDouble.div : simpl never.
Arguments CDouble.of_int : simpl never.
Arguments CDouble.one : simpl never.
Arguments CDouble.two : simpl never.
Arguments CDouble.zero : simpl never.
Arguments CDouble.ltb : simpl never.
Arguments CDouble.eqb : simpl never.
Arguments CDouble.fabs : simpl never.

Lemma bind_emit {B : Type} (e : event) (k : unit -> M B) s :
  bind (emit e) k s = k tt (log s [e]).
Proof. reflexivity. Qed.

Lemma gl_blitTexture_run ext texture x y tx ty c s :
  gl_blitTexture ext texture x y tx ty c s
  = Ok tt (log s (gl_blitTexture_events ext (trace s) texture x y tx ty c)).
Proof.
  unfold gl_blitTexture, gl_blitTexture_events, gl_blitTexture_calls.
  rewrite !bind_emit.
  destruct c as [c|]; rewrite !bind_emit, gl_checkErr_run, !log_log;
    repeat (cbn [app trace log]; rewrite <- ?app_assoc); reflexivity.
Qed.

Arguments gl_checkErr_events : simpl never.

Lemma quads_checkErr ext tr bound tc :
  quads_from bound None tc (gl_checkErr_events ext tr) = [].
Proof.
  unfold gl_checkErr_events. destruct (driver_glGetError ext tr); reflexivity.
Qed.

Lemma binds_checkErr ext tr : binds (gl_checkErr_events ext tr) = [].
Proof.
  unfold gl_checkErr_events. destruct (driver_glGetError ext tr); reflexivity.
Qed.

(** [gl_blitTexture] binds the texture once and draws one quad, the
    rectangle at [(x, y)] of the size of a cell. *)
Lemma gl_blitTexture_quads ext tr texture x y tx ty c :
  quads (gl_blitTexture_events ext tr texture x y tx ty c)
  = [Build_quad (Some (glTexture.texture texture))
       (rectangle x y (glTexture.sw texture) (glTexture.sh texture) tx ty
          (glTexture.sw texture / glTexture.rw texture)%D
          (glTexture.sh texture / glTexture.rh texture)%D)] /\
  binds (gl_blitTexture_events ext tr texture x y tx ty c)
  = [glTexture.texture texture].
Proof.
  unfold gl_blitTexture_events, gl_blitTexture_calls, quads. split.
  - destruct c; cbn; rewrite quads_checkErr; reflexivity.
  - destruct c; cbn; rewrite binds_checkErr; reflexivity.
Qed.

Lemma gl_blitSprite_run ext sprite bx by_ sx sy c s cam :
  gl_camera s = Some cam ->
  let x := (bx - vx cam - glTexture.sw sprite / CDouble.two + gui_xoff s)%D in
  let y := (by_ - vy cam - glTexture.sh sprite / CDouble.two + gui_yoff s)%D in
  gl_blitSprite ext sprite bx by_ sx sy c s
  = if (CDouble.of_int (CInt.div (glInfo.w (gl_screen s)) 2) + glTexture.sw sprite
          <? CDouble.fabs x)%D
       || (CDouble.of_int (CInt.div (glInfo.h (gl_screen s)) 2) + glTexture.sh sprite
             <? CDouble.fabs y)%D
    then Ok tt s
    else gl_blitTexture ext sprite x y (sprite_tx sprite sx) (sprite_ty sprite sy) c s.
Proof.
  intros Hcam x y. subst x y. unfold gl_blitSprite, bind, get. rewrite Hcam.
  unfold SCREEN_W, SCREEN_H. destruct (_ || _); reflexivity.
Qed.



(** C7 (texel rectangle and extent of the quad).  Both sprite entry points
    draw, for the cell [(sx, sy)], one quad whose texture rectangle starts
    at [tx = sw*sx/rw], [ty = sh*(sy_of_sheet - sy - 1)/rh] and has the size
    [sw/rw] by [sh/rh], and whose vertices are the corners of the rectangle
    from the raw position to the raw position plus [(sw, sh)].  The raw
    position of [gl_blitStaticSprite] is the absolute position minus half
    the screen; that of [gl_blitSprite], when the sprite is not culled, is
    the camera-relative one. *)
Theorem sprite_texel_rectangle ext sprite bx by_ sx sy c s :
  let tx := (glTexture.sw sprite * CDouble.of_int sx / glTexture.rw sprite)%D in
  let ty := (glTexture.sh sprite
             * (glTexture.sy sprite - CDouble.of_int sy - CDouble.one)
             / glTexture.rh sprite)%D in
  let tw := (glTexture.sw sprite / glTexture.rw sprite)%D in
  let th := (glTexture.sh sprite / glTexture.rh sprite)%D in
  (let x := (bx - CDouble.of_int (glInfo.w (gl_screen s)) / CDouble.two)%D in
   let y := (by_ - CDouble.of_int (glInfo.h (gl_screen s)) / CDouble.two)%D in
   exists new,
     gl_blitStaticSprite ext sprite bx by_ sx sy c s = Ok tt (log s new) /\
     quads new = [Build_quad (Some (glTexture.texture sprite))
                    (rectangle x y (glTexture.sw sprite) (glTexture.sh sprite)
                       tx ty tw th)]) /\
  (forall cam,
     gl_camera s = Some cam ->
     let x := (bx - vx cam - glTexture.sw sprite / CDouble.two + gui_xoff s)%D in
     let y := (by_ - vy cam - glTexture.sh sprite / CDouble.two + gui_yoff s)%D in
     (CDouble.of_int (CInt.div (glInfo.w (gl_screen s)) 2) + glTexture.sw sprite
        <? CDouble.fabs x)%D
     || (CDouble.of_int (CInt.div (glInfo.h (gl_screen s)) 2) + glTexture.sh sprite
           <? CDouble.fabs y)%D = false ->
     exists new,
       gl_blitSprite ext sprite bx by_ sx sy c s = Ok tt (log s new) /\
       quads new = [Build_quad (Some (glTexture.texture sprite))
                      (rectangle x y (glTexture.sw sprite) (glTexture.sh sprite)
                         tx ty tw th)]).
Proof.
  intros tx ty tw th. split.
  - intros x y. unfold gl_blitStaticSprite, bind at 1, get.
    rewrite gl_blitTexture_run.
    eexists. split; [reflexivity|].
    apply (gl_blitTexture_quads ext (trace s) sprite x y tx ty c).
  - intros cam Hcam x y Hoff. subst x y.
    rewrite (gl_blitSprite_run ext sprite bx by_ sx sy c s cam Hcam). cbv zeta.
    rewrite Hoff, gl_blitTexture_run.
    eexists. split; [reflexivity|].
    match goal with |- context [gl_blitTexture_events ext ?tr ?t ?x ?y _ _ ?c] =>
      apply (gl_blitTexture_quads ext tr t x y tx ty c) end.
Qed.

(** The 4x2 sheet drawn at the absolute position (100, 50) of an 800x600
    screen, cell (1, 0). *)
Lemma sprite_texel_rectangle_sheet :
  exists new,
    gl_blitStaticSprite Scenario.ext0 Scenario.sheet (CDouble.of_int 100)
      (CDouble.of_int 50) 1 0 None Scenario.s0 = Ok tt (log Scenario.s0 new) /\
    quads new = [Build_quad (Some 7)
                   (rectangle (CDouble.of_int (-300)) (CDouble.of_int (-250))
                      (CDouble.of_int 64) (CDouble.of_int 64)
                      (CDouble.of_int 1 / CDouble.of_int 4)%D
                      (CDouble.of_int 1 / CDouble.of_int 2)%D
                      (CDouble.of_int 1 / CDouble.of_int 4)%D
                      (CDouble.of_int 1 / CDouble.of_int 2)%D)].
Proof.
  destruct (sprite_texel_rectangle Scenario.ext0 Scenario.sheet (CDouble.of_int 100)
              (CDouble.of_int 50) 1 0 None Scenario.s0) as [(new & Hrun & Hq) _].
  exists new. split; [exact Hrun|]. rewrite Hq. vm_compute. reflexivity.
Defined.

(** ** The viewport *)

(** C2 (viewport scaling and letterboxing).  The viewport block of
    [gl_init] on an 800x600 screen leaves the scale at 1 and makes the
    native size the logical size.  On a 400x600 screen (the width is below
    600 and not above the height) the scale is [400/600], the logical size
    becomes 600 x 900 ([600*600/400 = 900]), the native size 400 x 400
    ([600*400/600 = 400]), and on both axes the logical size times its scale
    factor is the native size; in binary64 the two products are exactly
    400. *)
Theorem viewport_scaling :
  (exists scr,
     gl_init_viewport (Scenario.video_mode 800 600) = Some scr /\
     glInfo.scale scr = CDouble.one /\
     glInfo.rw scr = 800 /\ glInfo.rh scr = 600 /\
     glInfo.w scr = 800 /\ glInfo.h scr = 600 /\
     glInfo.nw scr = glInfo.w scr /\ glInfo.nh scr = glInfo.h scr /\
     (CDouble.of_int (glInfo.w scr) * glInfo.wscale scr)%D = CDouble.of_int (glInfo.nw scr) /\
     (CDouble.of_int (glInfo.h scr) * glInfo.hscale scr)%D = CDouble.of_int (glInfo.nh scr)) /\
  (exists scr,
     gl_init_viewport (Scenario.video_mode 400 600) = Some scr /\
     glInfo.scale scr = (CDouble.of_int 400 / CDouble.of_int 600)%D /\
     glInfo.rw scr = 400 /\ glInfo.rh scr = 600 /\
     glInfo.w scr = 600 /\ glInfo.h scr = 900 /\
     glInfo.nw scr = 400 /\ glInfo.nh scr = 400 /\
     glInfo.wscale scr = (CDouble.of_int 400 / CDouble.of_int 600)%D /\
     glInfo.hscale scr = (CDouble.of_int 400 / CDouble.of_int 900)%D /\
     (CDouble.of_int (glInfo.w scr) * glInfo.wscale scr)%D = CDouble.of_int (glInfo.nw scr) /\
     (CDouble.of_int (glInfo.h scr) * glInfo.hscale scr)%D = CDouble.of_int (glInfo.nh scr)).
Proof.
  split; eexists; (split; [vm_compute; reflexivity|]);
    repeat split; vm_compute; reflexivity.
Qed.

(** ** Direction to sprite *)

Lemma round_aux_sign sx mx ex lx :
  match binary_round_aux CDouble.prec CDouble.emax sx mx ex lx with
  | S754_zero s | S754_infinity s | S754_finite s _ _ => s = sx
  | S754_nan => True
  end.
Proof.
  unfold binary_round_aux.
  destruct (shr_fexp _ _ mx ex lx) as [mrs' e'].
  destruct (shr_fexp _ _ _ e' loc_Exact) as [mrs'' e''].
  destruct (shr_m mrs''); [reflexivity| |exact I].
  destruct (_ <=? _); reflexivity.
Qed.

Lemma mul_sign_clear x y mx ex my ey :
  x = S754_finite false mx ex -> y = S754_finite false my ey ->
  sign_clear (x * y)%D.
Proof.
  intros -> ->. unfold CDouble.mul, SFmul, sign_clear. cbn [xorb].
  pose proof (round_aux_sign false (Z.pos (mx * my)) (ex + ey) loc_Exact) as H.
  destruct (binary_round_aux _ _ _ _ _ _); auto.
Qed.

Lemma div_sign_clear x y mx ex :
  x = S754_finite false mx ex -> sign_clear y -> sign_clear (x / y)%D.
Proof.
  intros -> Hy. unfold CDouble.div, SFdiv, sign_clear in *.
  destruct y as [s|s| |s my ey]; try subst s; cbn [xorb]; auto.
  destruct (SFdiv_core_binary _ _ _ _ _ _) as [[mz ez] lz].
  pose proof (round_aux_sign false mz ez lz) as H.
  destruct (binary_round_aux _ _ _ _ _ _); auto.
Qed.

Lemma div_not_negative x y :
  not_negative x -> sign_clear y -> not_negative (x / y)%D.
Proof.
  intros Hx Hy. unfold CDouble.div, SFdiv, not_negative, sign_clear in *.
  destruct x as [sx|sx| |sx mx ex], y as [s|s| |s my ey];
    try subst s; try (destruct sx; try contradiction); cbn [xorb]; auto.
  destruct (SFdiv_core_binary _ _ _ _ _ _) as [[mz ez] lz].
  pose proof (round_aux_sign false mz ez lz) as H.
  destruct (binary_round_aux _ _ _ _ _ _) as [s|s| |s m e]; try subst s; auto.
Qed.

Lemma clamp_not_negative x :
  not_negative (if (x <? CDouble.zero)%D then CDouble.zero else x).
Proof.
  unfold CDouble.ltb, SFltb, CDouble.zero.
  destruct x as [s|[]| |[] m e]; cbn; exact I.
Qed.

Lemma trunc_not_negative f v : not_negative f -> CDouble.trunc f = Some v -> 0 <= v.
Proof.
  destruct f as [s|s| |[] m e]; cbn; try discriminate; try contradiction.
  - intros _ [= <-]. lia.
  - intros _ [= <-]. destruct (Z.leb_spec 0 e).
    + pose proof (Z.pow_nonneg 2 e). lia.
    + apply Z.div_pos; [lia|]. apply Z.pow_pos_nonneg; lia.
Qed.

Lemma to_int_Some f v :
  CDouble.to_int f = Some v ->
  CDouble.trunc f = Some v /\ CInt.INT_MIN <= v <= CInt.INT_MAX.
Proof.
  unfold CDouble.to_int. destruct (CDouble.trunc f) as [u|]; [|discriminate].
  unfold CInt.in_int.
  destruct (Z.leb_spec CInt.INT_MIN u), (Z.leb_spec u CInt.INT_MAX);
    cbn; try discriminate.
  intros [= <-]. auto.
Qed.

Lemma to_int_positive f v :
  CDouble.to_int f = Some v -> 0 < v -> exists m e, f = S754_finite false m e.
Proof.
  intros H Hv. apply to_int_Some in H as [H _].
  destruct f as [s|s| |s m e]; cbn in H; try discriminate.
  - injection H as <-. lia.
  - destruct s; [|eauto]. injection H as <-. exfalso.
    destruct (Z.leb_spec 0 e).
    + pose proof (Z.pow_nonneg 2 e). lia.
    + assert (0 <= Z.pos m / 2 ^ (- e)); [|lia].
      apply Z.div_pos; [lia|]. apply Z.pow_pos_nonneg; lia.
Qed.

Lemma two_pi : (CDouble.two * CDouble.M_PI)%D = S754_finite false 7074237752028440 (-50).
Proof. vm_compute. reflexivity. Qed.



(** * Further properties of the code *)

(** ** The texture list, at any position *)

Lemma scan_hit_at hp path l1 n l2 p c :
  Forall (passes hp path) l1 ->
  tex n = Some p -> hp !! p = Some c -> glTexture.name (obj c) = Some path ->
  gl_newImage_scan hp path (l1 ++ n :: l2)
  = ScanHit (Some p) (l1 ++ Build_glTexList (Some p) (CInt.add (used n) 1) :: l2).
Proof.
  intros Hl1 Hp Hc Hnm. rewrite scan_app by exact Hl1.
  cbn [gl_newImage_scan]. rewrite Hp, Hc, Hnm, String.eqb_refl. reflexivity.
Qed.

(** X1 (a cache hit, wherever the entry is).  When the texture list is
    [l1 ++ n :: l2], the search for [path] walks past every node of [l1]
    and the texture of [n] carries the name [path], then [gl_newImage path]
    returns the texture of [n] and adds one to the count of [n]; the nodes
    of [l1] and [l2], their order, the heap, the screen, the camera and the
    trace are the ones before: nothing is loaded, whatever the flags. *)
Theorem gl_newImage_hit ext path flags s l1 n l2 p c :
  texture_list s = l1 ++ n :: l2 ->
  Forall (passes (heap s) path) l1 ->
  tex n = Some p -> heap s !! p = Some c -> glTexture.name (obj c) = Some path ->
  gl_newImage ext path flags s
  = Ok (Some p)
       (with_texture_list s
          (l1 ++ Build_glTexList (Some p) (CInt.add (used n) 1) :: l2)).
Proof.
  intros Hl Hl1 Hp Hc Hnm. unfold gl_newImage, bind, get.
  rewrite Hl, (scan_hit_at _ _ _ _ _ _ _ Hl1 Hp Hc Hnm). reflexivity.
Qed.

(** The second of two cached assets, acquired again. *)
Lemma gl_newImage_hit_b_png :
  gl_newImage Cases.ext_all "b.png" 1 Cases.s_ab
  = Ok (Some 1%nat)
       (with_texture_list Cases.s_ab
          ([Build_glTexList (Some 0%nat) 1]
           ++ Build_glTexList (Some 1%nat) (CInt.add 1 1) :: [])).
Proof.
  apply (gl_newImage_hit Cases.ext_all "b.png" 1 Cases.s_ab
           [Build_glTexList (Some 0%nat) 1] (Build_glTexList (Some 1%nat) 1) []
           1%nat Cases.c_b); try reflexivity.
  constructor; [|constructor].
  exists 0%nat, Cases.c_a, "a.png"%string. repeat split; reflexivity.
Defined.

Lemma find_at t l1 n l2 :
  Forall (fun m => ptr_eqb (tex m) t = false) l1 ->
  tex n = Some t ->
  gl_freeTexture_find t (l1 ++ n :: l2)
  = Some (CInt.sub (used n) 1,
          l1 ++ Build_glTexList (Some t) (CInt.sub (used n) 1) :: l2,
          l1 ++ l2).
Proof.
  intros Hl1 Hn. induction Hl1 as [|m l1 Hm _ IH].
  - cbn. rewrite Hn. cbn. rewrite Nat.eqb_refl. reflexivity.
  - cbn [app gl_freeTexture_find]. rewrite Hm, IH. reflexivity.
Qed.

(** X2 (a release, wherever the entry is).  When the texture list is
    [l1 ++ n :: l2], no node of [l1] points to the texture at [p] and [n]
    does, [gl_freeTexture] takes one from the count of [n].  If the result
    is above 0 only that count changes.  Otherwise the texture is given
    back ([glDeleteTextures], the [free] of the transparency bits, of the
    name and of the struct) and [n] is unlinked.  In both cases the nodes of
    [l1] and [l2] keep their counts and their order. *)
Theorem gl_freeTexture_tracked ext s l1 n l2 p c :
  texture_list s = l1 ++ n :: l2 ->
  Forall (fun m => ptr_eqb (tex m) p = false) l1 ->
  tex n = Some p -> heap s !! p = Some c ->
  gl_freeTexture ext (Some p) s
  = Ok tt (if CInt.sub (used n) 1 <=? 0
           then released s p c (l1 ++ l2)
           else with_texture_list s
                  (l1 ++ Build_glTexList (Some p) (CInt.sub (used n) 1) :: l2)).
Proof.
  intros Hl Hl1 Hn Hc. unfold gl_freeTexture, bind at 1, get.
  rewrite Hl, (find_at _ _ _ _ Hl1 Hn).
  destruct (CInt.sub (used n) 1 <=? 0); [|reflexivity].
  unfold bind. rewrite (gl_freeTexture_blocks_run _ _ _ Hc). reflexivity.
Qed.

(** The first of two cached assets, released: the node of the second one
    stays. *)
Lemma gl_freeTexture_tracked_a_png :
  gl_freeTexture Cases.ext_all (Some 0%nat) Cases.s_ab
  = Ok tt (released Cases.s_ab 0%nat Cases.c_a ([] ++ [Build_glTexList (Some 1%nat) 1])).
Proof.
  apply (gl_freeTexture_tracked Cases.ext_all Cases.s_ab [] (Build_glTexList (Some 0%nat) 1)
           [Build_glTexList (Some 1%nat) 1] 0%nat Cases.c_a); try reflexivity.
  constructor.
Defined.

Lemma repeat_acquire ext path flags s tx evs (n : nat) : forall u,
  Forall (passes (heap s) path) (texture_list s) ->
  glTexture.name tx = Some path ->
  1 <= u -> u + Z.of_nat n <= CInt.INT_MAX ->
  repeat_M n (gl_newImage ext path flags) (acquired s tx u evs)
  = Ok tt (acquired s tx (u + Z.of_nat n) evs).
Proof.
  induction n as [|n IH]; intros u Hpass Hname Hu Hmax.
  - cbn. rewrite Z.add_0_r. reflexivity.
  - cbn [repeat_M]. unfold bind.
    rewrite (gl_newImage_again ext path flags s tx u evs Hpass Hname).
    assert (Hadd : CInt.add u 1 = u + 1).
    { unfold CInt.add. apply wrap32_small. unfold CInt.INT_MIN, CInt.INT_MAX in *. lia. }
    rewrite Hadd, IH by (try assumption; lia). do 2 f_equal. lia.
Qed.

Lemma repeat_release ext s tx evs (n : nat) : forall u,
  Forall (fun m => ptr_eqb (tex m) (length (heap s)) = false) (texture_list s) ->
  1 <= u -> u + Z.of_nat n <= CInt.INT_MAX ->
  repeat_M n (gl_freeTexture ext (Some (length (heap s))))
    (acquired s tx (u + Z.of_nat n) evs)
  = Ok tt (acquired s tx u evs).
Proof.
  induction n as [|n IH]; intros u Hfresh Hu Hmax.
  - cbn. rewrite Z.add_0_r. reflexivity.
  - cbn [repeat_M]. unfold bind.
    assert (Hsub : CInt.sub (u + Z.of_nat (S n)) 1 = u + Z.of_nat n).
    { unfold CInt.sub. rewrite wrap32_small; unfold CInt.INT_MIN, CInt.INT_MAX in *; lia. }
    rewrite (gl_freeTexture_keep ext s tx _ evs Hfresh) by (rewrite Hsub; lia).
    rewrite Hsub. apply IH; try assumption; lia.
Qed.

(** X3 (acquires and releases balance).  After the first [gl_newImage] of
    a path, [n] further acquires followed by [n] releases bring back the
    very state after the first acquire: in between the count is [1 + n],
    the heap and the trace never change, and none of the [n] releases
    destroys the texture.  The count is an [int], so [1 + n] has to be
    one. *)
Theorem acquire_release_balanced ext path flags flags' s t s1 (n : nat) :
  gl_newImage_scan (heap s) path (texture_list s) = ScanMiss ->
  gl_newImage ext path flags s = Ok (Some t) s1 ->
  1 + Z.of_nat n <= CInt.INT_MAX ->
  exists s2,
    repeat_M n (gl_newImage ext path flags') s1 = Ok tt s2 /\
    texture_list s2 = texture_list s ++ [Build_glTexList (Some t) (1 + Z.of_nat n)] /\
    heap s2 = heap s1 /\ trace s2 = trace s1 /\
    repeat_M n (gl_freeTexture ext (Some t)) s2 = Ok tt s1.
Proof.
  intros Hmiss Hfirst Hn.
  pose proof (scan_miss_passes _ _ _ Hmiss) as Hpass.
  assert (Hfresh : Forall (fun m => ptr_eqb (tex m) (length (heap s)) = false)
                     (texture_list s)).
  { eapply Forall_impl; [exact Hpass|]. intros m. apply passes_valid. }
  destruct (gl_newImage_first _ _ _ _ _ _ Hmiss Hfirst) as [-> (tx & evs & -> & Hname)].
  exists (acquired s tx (1 + Z.of_nat n) evs).
  split; [apply repeat_acquire; try assumption; lia|].
  split; [reflexivity|]. split; [reflexivity|]. split; [reflexivity|].
  apply repeat_release; try assumption; lia.
Qed.

(** Three more acquires of [a.png], then three releases. *)
Lemma acquire_release_balanced_a_png :
  exists s2,
    repeat_M 3 (gl_newImage Scenario.ext0 "a.png" 0) Scenario.s1 = Ok tt s2 /\
    texture_list s2
    = texture_list Scenario.s0 ++ [Build_glTexList (Some 0%nat) (1 + Z.of_nat 3)] /\
    heap s2 = heap Scenario.s1 /\ trace s2 = trace Scenario.s1 /\
    repeat_M 3 (gl_freeTexture Scenario.ext0 (Some 0%nat)) s2 = Ok tt Scenario.s1.
Proof.
  apply (acquire_release_balanced Scenario.ext0 "a.png" 1 0 Scenario.s0 0%nat
           Scenario.s1 3); vm_compute; first [reflexivity | discriminate].
Defined.

Lemma gl_freeTexture_miss ext s p c :
  heap s !! p = Some c ->
  Forall (fun m => ptr_eqb (tex m) p = false) (texture_list s) ->
  glTexture.name (obj c) = None ->
  gl_freeTexture ext (Some p) s
  = Ok tt (log (released s p c (texture_list s))
               (gl_checkErr_events ext (trace s ++ release_events p (obj c)))).
Proof.
  intros Hc Hl Hnm. unfold gl_freeTexture, bind at 1, get.
  rewrite (find_none _ _ Hl). unfold bind at 1, deref. rewrite Hc, Hnm.
  unfold bind at 1, ret. unfold bind.
  rewrite (gl_freeTexture_blocks_run _ _ _ Hc), gl_checkErr_run. reflexivity.
Qed.

(** X4 (the life of a texture without a name).  A texture built by
    [gl_loadImage] has no node in the list.  Its release logs no "not found"
    warning, calls [glDeleteTextures] on its handle and [free] on the
    struct alone (there are no transparency bits and no name to free),
    asks the driver for its error flag, and leaves the list as it was
    before the load. *)
Theorem gl_loadImage_release ext surface s p s1 :
  Forall (fun m => ptr_eqb (tex m) (length (heap s)) = false) (texture_list s) ->
  gl_loadImage ext surface s = Ok p s1 ->
  exists tx,
    heap s1 !! p = Some (Build_cell tx false) /\
    gl_freeTexture ext (Some p) s1
    = Ok tt (mkState (<[p := Build_cell tx true]> (heap s1)) (texture_list s)
               (gl_screen s) (gl_camera s) (gui_xoff s) (gui_yoff s)
               (trace s1
                ++ [glDeleteTextures (glTexture.texture tx); free (BTexture p)]
                ++ gl_checkErr_events ext
                     (trace s1 ++ [glDeleteTextures (glTexture.texture tx);
                                   free (BTexture p)]))).
Proof.
  intros Hfresh Hload.
  apply gl_loadImage_Ok in Hload as [-> (id & rw & rh & evs & -> & _)].
  exists (loaded_texture surface id rw rh).
  split; [apply lookup_snoc|].
  rewrite (gl_freeTexture_miss ext _ (length (heap s))
             (Build_cell (loaded_texture surface id rw rh) false)).
  - unfold log, released, release_events. cbn. rewrite <- !app_assoc. reflexivity.
  - apply lookup_snoc.
  - exact Hfresh.
  - reflexivity.
Qed.

(** The texture of the 5x5 image, loaded and released. *)
Lemma gl_loadImage_release_5x5 :
  exists tx,
    heap Scenario.s_image5 !! 0%nat = Some (Build_cell tx false) /\
    gl_freeTexture Scenario.ext0 (Some 0%nat) Scenario.s_image5
    = Ok tt (mkState (<[0%nat := Build_cell tx true]> (heap Scenario.s_image5))
               (texture_list Scenario.s0)
               (gl_screen Scenario.s0) (gl_camera Scenario.s0)
               (gui_xoff Scenario.s0) (gui_yoff Scenario.s0)
               (trace Scenario.s_image5
                ++ [glDeleteTextures (glTexture.texture tx); free (BTexture 0%nat)]
                ++ gl_checkErr_events Scenario.ext0
                     (trace Scenario.s_image5
                      ++ [glDeleteTextures (glTexture.texture tx);
                          free (BTexture 0%nat)]))).
Proof.
  apply (gl_loadImage_release Scenario.ext0 Scenario.image5 Scenario.s0 0%nat
           Scenario.s_image5).
  - constructor.
  - vm_compute. reflexivity.
Defined.

(** ** [gl_exit] *)

Lemma gl_exit_loop_run l : forall names s,
  Forall2 (named_node (heap s)) l names ->
  gl_exit_loop l s = Ok tt (log s (zip_with leak_line l names)).
Proof.
  induction l as [|n l IH]; intros names s H.
  - inversion H; subst. cbn. rewrite log_nil. reflexivity.
  - inversion H as [|n' nm l' names' (p & c & Hp & Hc & Hnm) Hrest]; subst.
    cbn [gl_exit_loop zip_with]. unfold bind at 1, deref. rewrite Hp, Hc, Hnm.
    unfold DEBUG. rewrite bind_emit. cbv beta.
    erewrite IH by exact Hrest.
    rewrite log_log. reflexivity.
Qed.

Lemma gl_exit_run s names :
  Forall2 (named_node (heap s)) (texture_list s) names ->
  gl_exit s = Ok tt (log s (leak_report (texture_list s) names)).
Proof.
  intros H. unfold gl_exit, bind at 1, get, leak_report.
  destruct (texture_list s) as [|n l] eqn:Hl.
  - cbn. rewrite log_nil. reflexivity.
  - unfold DEBUG. rewrite bind_emit. cbv beta.
    erewrite gl_exit_loop_run by exact H.
    rewrite log_log. reflexivity.
Qed.

Lemma passes_named hp path n : passes hp path n -> exists nm, named_node hp n nm.
Proof. intros (q & c & nm & Hq & Hc & Hnm & _). exists nm, q, c. auto. Qed.

Lemma gl_exit_loop_fault l1 : forall s n l2,
  Forall (fun m => exists nm, named_node (heap s) m nm) l1 ->
  tex n = None ->
  gl_exit_loop (l1 ++ n :: l2) s = Fault NullPointer.
Proof.
  induction l1 as [|m l1 IH]; intros s n l2 H Hn.
  - cbn [app gl_exit_loop]. unfold bind, deref. rewrite Hn. reflexivity.
  - inversion H as [|m' l' (nm & p & c & Hp & Hc & Hnm) Hrest]; subst.
    cbn [app gl_exit_loop]. unfold bind at 1, deref. rewrite Hp, Hc, Hnm.
    unfold DEBUG. rewrite bind_emit. cbv beta. apply IH; assumption.
Qed.

(** X5 (a failed load poisons the cache).  When [gl_newImage] of a path
    without an entry returns NULL, the node it has linked has no texture.
    From then on [gl_newImage] dereferences NULL for every path that had no
    entry before the failure, the failed path included, and so does the
    leak report of [gl_exit]. *)
Theorem gl_newImage_failed_load_poisons ext path flags s s' :
  gl_newImage_scan (heap s) path (texture_list s) = ScanMiss ->
  gl_newImage ext path flags s = Ok None s' ->
  (forall path' flags',
     gl_newImage_scan (heap s) path' (texture_list s) = ScanMiss ->
     gl_newImage ext path' flags' s' = Fault NullPointer) /\
  gl_exit s' = Fault NullPointer.
Proof.
  intros Hmiss Hnew.
  destruct (gl_newImage_failed_load _ _ _ _ _ Hmiss Hnew) as [Hheap Hlist].
  split.
  - intros path' flags' Hmiss'. unfold gl_newImage, bind, get.
    rewrite Hheap, Hlist, scan_app by (apply scan_miss_passes; exact Hmiss').
    reflexivity.
  - unfold gl_exit, bind at 1, get. rewrite Hlist.
    destruct (texture_list s ++ [Build_glTexList None 1]) as [|n0 l0] eqn:Hl.
    { destruct (texture_list s); discriminate. }
    unfold DEBUG. rewrite bind_emit. cbv beta. rewrite <- Hl.
    apply gl_exit_loop_fault; [|reflexivity].
    cbn [heap log]. rewrite Hheap.
    eapply Forall_impl; [apply scan_miss_passes; exact Hmiss|].
    intros n. apply passes_named.
Qed.

(** The missing asset [nope.png], on an empty cache. *)
Lemma gl_newImage_failed_load_poisons_nope :
  (forall path' flags',
     gl_newImage_scan (heap Scenario.s0) path' (texture_list Scenario.s0) = ScanMiss ->
     gl_newImage Scenario.ext0 path' flags' Cases.s_nope = Fault NullPointer) /\
  gl_exit Cases.s_nope = Fault NullPointer.
Proof.
  apply (gl_newImage_failed_load_poisons Scenario.ext0 "nope.png" 0 Scenario.s0
           Cases.s_nope); vm_compute; reflexivity.
Defined.

(** X6 (the leak report).  When every node of the list has a texture with
    a name, [gl_exit] logs nothing for an empty list and otherwise the
    headline and one line for each node, in the order of the list, with the
    name of its texture and its count.  It frees nothing: the heap and the
    list are the ones before. *)
Theorem gl_exit_report s names :
  Forall2 (named_node (heap s)) (texture_list s) names ->
  gl_exit s = Ok tt (log s (leak_report (texture_list s) names)) /\
  length (leak_report (texture_list s) names)
  = match texture_list s with [] => O | l => S (length l) end.
Proof.
  intros H. split; [apply gl_exit_run; exact H|].
  unfold leak_report. destruct (texture_list s) as [|n l] eqn:Hl; [reflexivity|].
  cbn [length]. f_equal. rewrite length_zip_with.
  apply Forall2_length in H. cbn [length] in *. lia.
Qed.

(** The cache that holds [a.png] and [b.png]. *)
Lemma gl_exit_report_ab :
  gl_exit Cases.s_ab
  = Ok tt (log Cases.s_ab
             (leak_report (texture_list Cases.s_ab) ["a.png"; "b.png"]%string)) /\
  length (leak_report (texture_list Cases.s_ab) ["a.png"; "b.png"]%string)
  = match texture_list Cases.s_ab with [] => O | l => S (length l) end.
Proof.
  apply (gl_exit_report Cases.s_ab ["a.png"; "b.png"]%string).
  constructor; [|constructor; [|constructor]].
  - exists 0%nat, Cases.c_a. repeat split; reflexivity.
  - exists 1%nat, Cases.c_b. repeat split; reflexivity.
Defined.

(** X7 (a leak is reported, a released texture is not).  On an empty
    cache, after [gl_newImage path] has returned a texture, [gl_exit]
    reports the path as opened 1 time; after the texture was released the
    list is empty again and [gl_exit] logs nothing. *)
Theorem gl_exit_reports_unreleased ext path flags s t s1 :
  texture_list s = [] ->
  gl_newImage ext path flags s = Ok (Some t) s1 ->
  gl_exit s1
  = Ok tt (log s1 [LOG LvlDEBUG "Texture leak detected!" [];
                   LOG LvlDEBUG "   '%s' opened %d times" [path; "1"%string]]) /\
  exists s2,
    gl_freeTexture ext (Some t) s1 = Ok tt s2 /\
    texture_list s2 = [] /\
    gl_exit s2 = Ok tt s2.
Proof.
  intros Hnil Hfirst.
  assert (Hmiss : gl_newImage_scan (heap s) path (texture_list s) = ScanMiss)
    by (rewrite Hnil; reflexivity).
  destruct (gl_newImage_first _ _ _ _ _ _ Hmiss Hfirst) as [-> (tx & evs & -> & Hname)].
  split.
  - rewrite (gl_exit_run (acquired s tx 1 evs) [path]).
    + cbn [texture_list acquired]. rewrite Hnil. reflexivity.
    + cbn [heap texture_list acquired]. rewrite Hnil. cbn [app].
      constructor; [|constructor].
      exists (length (heap s)), (Build_cell tx false).
      split; [reflexivity|]. split; [apply lookup_snoc|exact Hname].
  - eexists. split.
    + apply (gl_freeTexture_last ext s tx 1 evs); [rewrite Hnil; constructor|discriminate].
    + cbn [texture_list]. split; [exact Hnil|].
      unfold gl_exit, bind, get. cbn [texture_list]. rewrite Hnil. reflexivity.
Qed.

(** The asset [a.png], acquired on an empty cache. *)
Lemma gl_exit_reports_unreleased_a_png :
  gl_exit Scenario.s1
  = Ok tt (log Scenario.s1
             [LOG LvlDEBUG "Texture leak detected!" [];
              LOG LvlDEBUG "   '%s' opened %d times" ["a.png"%string; "1"%string]]) /\
  exists s2,
    gl_freeTexture Scenario.ext0 (Some 0%nat) Scenario.s1 = Ok tt s2 /\
    texture_list s2 = [] /\
    gl_exit s2 = Ok tt s2.
Proof.
  apply (gl_exit_reports_unreleased Scenario.ext0 "a.png" 1 Scenario.s0 0%nat Scenario.s1);
    vm_compute; reflexivity.
Defined.

(** ** Loading *)

(** X8 (a texture loaded without the transparency flag).  After the first
    [gl_newImage] of a path with [OPENGL_TEX_MAPTRANS] clear, the texture
    has no transparency bits, and [gl_isTrans] on it reads through NULL at
    every pixel.  A later [gl_newImage] of the path is a cache hit that
    ignores its flags: it returns the same texture and leaves the heap
    alone, so the bits stay absent even when the flag is set this time. *)
Theorem gl_newImage_without_map ext path flags s t s1 :
  gl_newImage_scan (heap s) path (texture_list s) = ScanMiss ->
  gl_newImage ext path flags s = Ok (Some t) s1 ->
  Z.land flags OPENGL_TEX_MAPTRANS = 0 ->
  exists tx,
    heap s1 !! t = Some (Build_cell tx false) /\
    glTexture.trans tx = None /\
    (forall x y, gl_isTrans tx x y = None) /\
    forall flags', exists s2,
      gl_newImage ext path flags' s1 = Ok (Some t) s2 /\ heap s2 = heap s1.
Proof.
  intros Hmiss H Hflags.
  pose proof (scan_miss_passes _ _ _ Hmiss) as Hpass.
  unfold gl_newImage in H. unfold bind at 1, get at 1 in H. rewrite Hmiss in H.
  apply bind_Ok in H as (r & s' & Hload & H).
  unfold bind, get, set_texture_list, ret in H. cbn in H.
  injection H as -> <-.
  apply gl_loadNewImage_Some in Hload
    as [-> (buf & temp & surface0 & id & rw & rh & evs & _ & _ & _ & -> & _)].
  rewrite Hflags in *. cbn [Z.eqb negb].
  eexists. cbn [heap alloc_state].
  split; [apply lookup_snoc|]. split; [reflexivity|]. split.
  - intros x y. unfold gl_isTrans.
    cbn [named_texture glTexture.set_name glTexture.set_trans glTexture.trans
         glTexture.w loaded_texture].
    destruct (CDouble.to_int _); reflexivity.
  - intros flags'.
    exists (acquired s (named_texture path None (SDL_VFlipSurface surface0) id rw rh)
              (CInt.add 1 1) evs).
    split; [|reflexivity].
    apply (gl_newImage_again ext path flags' s _ 1 evs Hpass). reflexivity.
Qed.

(** The asset [a.png], acquired with no flag. *)
Lemma gl_newImage_without_map_a_png :
  exists tx,
    heap Cases.s_plain !! 0%nat = Some (Build_cell tx false) /\
    glTexture.trans tx = None /\
    (forall x y, gl_isTrans tx x y = None) /\
    forall flags', exists s2,
      gl_newImage Scenario.ext0 "a.png" flags' Cases.s_plain = Ok (Some 0%nat) s2 /\
      heap s2 = heap Cases.s_plain.
Proof.
  apply (gl_newImage_without_map Scenario.ext0 "a.png" 0 Scenario.s0 0%nat Cases.s_plain);
    vm_compute; reflexivity.
Defined.

Lemma gl_prepareSurface_Some ext surface s out s1 :
  gl_prepareSurface ext surface s = Ok (Some out) s1 -> s1 = log s [SDL_FreeSurface].
Proof.
  unfold gl_prepareSurface, gl_pot_M, bind, ret, fail, WARN, emit.
  destruct (gl_pot (SDL_Surface.w surface)); [|discriminate].
  destruct (gl_pot (SDL_Surface.h surface)); [|discriminate].
  destruct (SDL_CreateRGBSurface _ _ _ _ _) as [temp|]; cbn; [|discriminate].
  destruct (SDL_FillRect _ _ _) as [temp'|]; cbn; [|discriminate].
  intros [= _ <-]. reflexivity.
Qed.

Lemma gl_loadSurface_run ext surface s out s1 :
  gl_prepareSurface ext surface s = Ok (Some out) s1 ->
  let id := driver_glGenTextures ext (trace s ++ [SDL_FreeSurface]) in
  let evs := SDL_FreeSurface :: upload_events (gl_screen s) id out in
  gl_loadSurface ext surface s
  = Ok (id, SDL_Surface.w out, SDL_Surface.h out)
       (log s (evs ++ gl_checkErr_events ext (trace s ++ evs))).
Proof.
  intros Hprep id evs. pose proof (gl_prepareSurface_Some _ _ _ _ _ Hprep) as ->.
  unfold gl_loadSurface, bind at 1. rewrite Hprep.
  subst evs id. unfold upload_events, texture_filter.
  unfold bind, get. unfold emit. cbn.
  destruct (CDouble.eqb _ _); cbn; rewrite gl_checkErr_run; unfold log; cbn;
    repeat first [rewrite <- !app_assoc | progress cbn [app]]; reflexivity.
Qed.

(** X9 (the struct agrees with the upload).  When [gl_loadImage] returns,
    the trace has grown by the release of the source surface, the upload
    of the prepared surface [out] and the error check, in this order.  The
    handle in the struct is the one [glGenTextures] produced and
    [glBindTexture] bound, the physical size in the struct is the size given
    to [glTexImage2D], both filters are [GL_LINEAR] when the screen is
    scaled and [GL_NEAREST] when it is not, both wraps are [GL_REPEAT], and
    the texture list is untouched. *)
Theorem gl_loadImage_upload ext surface s p s' :
  gl_loadImage ext surface s = Ok p s' ->
  exists t out,
    heap s' !! p = Some (Build_cell t false) /\
    let id := driver_glGenTextures ext (trace s ++ [SDL_FreeSurface]) in
    let evs := SDL_FreeSurface :: upload_events (gl_screen s) id out in
    glTexture.texture t = id /\
    glTexture.rw t = CDouble.of_int (SDL_Surface.w out) /\
    glTexture.rh t = CDouble.of_int (SDL_Surface.h out) /\
    trace s' = trace s ++ evs ++ gl_checkErr_events ext (trace s ++ evs) /\
    texture_list s' = texture_list s.
Proof.
  intros H. unfold gl_loadImage in H.
  unfold bind at 1 in H. unfold malloc_glTexture in H.
  unfold bind at 1 in H. unfold store at 1 in H. cbn [heap] in H.
  rewrite lookup_snoc in H. unfold set_heap in H. cbn in H.
  rewrite insert_snoc in H.
  apply bind_Ok in H as ([[id rw] rh] & s1 & Hload & H).
  unfold gl_loadSurface in Hload. apply bind_Ok in Hload as (prep & s0 & Hprep & Hload').
  destruct prep as [out|]; [|discriminate].
  match type of Hprep with gl_prepareSurface ext surface ?st = _ =>
    pose proof (gl_loadSurface_run ext surface st out s0 Hprep) as Hrun end.
  cbv zeta in Hrun. unfold gl_loadSurface, bind at 1 in Hrun. rewrite Hprep in Hrun.
  rewrite Hrun in Hload'. injection Hload' as <- <- <- <-.
  unfold bind, store, set_heap, ret in H. cbn in H.
  rewrite lookup_snoc in H. cbn in H. rewrite insert_snoc in H.
  injection H as <- <-.
  eexists _, out. split; [apply lookup_snoc|]. cbn.
  repeat split.
Qed.

(** The 5x5 image. *)
Lemma gl_loadImage_upload_5x5 :
  exists t out,
    heap Scenario.s_image5 !! 0%nat = Some (Build_cell t false) /\
    let id := driver_glGenTextures Scenario.ext0 (trace Scenario.s0 ++ [SDL_FreeSurface]) in
    let evs := SDL_FreeSurface :: upload_events (gl_screen Scenario.s0) id out in
    glTexture.texture t = id /\
    glTexture.rw t = CDouble.of_int (SDL_Surface.w out) /\
    glTexture.rh t = CDouble.of_int (SDL_Surface.h out) /\
    trace Scenario.s_image5
    = trace Scenario.s0 ++ evs
      ++ gl_checkErr_events Scenario.ext0 (trace Scenario.s0 ++ evs) /\
    texture_list Scenario.s_image5 = texture_list Scenario.s0.
Proof.
  apply (gl_loadImage_upload Scenario.ext0 Scenario.image5 Scenario.s0 0%nat
           Scenario.s_image5).
  vm_compute. reflexivity.
Defined.

(** X10 (bounds of [gl_pot]).  For every [n] up to 2^30, [gl_pot n]
    returns a [p] that is 1 when [n] is at most 1 (zero and the negative
    numbers included) and otherwise lies in [n <= p < 2n]; [p] is a fixed
    point of [gl_pot], and [gl_pot] is monotone: a larger argument never
    gives a smaller result. *)
Theorem gl_pot_bounds n :
  n <= 2 ^ 30 ->
  exists p,
    gl_pot n = Some p /\
    (n <= 1 -> p = 1) /\
    (1 <= n -> n <= p < 2 * n) /\
    gl_pot p = Some p /\
    (forall m q, n <= m -> gl_pot m = Some q -> p <= q).
Proof.
  intros Hn. unfold gl_pot at 1.
  destruct (gl_pot_loop_spec 32 0 n) as (k & Hk & Heq & Hle & Hmin); try lia.
  exists (2 ^ k). split; [exact Heq|].
  assert (Hpos : 0 < 2 ^ (k - 1) \/ k = 0).
  { destruct (Z.eq_dec k 0); [auto|left; apply Z.pow_pos_nonneg; lia]. }
  assert (Hdbl : k = 0 \/ 2 ^ k = 2 * 2 ^ (k - 1)).
  { destruct (Z.eq_dec k 0); [auto|right].
    rewrite <- Z.pow_succ_r by lia. f_equal. lia. }
  split; [|split; [|split]].
  - intros Hn1. destruct Hmin as [->|Hmin]; [reflexivity|].
    destruct Hpos as [Hpos| ->]; [lia|reflexivity].
  - intros Hn1. split; [exact Hle|].
    destruct Hmin as [->|Hmin]; [cbn; lia|]. destruct Hdbl as [->|Hd]; [cbn; lia|]. lia.
  - assert (Hp30 : 2 ^ k <= 2 ^ 30) by (apply Z.pow_le_mono_r; lia).
    destruct (gl_pot_smallest (2 ^ k) Hp30) as (p' & Hp' & k' & Hk' & -> & Hge & Hleast).
    rewrite Hp'. f_equal. specialize (Hleast k ltac:(lia) ltac:(lia)). lia.
  - intros m q Hm Hq. apply gl_pot_spec in Hq as (j & Hj & -> & Hmj & _).
    destruct Hmin as [->|Hmin].
    + change (2 ^ 0) with 1. pose proof (Z.pow_pos_nonneg 2 j). lia.
    + apply Z.pow_le_mono_r; [lia|].
      destruct (Z.le_gt_cases k j) as [|Hjk]; [assumption|].
      assert (2 ^ j <= 2 ^ (k - 1)) by (apply Z.pow_le_mono_r; lia). lia.
Qed.

(** The argument 5. *)
Lemma gl_pot_bounds_5 :
  exists p,
    gl_pot 5 = Some p /\
    (5 <= 1 -> p = 1) /\
    (1 <= 5 -> 5 <= p < 2 * 5) /\
    gl_pot p = Some p /\
    (forall m q, 5 <= m -> gl_pot m = Some q -> p <= q).
Proof.
  apply (gl_pot_bounds 5). vm_compute. discriminate.
Defined.

(** X11 ([gl_pot] above 2^30).  For an argument above 2^30 the loop of
    [gl_pot] never exits, whatever the number of rounds: [i] reaches 2^30,
    the next shift leaves the positive range and the one after gives 0,
    where the loop stays.  So for a surface wider or higher than 2^30
    neither [gl_prepareSurface] nor [gl_loadImage] returns. *)
Theorem gl_pot_overflow ext surface s :
  2 ^ 30 < SDL_Surface.w surface \/ 2 ^ 30 < SDL_Surface.h surface ->
  (forall fuel n, 2 ^ 30 < n -> gl_pot_loop fuel 1 n = None) /\
  gl_prepareSurface ext surface s = Fault Diverges /\
  gl_loadImage ext surface s = Fault Diverges.
Proof.
  intros Hbig.
  assert (Hprep : forall s', gl_prepareSurface ext surface s' = Fault Diverges).
  { intros s'. unfold gl_prepareSurface, gl_pot_M, bind, fail.
    destruct (gl_pot (SDL_Surface.w surface)) as [pw|] eqn:Hw; [|reflexivity].
    destruct (gl_pot (SDL_Surface.h surface)) as [ph|] eqn:Hh; [|reflexivity].
    exfalso. unfold gl_pot in Hw, Hh.
    destruct Hbig as [Hb|Hb]; [rewrite gl_pot_diverges in Hw|rewrite gl_pot_diverges in Hh];
      try discriminate; exact Hb. }
  split; [intros fuel n; apply gl_pot_diverges|]. split; [apply Hprep|].
  unfold gl_loadImage. unfold bind at 1. unfold malloc_glTexture.
  unfold bind at 1. unfold store at 1. cbn [heap].
  rewrite lookup_snoc. unfold set_heap. cbn.
  unfold bind at 1. unfold gl_loadSurface. unfold bind at 1.
  rewrite Hprep. reflexivity.
Qed.

(** A surface of width 2^30 + 1. *)
Lemma gl_pot_overflow_wide :
  (forall fuel n, 2 ^ 30 < n -> gl_pot_loop fuel 1 n = None) /\
  gl_prepareSurface Scenario.ext0 Cases.wide Scenario.s0 = Fault Diverges /\
  gl_loadImage Scenario.ext0 Cases.wide Scenario.s0 = Fault Diverges.
Proof.
  apply (gl_pot_overflow Scenario.ext0 Cases.wide Scenario.s0).
  left. vm_compute. reflexivity.
Defined.

(** ** The vertical flip *)

Lemma row_length m off n :
  0 <= off -> 0 <= n -> off + n <= Z.of_nat (length m) ->
  length (row m off n) = Z.to_nat n.
Proof.
  intros Hoff Hn Hle. unfold row. rewrite length_take, length_drop. lia.
Qed.

Lemma row_lookup m off n j :
  0 <= off -> 0 <= j < n ->
  row m off n !! Z.to_nat j = m !! Z.to_nat (off + j).
Proof.
  intros Hoff Hj. unfold row.
  rewrite lookup_take_lt by lia. rewrite lookup_drop. f_equal. lia.
Qed.

Lemma memcpy_length m dst src :
  0 <= dst -> dst + Z.of_nat (length src) <= Z.of_nat (length m) ->
  length (memcpy m dst src) = length m.
Proof.
  intros Hdst Hle. unfold memcpy.
  rewrite !length_app, length_take, length_drop. lia.
Qed.

Lemma memcpy_lookup m dst src k :
  0 <= dst -> 0 <= k -> dst + Z.of_nat (length src) <= Z.of_nat (length m) ->
  memcpy m dst src !! Z.to_nat k
  = if (dst <=? k) && (k <? dst + Z.of_nat (length src))
    then src !! Z.to_nat (k - dst) else m !! Z.to_nat k.
Proof.
  intros Hdst Hk Hle. unfold memcpy.
  destruct (Z.leb_spec dst k) as [H1|H1]; cbn [andb].
  - rewrite lookup_app_r by (rewrite length_take; lia).
    rewrite length_take.
    replace (Z.to_nat k - Z.to_nat dst `min` length m)%nat with (Z.to_nat (k - dst)) by lia.
    destruct (Z.ltb_spec k (dst + Z.of_nat (length src))) as [H2|H2].
    + apply lookup_app_l. lia.
    + rewrite lookup_app_r by lia. rewrite lookup_drop. f_equal. lia.
  - rewrite lookup_app_l by (rewrite length_take; lia).
    apply lookup_take_lt. lia.
Qed.

(** The loop of [SDL_VFlipSurface]: after [i] rounds the rows below [i]
    and above [h - 1 - i] have changed places, the rows between are as
    they were. *)
Lemma SDL_VFlipSurface_loop s :
  rows_of_pitch s ->
  let h := SDL_Surface.h s in
  let pitch := SDL_Surface.pitch s in
  let px := SDL_Surface.pixels (SDL_VFlipSurface s) in
  length px = length (SDL_Surface.pixels s) /\
  forall y x, 0 <= y < h -> 0 <= x < pitch ->
    px !! Z.to_nat (y * pitch + x)
    = SDL_Surface.pixels s !! Z.to_nat ((h - 1 - y) * pitch + x).
Proof.
  intros (Hh & Hpitch & Hlen) h pitch. fold h pitch in Hh, Hpitch, Hlen.
  set (P := fun (i : Z) (st : list Z * Z * Z) =>
    let '(px, rowhi, rowlo) := st in
    length px = length (SDL_Surface.pixels s) /\
    rowhi = i * pitch /\ rowlo = (h - 1 - i) * pitch /\
    forall y x, 0 <= y < h -> 0 <= x < pitch ->
      px !! Z.to_nat (y * pitch + x)
      = SDL_Surface.pixels s
          !! Z.to_nat ((if (y <? i) || (h - 1 - i <? y) then h - 1 - y else y) * pitch + x)).
  assert (Hq : Z.quot h 2 = h / 2) by (apply Z.quot_div_nonneg; lia).
  assert (Hhalf : 0 <= h / 2 /\ 2 * (h / 2) <= h /\ h < 2 * (h / 2) + 2).
  { pose proof (Z.div_mod h 2 ltac:(lia)). pose proof (Z.mod_pos_bound h 2 ltac:(lia)).
    split; [apply Z.div_pos; lia|lia]. }
  assert (Hfinal : P (h / 2)
    (for_loop (Z.quot h 2)
       (fun _ '(px, rowhi, rowlo) =>
          let tmpbuf := row px rowhi pitch in
          let px := memcpy px rowhi (row px rowlo pitch) in
          let px := memcpy px rowlo tmpbuf in
          (px, rowhi + pitch, rowlo - pitch))
       (SDL_Surface.pixels s, 0, 0 + h * pitch - pitch))).
  { rewrite Hq. apply (for_loop_ind P); [lia| |].
    - unfold P. split; [reflexivity|]. split; [lia|]. split; [lia|].
      intros y x Hy Hx.
      destruct (Z.ltb_spec y 0); [lia|]. destruct (Z.ltb_spec (h - 1 - 0) y); [lia|].
      reflexivity.
    - intros i [[px rowhi] rowlo] Hi (Hlen' & -> & -> & Hrows). unfold P.
      assert (Hi' : i < h - 1 - i) by lia.
      assert (Hb1 : 0 <= i * pitch) by nia.
      assert (Hb2 : i * pitch + pitch <= (h - 1 - i) * pitch) by nia.
      assert (Hb3 : (h - 1 - i) * pitch + pitch <= h * pitch) by nia.
      assert (Hr1 : length (row px (i * pitch) pitch) = Z.to_nat pitch)
        by (apply row_length; lia).
      assert (Hr2 : length (row px ((h - 1 - i) * pitch) pitch) = Z.to_nat pitch)
        by (apply row_length; lia).
      assert (Hm1 : length (memcpy px (i * pitch) (row px ((h - 1 - i) * pitch) pitch))
                    = length px) by (apply memcpy_length; lia).
      split; [rewrite memcpy_length; lia|]. split; [lia|]. split; [lia|].
      intros y x Hy Hx.
      assert (Hk : 0 <= y * pitch + x) by nia.
      rewrite memcpy_lookup by lia. rewrite Hr1.
      destruct (Z.eq_dec y (h - 1 - i)) as [->|Hne1].
      + destruct (Z.leb_spec ((h - 1 - i) * pitch) ((h - 1 - i) * pitch + x)); [|lia].
        destruct (Z.ltb_spec ((h - 1 - i) * pitch + x)
                    ((h - 1 - i) * pitch + Z.of_nat (Z.to_nat pitch))); [|lia].
        cbn [andb].
        replace ((h - 1 - i) * pitch + x - (h - 1 - i) * pitch) with x by lia.
        rewrite row_lookup by lia. rewrite Hrows by lia.
        destruct (Z.ltb_spec i i); [lia|]. destruct (Z.ltb_spec (h - 1 - i) i); [lia|].
        cbn [orb].
        destruct (Z.ltb_spec (h - 1 - i) (i + 1)); [lia|].
        destruct (Z.ltb_spec (h - 1 - (i + 1)) (h - 1 - i)); [|lia].
        cbn [orb]. do 2 f_equal. lia.
      + assert (Hout : (((h - 1 - i) * pitch <=? y * pitch + x)
                        && (y * pitch + x <? (h - 1 - i) * pitch + Z.of_nat (Z.to_nat pitch)))
                       = false).
        { destruct (Z.leb_spec ((h - 1 - i) * pitch) (y * pitch + x)); [|reflexivity].
          destruct (Z.ltb_spec (y * pitch + x)
                      ((h - 1 - i) * pitch + Z.of_nat (Z.to_nat pitch))); [|reflexivity].
          exfalso. apply Hne1. nia. }
        rewrite Hout. rewrite memcpy_lookup by lia. rewrite Hr2.
        destruct (Z.eq_dec y i) as [->|Hne2].
        * destruct (Z.leb_spec (i * pitch) (i * pitch + x)); [|lia].
          destruct (Z.ltb_spec (i * pitch + x) (i * pitch + Z.of_nat (Z.to_nat pitch))); [|lia].
          cbn [andb]. replace (i * pitch + x - i * pitch) with x by lia.
          rewrite row_lookup by lia. rewrite Hrows by lia.
          destruct (Z.ltb_spec (h - 1 - i) i); [lia|].
          destruct (Z.ltb_spec (h - 1 - i) (h - 1 - i)); [lia|]. cbn [orb].
          destruct (Z.ltb_spec i (i + 1)); [|lia]. cbn [orb]. reflexivity.
        * assert (Hout2 : ((i * pitch <=? y * pitch + x)
                           && (y * pitch + x <? i * pitch + Z.of_nat (Z.to_nat pitch)))
                          = false).
          { destruct (Z.leb_spec (i * pitch) (y * pitch + x)); [|reflexivity].
            destruct (Z.ltb_spec (y * pitch + x)
                        (i * pitch + Z.of_nat (Z.to_nat pitch))); [|reflexivity].
            exfalso. apply Hne2. nia. }
          rewrite Hout2. rewrite Hrows by lia.
          replace ((y <? i + 1) || (h - 1 - (i + 1) <? y))
            with ((y <? i) || (h - 1 - i <? y)); [reflexivity|].
          destruct (Z.ltb_spec y i), (Z.ltb_spec (h - 1 - i) y),
            (Z.ltb_spec y (i + 1)), (Z.ltb_spec (h - 1 - (i + 1)) y);
            try reflexivity; lia. }
  unfold SDL_VFlipSurface. fold h pitch.
  destruct (for_loop _ _ _) as [[px rowhi] rowlo].
  destruct Hfinal as (Hlen' & _ & _ & Hrows). cbn [SDL_Surface.set_pixels SDL_Surface.pixels].
  split; [exact Hlen'|].
  intros y x Hy Hx. rewrite Hrows by lia.
  destruct (Z.ltb_spec y (h / 2)), (Z.ltb_spec (h - 1 - h / 2) y); cbn [orb];
    try reflexivity.
  replace (h - 1 - y) with y by lia. reflexivity.
Qed.

Lemma SDL_VFlipSurface_fields s :
  SDL_VFlipSurface s = SDL_Surface.set_pixels (SDL_Surface.pixels (SDL_VFlipSurface s)) s.
Proof. unfold SDL_VFlipSurface. destruct (for_loop _ _ _) as [[px ?] ?]. reflexivity. Qed.

Lemma SDL_VFlipSurface_rows_of_pitch s :
  rows_of_pitch s -> rows_of_pitch (SDL_VFlipSurface s).
Proof.
  intros Hs. destruct (SDL_VFlipSurface_loop s Hs) as [Hlen _].
  destruct Hs as (Hh & Hp & Hl). rewrite SDL_VFlipSurface_fields.
  unfold rows_of_pitch. cbn [SDL_Surface.set_pixels SDL_Surface.h SDL_Surface.pitch
                              SDL_Surface.pixels].
  rewrite Hlen. auto.
Qed.

Lemma rows_of_pitch_image5 : rows_of_pitch Scenario.image5.
Proof. unfold rows_of_pitch. cbn. lia. Qed.

(** X12 (the flip reverses the rows).  On a surface whose buffer holds
    [h] rows of [pitch] bytes, [SDL_VFlipSurface] keeps the width, the
    height, the pitch and the length of the buffer, and row [y] of the
    result is row [h - 1 - y] of the surface, for every row; with an odd
    height the middle row stays where it is. *)
Theorem SDL_VFlipSurface_rows s :
  rows_of_pitch s ->
  let h := SDL_Surface.h s in
  let pitch := SDL_Surface.pitch s in
  let flipped := SDL_VFlipSurface s in
  SDL_Surface.w flipped = SDL_Surface.w s /\
  SDL_Surface.h flipped = h /\
  SDL_Surface.pitch flipped = pitch /\
  length (SDL_Surface.pixels flipped) = length (SDL_Surface.pixels s) /\
  forall y, 0 <= y < h ->
    row (SDL_Surface.pixels flipped) (y * pitch) pitch
    = row (SDL_Surface.pixels s) ((h - 1 - y) * pitch) pitch.
Proof.
  intros Hs h pitch flipped.
  destruct (SDL_VFlipSurface_loop s Hs) as [Hlen Hrows].
  fold h pitch flipped in Hlen, Hrows.
  destruct Hs as (Hh & Hp & Hl). fold h pitch in Hh, Hp, Hl.
  unfold flipped at 1 2 3. rewrite SDL_VFlipSurface_fields.
  split; [reflexivity|]. split; [reflexivity|]. split; [reflexivity|].
  split; [exact Hlen|].
  intros y Hy. apply list_eq. intros j.
  assert (Hb1 : 0 <= y * pitch) by nia.
  assert (Hb2 : y * pitch + pitch <= h * pitch) by nia.
  assert (Hb3 : 0 <= (h - 1 - y) * pitch) by nia.
  assert (Hb4 : (h - 1 - y) * pitch + pitch <= h * pitch) by nia.
  destruct (Nat.lt_ge_cases j (Z.to_nat pitch)) as [Hj|Hj].
  - rewrite <- (Nat2Z.id j). rewrite !row_lookup by lia. apply Hrows; lia.
  - rewrite !lookup_ge_None_2; [reflexivity| |]; rewrite row_length; lia.
Qed.

(** The 5x5 image: its first row becomes its last. *)
Lemma SDL_VFlipSurface_rows_5x5 :
  row (SDL_Surface.pixels (SDL_VFlipSurface Scenario.image5)) (4 * 5) 5
  = row (SDL_Surface.pixels Scenario.image5) ((5 - 1 - 4) * 5) 5.
Proof.
  destruct (SDL_VFlipSurface_rows Scenario.image5 rows_of_pitch_image5)
    as (_ & _ & _ & _ & Hrows).
  apply (Hrows 4). cbn. lia.
Defined.

(** X13 (the flip is its own inverse).  On a surface whose buffer holds
    [h] rows of [pitch] bytes, two calls of [SDL_VFlipSurface] give back the
    surface, pixel for pixel. *)
Theorem SDL_VFlipSurface_involutive s :
  rows_of_pitch s -> SDL_VFlipSurface (SDL_VFlipSurface s) = s.
Proof.
  intros Hs.
  pose proof (SDL_VFlipSurface_rows_of_pitch s Hs) as Hs'.
  destruct (SDL_VFlipSurface_loop s Hs) as [Hlen Hrows].
  destruct (SDL_VFlipSurface_loop _ Hs') as [Hlen' Hrows'].
  rewrite (SDL_VFlipSurface_fields (SDL_VFlipSurface s)).
  set (px2 := SDL_Surface.pixels (SDL_VFlipSurface (SDL_VFlipSurface s))) in *.
  assert (Hh' : SDL_Surface.h (SDL_VFlipSurface s) = SDL_Surface.h s)
    by (rewrite SDL_VFlipSurface_fields; reflexivity).
  assert (Hp' : SDL_Surface.pitch (SDL_VFlipSurface s) = SDL_Surface.pitch s)
    by (rewrite SDL_VFlipSurface_fields; reflexivity).
  rewrite Hh', Hp' in Hrows'.
  destruct Hs as (Hh & Hp & Hl).
  set (h := SDL_Surface.h s) in *. set (pitch := SDL_Surface.pitch s) in *.
  assert (Hpx : px2 = SDL_Surface.pixels s).
  { apply list_eq. intros k.
    destruct (Nat.lt_ge_cases k (length (SDL_Surface.pixels s))) as [Hk|Hk].
    - assert (Hpos : 0 < pitch) by nia.
      pose proof (Z.div_mod (Z.of_nat k) pitch ltac:(lia)) as Hdm.
      pose proof (Z.mod_pos_bound (Z.of_nat k) pitch Hpos) as Hm.
      assert (Hy : 0 <= Z.of_nat k / pitch < h).
      { split; [apply Z.div_pos; lia|]. apply Z.div_lt_upper_bound; [lia|]. nia. }
      set (y := Z.of_nat k / pitch) in *. set (x := Z.of_nat k mod pitch) in *.
      replace k with (Z.to_nat (y * pitch + x)) by lia.
      rewrite Hrows' by lia. rewrite Hrows by lia. do 2 f_equal. lia.
    - rewrite !lookup_ge_None_2; [reflexivity|lia|lia]. }
  rewrite Hpx. rewrite SDL_VFlipSurface_fields.
  destruct s; reflexivity.
Qed.

(** The 5x5 image. *)
Lemma SDL_VFlipSurface_involutive_5x5 :
  SDL_VFlipSurface (SDL_VFlipSurface Scenario.image5) = Scenario.image5.
Proof. exact (SDL_VFlipSurface_involutive Scenario.image5 rows_of_pitch_image5). Defined.

Lemma load8_flip s y j :
  rows_of_pitch s ->
  0 <= y < SDL_Surface.h s -> 0 <= j < SDL_Surface.pitch s ->
  load8 (SDL_Surface.pixels (SDL_VFlipSurface s)) (y * SDL_Surface.pitch s + j)
  = load8 (SDL_Surface.pixels s) ((SDL_Surface.h s - 1 - y) * SDL_Surface.pitch s + j).
Proof.
  intros Hs Hy Hj. destruct (SDL_VFlipSurface_loop s Hs) as [_ Hrows].
  unfold load8.
  destruct (Z.ltb_spec (y * SDL_Surface.pitch s + j) 0); [nia|].
  destruct (Z.ltb_spec ((SDL_Surface.h s - 1 - y) * SDL_Surface.pitch s + j) 0); [nia|].
  rewrite Hrows by lia. reflexivity.
Qed.

(** X14 (the transparency map is that of the flipped image).
    [gl_loadNewImage] flips the surface before it maps its transparency.
    On the flipped surface, [SDL_IsTrans] at [(x, y)] is [SDL_IsTrans] of
    the surface as decoded at [(x, h - 1 - y)], for every pixel whose bytes
    lie inside its row. *)
Theorem SDL_IsTrans_flip be s x y :
  rows_of_pitch s ->
  SDL_Surface.h s * SDL_Surface.pitch s <= CInt.INT_MAX ->
  0 <= y < SDL_Surface.h s ->
  0 <= x -> 0 < SDL_Surface.BytesPerPixel s ->
  x * SDL_Surface.BytesPerPixel s + SDL_Surface.BytesPerPixel s <= SDL_Surface.pitch s ->
  SDL_IsTrans be (SDL_VFlipSurface s) x y
  = SDL_IsTrans be s x (SDL_Surface.h s - 1 - y).
Proof.
  intros Hs Hmax Hy Hx Hbpp Hrow.
  pose proof (load8_flip s y) as Hload. specialize (fun j => Hload j Hs Hy).
  destruct Hs as (Hh & Hp & Hl).
  unfold SDL_IsTrans, pixelcolour. rewrite SDL_VFlipSurface_fields.
  cbn [SDL_Surface.set_pixels SDL_Surface.BytesPerPixel SDL_Surface.pitch
       SDL_Surface.colorkey SDL_Surface.pixels].
  set (h := SDL_Surface.h s) in *. set (pitch := SDL_Surface.pitch s) in *.
  set (bpp := SDL_Surface.BytesPerPixel s) in *.
  assert (Hmaxv : CInt.INT_MAX = 2147483647) by reflexivity.
  assert (Hminv : CInt.INT_MIN = -2147483648) by reflexivity.
  assert (Hpm : pitch <= CInt.INT_MAX) by nia.
  unfold CInt.mul.
  rewrite (wrap32_small (y * pitch)) by nia.
  rewrite (wrap32_small ((h - 1 - y) * pitch)) by nia.
  rewrite (wrap32_small (x * bpp)) by nia.
  assert (Hb : forall k, 0 <= k < bpp ->
    load8 (SDL_Surface.pixels (SDL_VFlipSurface s)) (y * pitch + x * bpp + k)
    = load8 (SDL_Surface.pixels s) ((h - 1 - y) * pitch + x * bpp + k)).
  { intros k Hk. rewrite <- !Z.add_assoc. apply Hload. nia. }
  destruct (Z.eqb_spec bpp 1) as [H1|H1]; [rewrite Hb by lia; reflexivity|].
  destruct (Z.eqb_spec bpp 2) as [H2|H2]; [rewrite !Hb by lia; reflexivity|].
  destruct (Z.eqb_spec bpp 3) as [H3|H3]; [rewrite !Hb by lia; reflexivity|].
  destruct (Z.eqb_spec bpp 4) as [H4|H4]; [rewrite !Hb by lia; reflexivity|].
  reflexivity.
Qed.

(** The 5x5 image, the pixel (2, 0). *)
Lemma SDL_IsTrans_flip_5x5 :
  SDL_IsTrans false (SDL_VFlipSurface Scenario.image5) 2 0
  = SDL_IsTrans false Scenario.image5 2 (SDL_Surface.h Scenario.image5 - 1 - 0).
Proof.
  apply (SDL_IsTrans_flip false Scenario.image5 2 0 rows_of_pitch_image5);
    cbn; first [lia | discriminate].
Defined.

(** ** The transparency map *)

(** X15 (size and padding of the transparency map).  For a surface of
    [w] by [h] pixels the map of [SDL_MapTrans] has [(w*h + 7) / 8] bytes,
    the least number that holds one bit for each pixel, and every bit from
    [w*h] on, the padding of the last byte included, is clear. *)
Theorem SDL_MapTrans_size be s :
  0 < SDL_Surface.w s -> 0 < SDL_Surface.h s ->
  SDL_Surface.w s * SDL_Surface.h s <= CInt.INT_MAX ->
  let n := SDL_Surface.w s * SDL_Surface.h s in
  Z.of_nat (length (SDL_MapTrans be s)) = (n + 7) / 8 /\
  forall k, n <= k -> get_bit (SDL_MapTrans be s) k = false.
Proof.
  intros Hw Hh Hmax n.
  destruct (SDL_MapTrans_bits be s Hw Hh Hmax) as [Hlen Hbits].
  fold n in Hlen, Hbits. split.
  - rewrite Hlen. assert (0 < n) by (unfold n; nia).
    destruct (Z.eqb_spec (n mod 8) 0); Z.to_euclidean_division_equations; lia.
  - intros k Hk. rewrite Hbits by (unfold n in *; nia).
    destruct (Z.ltb_spec k n); [lia|reflexivity].
Qed.

(** The 5x5 image: 25 bits in 4 bytes. *)
Lemma SDL_MapTrans_size_5x5 :
  Z.of_nat (length (SDL_MapTrans false Scenario.image5)) = 4 /\
  forall k, 25 <= k -> get_bit (SDL_MapTrans false Scenario.image5) k = false.
Proof.
  apply (SDL_MapTrans_size false Scenario.image5);
    try (vm_compute; reflexivity); vm_compute; discriminate.
Defined.

(** ** Sprites and blits *)

Lemma zero_div_to_int y v :
  CDouble.to_int (CDouble.zero / y)%D = Some v -> v = 0.
Proof.
  unfold CDouble.div, SFdiv, CDouble.zero.
  destruct y as [s|s| |s m e]; intros H; vm_compute in H; congruence.
Qed.

(** X16 (a negative offset heading).  On a sheet of [cols] by [rows]
    cells, whenever the heading plus half a shard is below zero,
    [gl_getSpriteFromDir] gives the cell (0, 0): the heading is not wrapped
    into a full turn but replaced by 0. *)
Theorem gl_getSpriteFromDir_negative t dir cols rows s0 :
  CDouble.to_int (glTexture.sx t) = Some cols ->
  CDouble.to_int (glTexture.sy t) = Some rows ->
  0 < cols -> 0 < rows -> cols * rows <= CInt.INT_MAX ->
  let shard := (CDouble.two * CDouble.M_PI / (glTexture.sy t * glTexture.sx t))%D in
  ((dir + shard / CDouble.two <? CDouble.zero)%D = true) ->
  CDouble.to_int (CDouble.zero / shard)%D = Some s0 ->
  gl_getSpriteFromDir t dir = Some (0, 0).
Proof.
  intros Hsx Hsy Hcols Hrows Hmax shard Hneg Hs0.
  assert (Hmaxv : CInt.INT_MAX = 2147483647) by reflexivity.
  assert (Hminv : CInt.INT_MIN = -2147483648) by reflexivity.
  pose proof (zero_div_to_int _ _ Hs0) as ->.
  unfold gl_getSpriteFromDir. fold shard. rewrite Hneg, Hs0. cbn [mbind option_bind].
  rewrite Hsx. cbn [mbind option_bind]. rewrite Hsy. cbn [mbind option_bind].
  assert (Hmul : CInt.mul rows cols = cols * rows).
  { unfold CInt.mul. rewrite wrap32_small by nia. lia. }
  rewrite Hmul.
  assert (Hsub : CInt.sub (cols * rows) 1 = cols * rows - 1).
  { unfold CInt.sub. apply wrap32_small. nia. }
  rewrite Hsub. destruct (Z.gtb_spec 0 (cols * rows - 1)); [nia|].
  cbn [mbind option_bind]. destruct (Z.eqb_spec cols 0); [lia|].
  unfold CInt.rem, CInt.div. rewrite Z.rem_0_l, Z.quot_0_l by lia. reflexivity.
Qed.

(** The 4x2 sheet, heading -3. *)
Lemma gl_getSpriteFromDir_negative_sheet :
  gl_getSpriteFromDir Scenario.sheet (CDouble.of_int (-3)) = Some (0, 0).
Proof.
  apply (gl_getSpriteFromDir_negative Scenario.sheet (CDouble.of_int (-3)) 4 2 0);
    try (vm_compute; reflexivity); vm_compute; discriminate.
Defined.

Lemma gl_blitScale_run ext texture bx by_ bw bh c s :
  let x := (bx - CDouble.of_int (glInfo.w (gl_screen s)) / CDouble.two)%D in
  let y := (by_ - CDouble.of_int (glInfo.h (gl_screen s)) / CDouble.two)%D in
  gl_blitScale ext texture bx by_ bw bh c s
  = Ok tt (log s (gl_blitScale_calls texture x y bw bh c
                  ++ gl_checkErr_events ext
                       (trace s ++ gl_blitScale_calls texture x y bw bh c))).
Proof.
  intros x y. unfold gl_blitScale, gl_blitScale_calls, bind at 1, get.
  unfold SCREEN_W, SCREEN_H. fold x y.
  rewrite !bind_emit.
  destruct c as [c|]; rewrite !bind_emit, gl_checkErr_run, !log_log;
    repeat (cbn [app trace log]; rewrite <- ?app_assoc); reflexivity.
Qed.

(** X17 (the scaled blit).  [gl_blitScale] binds the texture once and
    draws one quad: the rectangle from the absolute position minus half the
    screen to that plus [(bw, bh)], textured with the first cell of the
    texture, from (0, 0) to [(sw/rw, sh/rh)].  Nothing is culled and no
    camera is read.  [gl_blitStatic] is [gl_blitScale] at the size
    [(sw, sh)] of a cell. *)
Theorem gl_blitScale_quad ext texture bx by_ bw bh c s :
  let x := (bx - CDouble.of_int (glInfo.w (gl_screen s)) / CDouble.two)%D in
  let y := (by_ - CDouble.of_int (glInfo.h (gl_screen s)) / CDouble.two)%D in
  let tw := (glTexture.sw texture / glTexture.rw texture)%D in
  let th := (glTexture.sh texture / glTexture.rh texture)%D in
  (exists new,
     gl_blitScale ext texture bx by_ bw bh c s = Ok tt (log s new) /\
     binds new = [glTexture.texture texture] /\
     quads new = [Build_quad (Some (glTexture.texture texture))
                    (rectangle x y bw bh CDouble.zero CDouble.zero tw th)]) /\
  gl_blitStatic ext texture bx by_ c s
  = gl_blitScale ext texture bx by_ (glTexture.sw texture) (glTexture.sh texture) c s.
Proof.
  intros x y tw th. split; [|reflexivity].
  rewrite gl_blitScale_run. fold x y. eexists. split; [reflexivity|].
  unfold gl_blitScale_calls, quads. fold tw th. split.
  - destruct c; cbn; rewrite binds_checkErr; reflexivity.
  - destruct c; cbn; rewrite quads_checkErr; reflexivity.
Qed.

Lemma texturing_app on a b : texturing on (a ++ b) = texturing (texturing on a) b.
Proof. apply fold_left_app. Qed.

Lemma texturing_checkErr ext tr on : texturing on (gl_checkErr_events ext tr) = on.
Proof.
  unfold gl_checkErr_events. destruct (driver_glGetError ext tr); reflexivity.
Qed.

Lemma texturing_blitTexture ext tr texture x y tx ty c on :
  texturing on (gl_blitTexture_events ext tr texture x y tx ty c) = false.
Proof.
  unfold gl_blitTexture_events. rewrite texturing_app, texturing_checkErr.
  destruct c; reflexivity.
Qed.

(** X18 (what a blit leaves behind).  Each of the four blit entry points
    changes nothing but the trace: the heap, the texture list, the screen
    and the camera are the ones before.  The three absolute ones always
    draw, and leave [GL_TEXTURE_2D] disabled, whether it was enabled before
    or not.  [gl_blitSprite] dereferences NULL when no camera is bound;
    with a camera it either returns without any call or draws and leaves
    [GL_TEXTURE_2D] disabled. *)
Theorem blit_frame ext texture bx by_ bw bh sx sy c s on :
  (exists new,
     gl_blitStaticSprite ext texture bx by_ sx sy c s = Ok tt (log s new) /\
     texturing on new = false) /\
  (exists new,
     gl_blitStatic ext texture bx by_ c s = Ok tt (log s new) /\
     texturing on new = false) /\
  (exists new,
     gl_blitScale ext texture bx by_ bw bh c s = Ok tt (log s new) /\
     texturing on new = false) /\
  match gl_camera s with
  | None => gl_blitSprite ext texture bx by_ sx sy c s = Fault NullPointer
  | Some _ =>
      gl_blitSprite ext texture bx by_ sx sy c s = Ok tt s \/
      exists new,
        gl_blitSprite ext texture bx by_ sx sy c s = Ok tt (log s new) /\
        texturing on new = false
  end.
Proof.
  split; [|split; [|split]].
  - unfold gl_blitStaticSprite, bind at 1, get. rewrite gl_blitTexture_run.
    eexists. split; [reflexivity|]. apply texturing_blitTexture.
  - unfold gl_blitStatic, bind at 1, get. rewrite gl_blitTexture_run.
    eexists. split; [reflexivity|]. apply texturing_blitTexture.
  - rewrite gl_blitScale_run. eexists. split; [reflexivity|].
    rewrite texturing_app, texturing_checkErr. destruct c; reflexivity.
  - destruct (gl_camera s) as [cam|] eqn:Hc.
    + rewrite (gl_blitSprite_run ext texture bx by_ sx sy c s cam Hc). cbv zeta.
      destruct (_ || _); [left; reflexivity|right].
      rewrite gl_blitTexture_run. eexists. split; [reflexivity|].
      apply texturing_blitTexture.
    + unfold gl_blitSprite, bind, get. rewrite Hc. reflexivity.
Qed.

(** ** The viewport, for every video mode *)

(** The two quotients of a scaled viewport, for the long side [a] and the
    short side [b] of the video mode. *)
Lemma scaled_sides a b :
  0 < b -> b <= a -> b < 600 -> a * 600 <= CInt.INT_MAX ->
  CInt.div (CInt.mul a 600) b = a * 600 / b /\ 600 <= a * 600 / b /\
  CInt.div (CInt.mul a b) 600 = a * b / 600 /\ 0 <= a * b / 600 <= a.
Proof.
  intros Hb Hab Hb6 Hmax.
  assert (Hmaxv : CInt.INT_MAX = 2147483647) by reflexivity.
  assert (Hminv : CInt.INT_MIN = -2147483648) by reflexivity.
  assert (H1 : 0 <= a * 600 / b) by (apply Z.div_pos; lia).
  assert (H2 : a * 600 / b <= a * 600) by (apply Z.div_le_upper_bound; nia).
  assert (H3 : 600 <= a * 600 / b) by (apply Z.div_le_lower_bound; nia).
  assert (H4 : 0 <= a * b / 600) by (apply Z.div_pos; nia).
  assert (H5 : a * b / 600 <= a) by (apply Z.div_le_upper_bound; nia).
  repeat split; try lia.
  - unfold CInt.mul. rewrite (wrap32_small (a * 600)) by lia.
    unfold CInt.div. rewrite Z.quot_div_nonneg by lia. apply wrap32_small. lia.
  - unfold CInt.mul. rewrite (wrap32_small (a * b)) by nia.
    unfold CInt.div. rewrite Z.quot_div_nonneg by nia. apply wrap32_small. lia.
Qed.

(** X19 (the baseline of 600 units).  For every video mode of positive
    size (with sides that can be multiplied by 600 in an [int]) the viewport
    block of [gl_init] does not divide by zero and leaves a screen whose
    real size is the video mode, whose logical sides are both at least 600
    and whose native sides are at most the real ones.  When a side of the
    mode is below 600, the shorter logical side is exactly 600; when none
    is, logical and native size are the video mode and the scale is 1. *)
Theorem gl_init_viewport_baseline scr :
  let w := glInfo.w scr in
  let h := glInfo.h scr in
  0 < w -> 0 < h -> w * 600 <= CInt.INT_MAX -> h * 600 <= CInt.INT_MAX ->
  exists scr',
    gl_init_viewport scr = Some scr' /\
    glInfo.rw scr' = w /\ glInfo.rh scr' = h /\
    600 <= glInfo.w scr' /\ 600 <= glInfo.h scr' /\
    (w < 600 \/ h < 600 -> Z.min (glInfo.w scr') (glInfo.h scr') = 600) /\
    (600 <= w -> 600 <= h ->
     glInfo.w scr' = w /\ glInfo.h scr' = h /\
     glInfo.nw scr' = w /\ glInfo.nh scr' = h /\ glInfo.scale scr' = CDouble.one) /\
    0 <= glInfo.nw scr' <= w /\ 0 <= glInfo.nh scr' <= h.
Proof.
  intros w h Hw Hh Hwmax Hhmax.
  unfold gl_init_viewport. fold w h.
  destruct ((w <? 600) && (w <=? h)) eqn:Hfirst.
  - apply andb_true_iff in Hfirst as [Hw6 Hwh].
    apply Z.ltb_lt in Hw6. apply Z.leb_le in Hwh.
    destruct (Z.eqb_spec w 0); [lia|].
    destruct (scaled_sides h w Hw Hwh Hw6 Hhmax) as (-> & H1 & -> & H2).
    eexists. split; [reflexivity|].
    cbn [gl_init_scales glInfo.rw glInfo.rh glInfo.w glInfo.h glInfo.nw glInfo.nh
         glInfo.scale].
    repeat split; lia.
  - destruct ((h <? 600) && (w >=? h)) eqn:Hsecond.
    + apply andb_true_iff in Hsecond as [Hh6 Hge].
      apply Z.ltb_lt in Hh6. apply Z.geb_le in Hge.
      destruct (Z.eqb_spec h 0); [lia|].
      destruct (scaled_sides w h Hh Hge Hh6 Hwmax) as (-> & H1 & -> & H2).
      eexists. split; [reflexivity|].
      cbn [gl_init_scales glInfo.rw glInfo.rh glInfo.w glInfo.h glInfo.nw glInfo.nh
           glInfo.scale].
      repeat split; lia.
    + assert (600 <= w /\ 600 <= h) as [Hw6 Hh6].
      { destruct (Z.ltb_spec w 600), (Z.leb_spec w h), (Z.ltb_spec h 600),
          (Z.geb_spec w h); cbn in Hfirst, Hsecond; try discriminate; lia. }
      eexists. split; [reflexivity|].
      cbn [gl_init_scales glInfo.rw glInfo.rh glInfo.w glInfo.h glInfo.nw glInfo.nh
           glInfo.scale].
      repeat split; lia.
Qed.

(** The video mode 400x600. *)
Lemma gl_init_viewport_baseline_400x600 :
  exists scr',
    gl_init_viewport (Scenario.video_mode 400 600) = Some scr' /\
    glInfo.rw scr' = 400 /\ glInfo.rh scr' = 600 /\
    600 <= glInfo.w scr' /\ 600 <= glInfo.h scr' /\
    (400 < 600 \/ 600 < 600 -> Z.min (glInfo.w scr') (glInfo.h scr') = 600) /\
    (600 <= 400 -> 600 <= 600 ->
     glInfo.w scr' = 400 /\ glInfo.h scr' = 600 /\
     glInfo.nw scr' = 400 /\ glInfo.nh scr' = 600 /\ glInfo.scale scr' = CDouble.one) /\
    0 <= glInfo.nw scr' <= 400 /\ 0 <= glInfo.nh scr' <= 600.
Proof.
  apply (gl_init_viewport_baseline (Scenario.video_mode 400 600));
    try (vm_compute; reflexivity); vm_compute; discriminate.
Defined.

Lemma scale_small n :
  0 < n < 600 -> CDouble.eqb (CDouble.of_int n / CDouble.of_int 600)%D CDouble.one = false.
Proof.
  intros Hn.
  assert (H : small_scales_differ = true) by (vm_compute; reflexivity).
  unfold small_scales_differ in H. rewrite forallb_forall in H.
  specialize (H (Z.to_nat n)). rewrite Z2Nat.id in H by lia.
  apply negb_true_iff, H, in_seq. lia.
Qed.

Lemma gl_defViewport_run s :
  gl_defViewport s
  = Ok tt (log s (projection (gl_screen s)
                  ++ (if negb (CDouble.eqb (glInfo.scale (gl_screen s)) CDouble.one)
                      then [glScaled (glInfo.wscale (gl_screen s))
                              (glInfo.hscale (gl_screen s)) CDouble.one]
                      else []))).
Proof.
  unfold gl_defViewport, bind at 1, get. rewrite !bind_emit. cbv beta.
  destruct (negb _); unfold when.
  - unfold emit, log, projection. cbn. rewrite <- !app_assoc. reflexivity.
  - unfold ret, log, projection. cbn. rewrite <- !app_assoc. reflexivity.
Qed.

(** X20 (when the projection is scaled).  For a video mode of positive
    size, the end of [gl_init] stores the screen that the viewport block
    computes and sets up the projection for its native size, and it calls
    [glScaled] exactly when a side of the video mode is below 600: in
    binary64 [n/600.] differs from [1.] for each [n] from 1 to 599.  For a
    video mode with a side of 0 (and no negative side) it divides by
    zero. *)
Theorem gl_init_tail_scaling s :
  let w := glInfo.w (gl_screen s) in
  let h := glInfo.h (gl_screen s) in
  (0 < w -> 0 < h ->
   exists scr,
     gl_init_viewport (gl_screen s) = Some scr /\
     gl_init_tail s
     = Ok tt (log (with_gl_screen s scr)
                (projection scr
                 ++ (if (w <? 600) || (h <? 600)
                     then [glScaled (glInfo.wscale scr) (glInfo.hscale scr) CDouble.one]
                     else [])))) /\
  (0 <= w -> 0 <= h -> w = 0 \/ h = 0 -> gl_init_tail s = Fault DivisionByZero).
Proof.
  intros w h.
  assert (Hone : CDouble.eqb CDouble.one CDouble.one = true) by (vm_compute; reflexivity).
  split.
  - intros Hw Hh. unfold gl_init_tail, bind at 1, get. unfold gl_init_viewport. fold w h.
    destruct (Z.ltb_spec w 600) as [Hw6|Hw6]; destruct (Z.leb_spec w h) as [Hwh|Hwh];
      cbn [andb orb].
    + destruct (Z.eqb_spec w 0); [lia|]. eexists. split; [reflexivity|].
      unfold bind, set_gl_screen. rewrite gl_defViewport_run.
      cbn [gl_screen gl_init_scales glInfo.scale]. rewrite scale_small by lia. reflexivity.
    + destruct (Z.ltb_spec h 600) as [Hh6|Hh6]; [|lia].
      destruct (Z.geb_spec w h) as [Hge|Hge]; [|lia]. cbn [andb].
      destruct (Z.eqb_spec h 0); [lia|]. eexists. split; [reflexivity|].
      unfold bind, set_gl_screen. rewrite gl_defViewport_run.
      cbn [gl_screen gl_init_scales glInfo.scale]. rewrite scale_small by lia. reflexivity.
    + destruct (Z.ltb_spec h 600) as [Hh6|Hh6]; [lia|]. cbn [andb].
      eexists. split; [reflexivity|].
      unfold bind, set_gl_screen. rewrite gl_defViewport_run.
      cbn [gl_screen gl_init_scales glInfo.scale]. rewrite Hone. reflexivity.
    + destruct (Z.ltb_spec h 600) as [Hh6|Hh6]; cbn [andb].
      * destruct (Z.geb_spec w h) as [Hge|Hge]; [|lia]. cbn [andb].
        destruct (Z.eqb_spec h 0); [lia|]. eexists. split; [reflexivity|].
        unfold bind, set_gl_screen. rewrite gl_defViewport_run.
        cbn [gl_screen gl_init_scales glInfo.scale]. rewrite scale_small by lia.
        reflexivity.
      * eexists. split; [reflexivity|].
        unfold bind, set_gl_screen. rewrite gl_defViewport_run.
        cbn [gl_screen gl_init_scales glInfo.scale]. rewrite Hone. reflexivity.
  - intros Hw Hh Hzero. unfold gl_init_tail, bind at 1, get. unfold gl_init_viewport.
    fold w h.
    destruct (Z.ltb_spec w 600) as [Hw6|Hw6]; destruct (Z.leb_spec w h) as [Hwh|Hwh];
      cbn [andb]; try (exfalso; lia).
    + destruct (Z.eqb_spec w 0); [reflexivity|]. lia.
    + destruct (Z.ltb_spec h 600) as [Hh6|Hh6]; [|lia].
      destruct (Z.geb_spec w h) as [Hge|Hge]; [|lia]. cbn [andb].
      destruct (Z.eqb_spec h 0); [reflexivity|]. lia.
    + destruct (Z.ltb_spec h 600) as [Hh6|Hh6]; [|lia].
      destruct (Z.geb_spec w h) as [Hge|Hge]; [|lia]. cbn [andb].
      destruct (Z.eqb_spec h 0); [reflexivity|]. lia.
Qed.

(** The video mode 400x600. *)
Lemma gl_init_tail_scaling_400x600 :
  exists scr,
    gl_init_viewport (gl_screen Cases.small_screen) = Some scr /\
    gl_init_tail Cases.small_screen
    = Ok tt (log (with_gl_screen Cases.small_screen scr)
               (projection scr
                ++ (if (glInfo.w (gl_screen Cases.small_screen) <? 600)
                       || (glInfo.h (gl_screen Cases.small_screen) <? 600)
                    then [glScaled (glInfo.wscale scr) (glInfo.hscale scr) CDouble.one]
                    else []))).
Proof.
  apply (proj1 (gl_init_tail_scaling Cases.small_screen)); reflexivity.
Defined.

(** ** [gl_hasExt] *)

Lemma strncmp_eq a : forall b,
  (length a <= length b)%nat ->
  (strncmp a b (length a) =? 0) = true <-> a = take (length a) b.
Proof.
  induction a as [|x a IH]; intros b Hlen; cbn [length strncmp take].
  - split; reflexivity.
  - destruct b as [|y b]; [cbn in Hlen; lia|]. cbn in Hlen. cbn [take].
    destruct (Ascii.eqb_spec x y) as [->|Hne].
    + rewrite IH by lia. split; [intros <-; reflexivity|intros [= H]; exact H].
    + split.
      * intros H. apply Z.eqb_eq in H. exfalso. apply Hne.
        rewrite <- (ascii_N_embedding x), <- (ascii_N_embedding y). f_equal. lia.
      * intros [= H _]. contradiction.
Qed.

Lemma strcspn_le s r : (strcspn s r <= length s)%nat.
Proof. induction s as [|c s IH]; cbn; [lia|]. destruct (existsb _ r); cbn; lia. Qed.

(** The first word of a string ends where [strcspn] stops. *)
Lemma words_strcspn s :
  words s = take (strcspn s [" "%char]) s ::
            (if (strcspn s [" "%char] <? length s)%nat
             then words (drop (S (strcspn s [" "%char])) s) else []).
Proof.
  induction s as [|c s IH]; [reflexivity|].
  cbn [words strcspn existsb]. rewrite orb_false_r.
  destruct (Ascii.eqb c " "); [reflexivity|].
  rewrite IH at 1. cbn [take length drop].
  change (S (strcspn s [" "%char]) <? S (length s))%nat
    with (strcspn s [" "%char] <? length s)%nat.
  reflexivity.
Qed.

Lemma gl_hasExt_loop_spec name extensions : name <> [] ->
  forall fuel p,
  (length extensions - p < fuel)%nat ->
  exists b, gl_hasExt_loop fuel name extensions p = Some b /\
            (b = true <-> In name (words (drop p extensions))).
Proof.
  intros Hname. induction fuel as [|fuel IH]; intros p Hfuel; [lia|].
  cbn [gl_hasExt_loop]. unfold strlen.
  destruct (Nat.ltb_spec p (length extensions)) as [Hp|Hp].
  - set (s := drop p extensions).
    assert (Hs : length s = (length extensions - p)%nat) by apply length_drop.
    pose proof (strcspn_le s [" "%char]) as Hn.
    rewrite (words_strcspn s). set (n := strcspn s [" "%char]) in *.
    destruct (Nat.eqb_spec (length name) n) as [Hlen|Hlen]; cbn [andb].
    + destruct (strncmp name s n =? 0) eqn:Hcmp.
      * exists true. split; [reflexivity|]. split; [|reflexivity]. intros _. left.
        rewrite <- Hlen in Hcmp |- *. symmetry.
        apply strncmp_eq; [lia|exact Hcmp].
      * destruct (IH (p + (n + 1))%nat ltac:(lia)) as (b & Hb & Hin).
        exists b. split; [exact Hb|]. rewrite Hin.
        replace (drop (p + (n + 1)) extensions) with (drop (S n) s)
          by (unfold s; rewrite drop_drop; f_equal; lia).
        split.
        -- intros H. right. destruct (Nat.ltb_spec n (length s)); [exact H|].
           rewrite drop_ge in H by lia. cbn in H. destruct H as [H|[]].
           congruence.
        -- intros [H|H].
           ++ exfalso. rewrite <- Hlen in Hcmp.
              assert ((strncmp name s (length name) =? 0) = true); [|congruence].
              apply strncmp_eq; [lia|]. rewrite Hlen. symmetry. exact H.
           ++ destruct (Nat.ltb_spec n (length s)); [exact H|destruct H].
    + destruct (IH (p + (n + 1))%nat ltac:(lia)) as (b & Hb & Hin).
      exists b. split; [exact Hb|]. rewrite Hin.
      replace (drop (p + (n + 1)) extensions) with (drop (S n) s)
        by (unfold s; rewrite drop_drop; f_equal; lia).
      split.
      * intros H. right. destruct (Nat.ltb_spec n (length s)); [exact H|].
        rewrite drop_ge in H by lia. cbn in H. destruct H as [H|[]]. congruence.
      * intros [H|H].
        -- exfalso. apply Hlen. rewrite <- H. rewrite length_take. lia.
        -- destruct (Nat.ltb_spec n (length s)); [exact H|destruct H].
  - exists false. split; [reflexivity|]. rewrite drop_ge by lia. cbn.
    split; [discriminate|]. intros [H|[]]. congruence.
Qed.

Lemma words_no_space s : forall w, In w (words s) -> ~ In " "%char w.
Proof.
  induction s as [|c s IH]; intros w Hw; cbn [words] in Hw.
  - destruct Hw as [<-|[]]. intros [].
  - destruct (Ascii.eqb_spec c " ") as [->|Hc].
    + destruct Hw as [<-|Hw]; [intros []|exact (IH w Hw)].
    + destruct (words s) as [|w0 ws] eqn:Hws.
      * destruct Hw as [<-|[]]. intros [H|[]]. congruence.
      * destruct Hw as [<-|Hw].
        -- intros [H|H]; [congruence|]. apply (IH w0); [left; reflexivity|exact H].
        -- apply IH. right. exact Hw.
Qed.

Lemma words_single s : ~ In " "%char s -> words s = [s].
Proof.
  induction s as [|c s IH]; intros Hs; [reflexivity|].
  cbn [words]. destruct (Ascii.eqb_spec c " ") as [->|Hc].
  - exfalso. apply Hs. left. reflexivity.
  - rewrite IH; [reflexivity|]. intros H. apply Hs. right. exact H.
Qed.

Lemma gl_hasExt_false extensions name :
  name <> [] -> ~ In name (words extensions) -> gl_hasExt extensions name = Some false.
Proof.
  intros Hname Hnot. unfold gl_hasExt, strlen.
  destruct (gl_hasExt_loop_spec name extensions Hname (S (length extensions)) 0%nat
              ltac:(lia)) as (b & Hb & Hin).
  rewrite Hb. destruct b; [|reflexivity]. exfalso. apply Hnot, Hin. reflexivity.
Qed.

(** X21 (the extension probe finds whole words).  For a name that is not
    empty, [gl_hasExt] returns (the loop exits within one round for each
    character of the extension string and one more), and it returns true
    exactly when the name is one of the words of the extension string, the
    words being what single spaces separate. *)
Theorem gl_hasExt_words extensions name :
  name <> [] ->
  exists b, gl_hasExt extensions name = Some b /\
            (b = true <-> In name (words extensions)).
Proof.
  intros Hname. unfold gl_hasExt, strlen.
  destruct (gl_hasExt_loop_spec name extensions Hname (S (length extensions)) 0%nat
              ltac:(lia)) as (b & Hb & Hin).
  exists b. split; [exact Hb|exact Hin].
Qed.

(** The second of three extensions. *)
Lemma gl_hasExt_words_arb :
  exists b,
    gl_hasExt (list_ascii_of_string "GL_ARB_multitexture GL_ARB_vertex_program GL_EXT_abgr")
      (list_ascii_of_string "GL_ARB_vertex_program") = Some b /\
    (b = true <->
     In (list_ascii_of_string "GL_ARB_vertex_program")
        (words (list_ascii_of_string
                  "GL_ARB_multitexture GL_ARB_vertex_program GL_EXT_abgr"))).
Proof.
  apply (gl_hasExt_words
           (list_ascii_of_string "GL_ARB_multitexture GL_ARB_vertex_program GL_EXT_abgr")
           (list_ascii_of_string "GL_ARB_vertex_program")).
  vm_compute. discriminate.
Defined.

(** X22 (no match on a part of a word).  [gl_hasExt] finds no name that
    holds a space, whatever the extension string, and it does not find a
    name in an extension string that is one longer word starting with the
    name: a prefix of an extension is not that extension. *)
Theorem gl_hasExt_whole_words name :
  name <> [] ->
  (forall extensions, In " "%char name -> gl_hasExt extensions name = Some false) /\
  (forall suffix, suffix <> [] -> ~ In " "%char (name ++ suffix) ->
     gl_hasExt (name ++ suffix) name = Some false).
Proof.
  intros Hname. split.
  - intros extensions Hsp. apply gl_hasExt_false; [exact Hname|].
    intros Hin. exact (words_no_space _ _ Hin Hsp).
  - intros suffix Hsuf Hsp. apply gl_hasExt_false; [exact Hname|].
    rewrite words_single by exact Hsp. intros [H|[]].
    apply Hsuf. apply (app_inv_head name). rewrite app_nil_r. exact H.
Qed.

(** The name [GL_ARB_vertex] against the extension
    [GL_ARB_vertex_program]. *)
Lemma gl_hasExt_whole_words_arb :
  gl_hasExt (list_ascii_of_string "GL_ARB_vertex_program")
    (list_ascii_of_string "GL_ARB_vertex") = Some false.
Proof.
  assert (H : list_ascii_of_string "GL_ARB_vertex" <> []) by (vm_compute; discriminate).
  apply (proj2 (gl_hasExt_whole_words _ H) (list_ascii_of_string "_program")).
  - vm_compute. discriminate.
  - vm_compute. intuition discriminate.
Defined.

(** ** The fullscreen modes *)

Lemma toff_distance W H m :
  - 2 ^ 29 <= W <= 2 ^ 29 -> - 2 ^ 29 <= H <= 2 ^ 29 ->
  0 <= rect_w m < 65536 -> 0 <= rect_h m < 65536 ->
  CInt.add (ABS (CInt.sub W (rect_w m))) (ABS (CInt.sub H (rect_h m)))
  = mode_distance W H m.
Proof.
  intros HW HH Hw Hh. unfold mode_distance, ABS.
  assert (Hmaxv : CInt.INT_MAX = 2147483647) by reflexivity.
  assert (Hminv : CInt.INT_MIN = -2147483648) by reflexivity.
  change (2 ^ 29) with 536870912 in *.
  assert (H1 : CInt.sub W (rect_w m) = W - rect_w m) by (apply wrap32_small; lia).
  assert (H2 : CInt.sub H (rect_h m) = H - rect_h m) by (apply wrap32_small; lia).
  rewrite H1, H2.
  assert (H3 : CInt.sub 0 (W - rect_w m) = - (W - rect_w m))
    by (unfold CInt.sub; rewrite wrap32_small; lia).
  assert (H4 : CInt.sub 0 (H - rect_h m) = - (H - rect_h m))
    by (unfold CInt.sub; rewrite wrap32_small; lia).
  rewrite H3, H4.
  destruct (Z.ltb_spec (W - rect_w m) 0), (Z.ltb_spec (H - rect_h m) 0);
    unfold CInt.add; rewrite wrap32_small by lia; lia.
Qed.

Lemma gl_init_closest_inv W H a : forall pre j off,
  - 2 ^ 29 <= W <= 2 ^ 29 -> - 2 ^ 29 <= H <= 2 ^ 29 ->
  uint16_modes a ->
  Z.of_nat (length (pre ++ a)) <= CInt.INT_MAX ->
  closest_inv W H pre j off ->
  closest_inv W H (pre ++ a)
    (fst (gl_init_closest W H a (Z.of_nat (length pre)) j off))
    (snd (gl_init_closest W H a (Z.of_nat (length pre)) j off)).
Proof.
  induction a as [|m a IH]; intros pre j off HW HH Ha Hlen Hinv.
  - cbn. rewrite app_nil_r. exact Hinv.
  - inversion Ha as [|m0 a0 [Hw Hh] Ha']; subst.
    cbn [gl_init_closest]. rewrite toff_distance by assumption.
    assert (Hi : CInt.add (Z.of_nat (length pre)) 1 = Z.of_nat (length (pre ++ [m]))).
    { rewrite length_app. cbn [length]. unfold CInt.add. rewrite wrap32_small; [lia|].
      rewrite length_app in Hlen. cbn [length] in Hlen.
      unfold CInt.INT_MIN, CInt.INT_MAX in *. lia. }
    rewrite Hi.
    assert (Hlen' : Z.of_nat (length ((pre ++ [m]) ++ a)) <= CInt.INT_MAX)
      by (rewrite <- app_assoc; exact Hlen).
    assert (Hd : 0 <= mode_distance W H m) by (unfold mode_distance; lia).
    replace (pre ++ m :: a) with ((pre ++ [m]) ++ a) by (rewrite <- app_assoc; reflexivity).
    destruct Hinv as [(-> & -> & ->)|(m0 & Hj & Hj0 & -> & Hmin & Hfirst)].
    + cbn [Z.eqb orb]. apply IH; try assumption.
      right. exists m. split; [reflexivity|]. split; [lia|]. split; [reflexivity|].
      split.
      * intros m' [<-|[]]. lia.
      * intros k m' Hk. cbn in Hk. lia.
    + assert (Hd0 : 0 <= mode_distance W H m0) by (unfold mode_distance; lia).
      assert (Hjlt : (Z.to_nat j < length pre)%nat) by (apply lookup_lt_Some in Hj; exact Hj).
      destruct (Z.eqb_spec (mode_distance W H m0) (-1)); [lia|]. cbn [orb].
      destruct (Z.ltb_spec (mode_distance W H m) (mode_distance W H m0)) as [Hlt|Hge].
      * apply IH; try assumption. right. exists m.
        rewrite Nat2Z.id. split; [apply lookup_snoc|]. split; [lia|]. split; [reflexivity|].
        split.
        -- intros m' Hin. apply in_app_or in Hin as [Hin|[<-|[]]]; [|lia].
           specialize (Hmin m' Hin). lia.
        -- intros k m' Hk Hk'. rewrite lookup_app_l in Hk' by exact Hk.
           apply list_elem_of_lookup_2, list_elem_of_In in Hk'.
           specialize (Hmin m' Hk'). lia.
      * apply IH; try assumption. right. exists m0.
        split; [rewrite lookup_app_l by exact Hjlt; exact Hj|].
        split; [lia|]. split; [reflexivity|]. split.
        -- intros m' Hin. apply in_app_or in Hin as [Hin|[<-|[]]]; [|lia].
           exact (Hmin m' Hin).
        -- intros k m' Hk Hk'. rewrite lookup_app_l in Hk' by lia.
           exact (Hfirst k m' Hk Hk').
Qed.

Lemma uint16_modes3 : uint16_modes Cases.modes3.
Proof. unfold uint16_modes, Cases.modes3. repeat constructor; cbn; lia. Qed.

(** X23 (the search for the closest mode).  Over an array of modes that
    is not empty, the second loop of the fullscreen part of [gl_init] ends
    with the index [j] of a mode of the array and with [off] its distance
    [|W - w| + |H - h|] to the size asked for; no mode of the array is
    closer, and every mode before [j] is farther: among the closest modes
    the first one wins.  The sides of the modes are [Uint16] values, and
    the size asked for is small enough for the distance to be an [int]. *)
Theorem gl_init_closest_least W H a :
  - 2 ^ 29 <= W <= 2 ^ 29 -> - 2 ^ 29 <= H <= 2 ^ 29 ->
  uint16_modes a -> a <> [] -> Z.of_nat (length a) <= CInt.INT_MAX ->
  let j := fst (gl_init_closest W H a 0 0 (-1)) in
  let off := snd (gl_init_closest W H a 0 0 (-1)) in
  exists m,
    a !! Z.to_nat j = Some m /\ 0 <= j /\
    off = mode_distance W H m /\
    (forall m', In m' a -> mode_distance W H m <= mode_distance W H m') /\
    (forall k m', (k < Z.to_nat j)%nat -> a !! k = Some m' ->
                  mode_distance W H m < mode_distance W H m').
Proof.
  intros HW HH Ha Hne Hlen j off.
  destruct (gl_init_closest_inv W H a [] 0 (-1) HW HH Ha Hlen) as [(Hnil & _)|Hinv].
  - left. auto.
  - cbn [app] in Hnil. contradiction.
  - cbn [app length] in Hinv. change (Z.of_nat 0) with 0 in Hinv. fold j off in Hinv.
    destruct Hinv as (m & Hj & Hj0 & Hoff & Hmin & Hfirst).
    exists m. rewrite <- Hoff. auto.
Qed.

(** 800x600 among 1024x768, 640x480 and 1280x1024: the second mode. *)
Lemma gl_init_closest_least_800x600 :
  gl_init_closest 800 600 Cases.modes3 0 0 (-1) = (1, 280) /\
  exists m,
    Cases.modes3 !! Z.to_nat (fst (gl_init_closest 800 600 Cases.modes3 0 0 (-1))) = Some m /\
    0 <= fst (gl_init_closest 800 600 Cases.modes3 0 0 (-1)) /\
    snd (gl_init_closest 800 600 Cases.modes3 0 0 (-1)) = mode_distance 800 600 m /\
    (forall m', In m' Cases.modes3 ->
                mode_distance 800 600 m <= mode_distance 800 600 m') /\
    (forall k m',
       (k < Z.to_nat (fst (gl_init_closest 800 600 Cases.modes3 0 0 (-1))))%nat ->
       Cases.modes3 !! k = Some m' ->
       mode_distance 800 600 m < mode_distance 800 600 m').
Proof.
  split; [vm_compute; reflexivity|].
  apply (gl_init_closest_least 800 600 Cases.modes3);
    first [exact uint16_modes3 | lia | discriminate | vm_compute; discriminate].
Defined.

Lemma gl_init_list_modes_run fs a : forall supported s,
  gl_init_list_modes fs a supported s
  = Ok (supported
        || (fs && existsb (has_size (glInfo.w (gl_screen s)) (glInfo.h (gl_screen s))) a))
       (log s (map mode_line a)).
Proof.
  induction a as [|m a IH]; intros supported s.
  - cbn. rewrite andb_false_r, orb_false_r, log_nil. reflexivity.
  - cbn [gl_init_list_modes map existsb]. unfold DEBUG. rewrite bind_emit. cbv beta.
    unfold bind at 1, get. rewrite IH, log_log. cbn [gl_screen log app].
    unfold SCREEN_W, SCREEN_H, has_size. f_equal.
    destruct fs, supported, (rect_w m =? _), (rect_h m =? _); reflexivity.
Qed.

Arguments gl_init_list_modes : simpl never.
Arguments gl_init_closest : simpl never.

(** X24 (a mode that is supported).  When fullscreen is asked for and the
    array of modes holds the size asked for, the part of [gl_init] that
    settles the size keeps fullscreen on and leaves [gl_screen] at the size
    asked for; it logs the headline and one line for each mode and no
    warning, and it does not run the search for the closest mode. *)
Theorem gl_init_modes_supported sdl_1_2_10 dim_def current_w current_h a s :
  let size := requested_size sdl_1_2_10 dim_def current_w current_h (gl_screen s) in
  existsb (has_size (fst size) (snd size)) a = true ->
  gl_init_modes sdl_1_2_10 true dim_def current_w current_h (modes_array a) s
  = Ok true (log (with_gl_screen s (resized (gl_screen s) (fst size) (snd size)))
               (LOG LvlDEBUG "Available fullscreen modes:" [] :: map mode_line a)).
Proof.
  intros size Hin. unfold gl_init_modes, requested_size in *.
  destruct (sdl_1_2_10 && negb dim_def) eqn:Hover; cbn [fst snd] in *; subst size;
    unfold when, DEBUG, WARN, bind, emit, get, ret, set_screen_size, set_gl_screen; cbn;
    rewrite gl_init_list_modes_run; cbn; cbn in Hin; rewrite Hin; cbn.
  - unfold MIN. rewrite !Z.ltb_irrefl. unfold log, with_gl_screen, resized. cbn.
    rewrite <- app_assoc. reflexivity.
  - unfold log, with_gl_screen, resized. cbn. rewrite <- app_assoc.
    destruct s as [hp tl scr cam gx gy tr]. destruct scr. reflexivity.
Qed.

(** 800x600 with the size given, among four modes that hold it. *)
Lemma gl_init_modes_supported_800x600 :
  gl_init_modes true true true 1280 1024 (modes_array Cases.modes4) Scenario.s0
  = Ok true (log (with_gl_screen Scenario.s0 (resized (gl_screen Scenario.s0) 800 600))
               (LOG LvlDEBUG "Available fullscreen modes:" []
                :: map mode_line Cases.modes4)).
Proof.
  apply (gl_init_modes_supported true true 1280 1024 Cases.modes4 Scenario.s0).
  vm_compute. reflexivity.
Defined.

(** X25 (a mode that is not supported).  When fullscreen is asked for and
    the array of modes, not empty, does not hold the size asked for, the
    part of [gl_init] that settles the size keeps fullscreen on, logs the
    modes and then one warning that names the size asked for and the mode
    chosen, and sets [gl_screen] to that mode, clamped to the desktop size
    when no size was given.  The mode chosen is a mode of the array and no
    mode of the array is closer to the size asked for. *)
Theorem gl_init_modes_closest sdl_1_2_10 dim_def current_w current_h a s :
  let size := requested_size sdl_1_2_10 dim_def current_w current_h (gl_screen s) in
  let W := fst size in
  let H := snd size in
  - 2 ^ 29 <= W <= 2 ^ 29 -> - 2 ^ 29 <= H <= 2 ^ 29 ->
  uint16_modes a -> a <> [] -> Z.of_nat (length a) <= CInt.INT_MAX ->
  existsb (has_size W H) a = false ->
  exists m,
    In m a /\
    (forall m', In m' a -> mode_distance W H m <= mode_distance W H m') /\
    gl_init_modes sdl_1_2_10 true dim_def current_w current_h (modes_array a) s
    = Ok true
        (log (with_gl_screen s
                (resized (gl_screen s)
                   (if sdl_1_2_10 && negb dim_def then MIN (rect_w m) current_w
                    else rect_w m)
                   (if sdl_1_2_10 && negb dim_def then MIN (rect_h m) current_h
                    else rect_h m)))
             (LOG LvlDEBUG "Available fullscreen modes:" [] :: map mode_line a
              ++ [LOG LvlWARN switching_fmt
                    [fmt_d W; fmt_d H; fmt_d (rect_w m); fmt_d (rect_h m)]])).
Proof.
  intros size W H HW HH Ha Hne Hlen Hnot.
  destruct (gl_init_closest_inv W H a [] 0 (-1) HW HH Ha Hlen) as [(Hnil & _)|Hinv].
  { left. auto. }
  { cbn [app] in Hnil. contradiction. }
  cbn [app length] in Hinv. change (Z.of_nat 0) with 0 in Hinv.
  destruct Hinv as (m & Hj & Hj0 & Hoff & Hmin & Hfirst).
  exists m. split; [apply list_elem_of_In; eapply list_elem_of_lookup_2; exact Hj|].
  split; [intros m' Hm'; rewrite <- Hoff; exact (Hmin m' Hm')|].
  subst W H size. unfold gl_init_modes, requested_size in *.
  destruct (gl_init_closest _ _ a 0 0 (-1)) as [j off] eqn:Hcl in Hj.
  cbn [fst snd] in Hj.
  destruct (sdl_1_2_10 && negb dim_def) eqn:Hover; cbn [fst snd] in *;
    unfold when, DEBUG, WARN, bind, emit, get, ret, set_screen_size, set_gl_screen; cbn;
    rewrite gl_init_list_modes_run; cbn; rewrite Hnot; cbn;
    unfold SCREEN_W, SCREEN_H; cbn; rewrite Hcl, Hj; cbn;
    unfold log, with_gl_screen, resized; cbn; rewrite <- !app_assoc; reflexivity.
Qed.

(** 800x600 with the size given, among three modes that do not hold it. *)
Lemma gl_init_modes_closest_800x600 :
  exists m,
    In m Cases.modes3 /\
    (forall m', In m' Cases.modes3 ->
                mode_distance 800 600 m <= mode_distance 800 600 m') /\
    gl_init_modes true true true 1280 1024 (modes_array Cases.modes3) Scenario.s0
    = Ok true
        (log (with_gl_screen Scenario.s0
                (resized (gl_screen Scenario.s0) (rect_w m) (rect_h m)))
             (LOG LvlDEBUG "Available fullscreen modes:" [] :: map mode_line Cases.modes3
              ++ [LOG LvlWARN switching_fmt
                    [fmt_d 800; fmt_d 600; fmt_d (rect_w m); fmt_d (rect_h m)]])).
Proof.
  apply (gl_init_modes_closest true true 1280 1024 Cases.modes3 Scenario.s0);
    first [exact uint16_modes3 | cbn; lia | discriminate | vm_compute; reflexivity
          | vm_compute; discriminate].
Defined.

(** X26 (no array of modes).  With fullscreen asked for: when
    [SDL_ListModes] reports that every size is possible (the pointer -1),
    or returns an array without a mode, the search for the closest mode
    reads [modes[i]] through that pointer, or [modes[0]->w] through the NULL
    that ends the array, and faults; when it returns NULL, fullscreen is
    switched off with two warnings and the size asked for is kept.  Without
    fullscreen the modes are not looked at: the call returns with
    fullscreen off, the size clamped to the desktop size when no size was
    given and untouched otherwise. *)
Theorem gl_init_modes_unlisted sdl_1_2_10 dim_def current_w current_h s :
  let size := requested_size sdl_1_2_10 dim_def current_w current_h (gl_screen s) in
  gl_init_modes sdl_1_2_10 true dim_def current_w current_h modes_any s
  = Fault NullPointer /\
  gl_init_modes sdl_1_2_10 true dim_def current_w current_h (modes_array []) s
  = Fault NullPointer /\
  gl_init_modes sdl_1_2_10 true dim_def current_w current_h modes_NULL s
  = Ok false
      (log (with_gl_screen s (resized (gl_screen s) (fst size) (snd size)))
           [LOG LvlWARN "No fullscreen modes available" [];
            LOG LvlWARN "Disabling fullscreen mode" []]) /\
  forall modes,
    gl_init_modes sdl_1_2_10 false dim_def current_w current_h modes s
    = Ok false
        (with_gl_screen s
           (resized (gl_screen s)
              (if sdl_1_2_10 && negb dim_def
               then MIN (glInfo.w (gl_screen s)) current_w else glInfo.w (gl_screen s))
              (if sdl_1_2_10 && negb dim_def
               then MIN (glInfo.h (gl_screen s)) current_h else glInfo.h (gl_screen s)))).
Proof.
  intros size. subst size. unfold gl_init_modes, requested_size.
  destruct (sdl_1_2_10 && negb dim_def) eqn:Hover; cbn [fst snd];
    repeat split; try intros modes;
    unfold when, DEBUG, WARN, bind, emit, get, ret, set_screen_size, set_gl_screen,
      fail; cbn;
    unfold MIN; rewrite ?Z.ltb_irrefl; unfold log, with_gl_screen, resized; cbn;
    rewrite <- ?app_assoc; try reflexivity;
    destruct s as [hp tl scr cam gx gy tr]; destruct scr; reflexivity.
Qed.

(** ** More on the life of a texture *)

Lemma gl_prepareSurface_None ext surface s :
  SDL_Surface.w surface <= 2 ^ 30 -> SDL_Surface.h surface <= 2 ^ 30 ->
  (forall fl w h d, SDL_CreateRGBSurface ext fl w h d = None) \/
  (forall t c, SDL_FillRect ext t c = None) ->
  exists fmt,
    gl_prepareSurface ext surface s
    = Ok None (log s [LOG LvlWARN fmt [SDL_GetError ext]]).
Proof.
  intros Hw Hh Hfail.
  destruct (gl_pot_smallest _ Hw) as (pw & Hpw & _).
  destruct (gl_pot_smallest _ Hh) as (ph & Hph & _).
  unfold gl_prepareSurface, gl_pot_M, bind, ret. rewrite Hpw, Hph.
  destruct (SDL_CreateRGBSurface _ _ _ _ _) as [temp|] eqn:Hc.
  - destruct Hfail as [Hfail|Hfail]; [rewrite Hfail in Hc; discriminate|].
    rewrite Hfail. eexists. reflexivity.
  - eexists. reflexivity.
Qed.

Lemma gl_loadImage_NULL ext surface s :
  (forall s', exists fmt,
     gl_prepareSurface ext surface s'
     = Ok None (log s' [LOG LvlWARN fmt [SDL_GetError ext]])) ->
  gl_loadImage ext surface s = Fault NullPointer.
Proof.
  intros Hprep.
  unfold gl_loadImage. unfold bind at 1. unfold malloc_glTexture.
  unfold bind at 1. unfold store at 1. cbn [heap].
  rewrite lookup_snoc. unfold set_heap. cbn.
  unfold bind at 1. unfold gl_loadSurface. unfold bind at 1.
  match goal with |- context [gl_prepareSurface ext surface ?st] =>
    destruct (Hprep st) as [fmt ->] end.
  reflexivity.
Qed.

(** X27 (a surface that SDL cannot prepare).  When
    [SDL_CreateRGBSurface] or [SDL_FillRect] fails, [gl_prepareSurface]
    logs one warning with the SDL error and returns NULL, without a call of
    [SDL_FreeSurface].  [gl_loadSurface] does not test for that: it reads
    the width through the NULL, so that [gl_loadImage] faults, and with it
    [gl_newImage] of every asset that is not cached yet and decodes well. *)
Theorem gl_prepareSurface_failure ext s :
  (forall fl w h d, SDL_CreateRGBSurface ext fl w h d = None) \/
  (forall t c, SDL_FillRect ext t c = None) ->
  (forall surface,
     SDL_Surface.w surface <= 2 ^ 30 -> SDL_Surface.h surface <= 2 ^ 30 ->
     (exists fmt,
        gl_prepareSurface ext surface s
        = Ok None (log s [LOG LvlWARN fmt [SDL_GetError ext]])) /\
     gl_loadImage ext surface s = Fault NullPointer) /\
  (forall path flags buf temp surface,
     gl_newImage_scan (heap s) path (texture_list s) = ScanMiss ->
     ndata_read ext path = Some buf -> IMG_Load_RW ext buf = Some temp ->
     SDL_DisplayFormatAlpha ext temp = Some surface ->
     SDL_Surface.w surface <= 2 ^ 30 -> SDL_Surface.h surface <= 2 ^ 30 ->
     gl_newImage ext path flags s = Fault NullPointer).
Proof.
  intros Hfail. split.
  - intros surface Hw Hh. split.
    + apply gl_prepareSurface_None; assumption.
    + apply gl_loadImage_NULL. intros s'. apply gl_prepareSurface_None; assumption.
  - intros path flags buf temp surface Hmiss Hread Himg Hfmt Hw Hh.
    unfold gl_newImage, bind at 1, get. rewrite Hmiss.
    unfold bind at 1. unfold gl_loadNewImage. rewrite Hread, Himg, Hfmt.
    unfold bind at 1. unfold emit at 1. unfold bind at 1.
    rewrite gl_loadImage_NULL; [reflexivity|].
    intros s'. apply gl_prepareSurface_None; [| |exact Hfail];
      rewrite SDL_VFlipSurface_fields; assumption.
Qed.

(** SDL without memory for a surface, on an empty cache. *)
Lemma gl_prepareSurface_failure_nomem :
  (forall surface,
     SDL_Surface.w surface <= 2 ^ 30 -> SDL_Surface.h surface <= 2 ^ 30 ->
     (exists fmt,
        gl_prepareSurface Cases.ext_nomem surface Scenario.s0
        = Ok None (log Scenario.s0 [LOG LvlWARN fmt [SDL_GetError Cases.ext_nomem]])) /\
     gl_loadImage Cases.ext_nomem surface Scenario.s0 = Fault NullPointer) /\
  (forall path flags buf temp surface,
     gl_newImage_scan (heap Scenario.s0) path (texture_list Scenario.s0) = ScanMiss ->
     ndata_read Cases.ext_nomem path = Some buf ->
     IMG_Load_RW Cases.ext_nomem buf = Some temp ->
     SDL_DisplayFormatAlpha Cases.ext_nomem temp = Some surface ->
     SDL_Surface.w surface <= 2 ^ 30 -> SDL_Surface.h surface <= 2 ^ 30 ->
     gl_newImage Cases.ext_nomem path flags Scenario.s0 = Fault NullPointer).
Proof.
  apply (gl_prepareSurface_failure Cases.ext_nomem Scenario.s0). left. reflexivity.
Defined.

Lemma scan_miss_snoc hp path l tx u :
  Forall (passes hp path) l ->
  (exists nm, glTexture.name tx = Some nm /\ String.eqb path nm = false) ->
  gl_newImage_scan (hp ++ [Build_cell tx false]) path
    (l ++ [Build_glTexList (Some (length hp)) u]) = ScanMiss.
Proof.
  intros Hl (nm & Hnm & Hne).
  rewrite scan_app by (eapply Forall_impl; [exact Hl|apply passes_snoc]).
  cbn [gl_newImage_scan tex]. rewrite lookup_snoc. cbn [obj]. rewrite Hnm, Hne.
  reflexivity.
Qed.

(** X28 (two paths never share a texture).  When two different paths have
    no entry and are acquired one after the other, the two textures are
    different blocks of the heap, each with its own name; the list gains two
    nodes, in the order of the calls and each with the count 1, and the
    second load leaves the struct of the first texture as it was. *)
Theorem gl_newImage_distinct_paths ext path path' flags flags' s t s1 t' s2 :
  gl_newImage_scan (heap s) path (texture_list s) = ScanMiss ->
  gl_newImage_scan (heap s) path' (texture_list s) = ScanMiss ->
  String.eqb path' path = false ->
  gl_newImage ext path flags s = Ok (Some t) s1 ->
  gl_newImage ext path' flags' s1 = Ok (Some t') s2 ->
  t' <> t /\
  texture_list s2
  = texture_list s ++ [Build_glTexList (Some t) 1; Build_glTexList (Some t') 1] /\
  heap s2 !! t = heap s1 !! t /\
  exists tx tx',
    heap s2 !! t = Some (Build_cell tx false) /\
    heap s2 !! t' = Some (Build_cell tx' false) /\
    glTexture.name tx = Some path /\ glTexture.name tx' = Some path'.
Proof.
  intros Hmiss Hmiss' Hne Hfirst Hsecond.
  destruct (gl_newImage_first _ _ _ _ _ _ Hmiss Hfirst) as [-> (tx & evs & -> & Hname)].
  assert (Hmiss1 : gl_newImage_scan (heap (acquired s tx 1 evs)) path'
                     (texture_list (acquired s tx 1 evs)) = ScanMiss).
  { cbn [heap texture_list acquired]. apply scan_miss_snoc.
    - apply scan_miss_passes. exact Hmiss'.
    - exists path. auto. }
  destruct (gl_newImage_first _ _ _ _ _ _ Hmiss1 Hsecond)
    as [-> (tx' & evs' & -> & Hname')].
  cbn [heap texture_list acquired]. rewrite length_app. cbn [length].
  split; [lia|]. split; [rewrite <- app_assoc; reflexivity|].
  assert (Hlt : (length (heap s) < length (heap s ++ [Build_cell tx false]))%nat)
    by (rewrite length_app; cbn; lia).
  split; [apply lookup_app_l; exact Hlt|].
  exists tx, tx'. split.
  - rewrite lookup_app_l by exact Hlt. apply lookup_snoc.
  - split; [|auto].
    replace (length (heap s) + 1)%nat with (length (heap s ++ [Build_cell tx false]))
      by (rewrite length_app; reflexivity).
    apply lookup_snoc.
Qed.

(** The assets [a.png] and [b.png], which hold the same image. *)
Lemma gl_newImage_distinct_paths_ab :
  (1%nat : loc) <> 0%nat /\
  texture_list Cases.s_ab
  = texture_list Scenario.s0
    ++ [Build_glTexList (Some 0%nat) 1; Build_glTexList (Some 1%nat) 1] /\
  heap Cases.s_ab !! 0%nat = heap Cases.s_a !! 0%nat /\
  exists tx tx',
    heap Cases.s_ab !! 0%nat = Some (Build_cell tx false) /\
    heap Cases.s_ab !! 1%nat = Some (Build_cell tx' false) /\
    glTexture.name tx = Some "a.png"%string /\ glTexture.name tx' = Some "b.png"%string.
Proof.
  apply (gl_newImage_distinct_paths Cases.ext_all "a.png" "b.png" 0 0 Scenario.s0
           0%nat Cases.s_a 1%nat Cases.s_ab); vm_compute; reflexivity.
Defined.



(** X30 ([gl_isTrans] does not check its coordinates).  The bit
    [gl_isTrans] reads is the one at [y*w + x], whatever [x] is: a column
    [x + w] beyond the right edge is answered with the pixel [x] of the row
    above, [y + 1].  [w] is the width of the texture as an [int]. *)
Theorem gl_isTrans_unchecked t x y tw :
  CDouble.to_int (glTexture.w t) = Some tw ->
  0 < tw -> 0 <= x -> 0 <= y -> (y + 1) * tw + x + tw <= CInt.INT_MAX ->
  gl_isTrans t (x + tw) y = gl_isTrans t x (y + 1).
Proof.
  intros Htw Hpos Hx Hy Hmax.
  assert (Hmaxv : CInt.INT_MAX = 2147483647) by reflexivity.
  assert (Hminv : CInt.INT_MIN = -2147483648) by reflexivity.
  unfold gl_isTrans. rewrite Htw. cbn [mbind option_bind].
  destruct (glTexture.trans t) as [bits|]; [|reflexivity]. cbn [mbind option_bind].
  assert (H1 : CInt.add (CInt.mul y tw) (x + tw) = (y + 1) * tw + x).
  { unfold CInt.mul. rewrite (wrap32_small (y * tw)) by nia.
    unfold CInt.add. rewrite wrap32_small by nia. lia. }
  assert (H2 : CInt.add (CInt.mul (y + 1) tw) x = (y + 1) * tw + x).
  { unfold CInt.mul. rewrite (wrap32_small ((y + 1) * tw)) by nia.
    unfold CInt.add. apply wrap32_small. nia. }
  rewrite H1, H2. reflexivity.
Qed.

(** The texture of the 5x5 image: column 7 of row 0 is column 2 of row 1. *)
Lemma gl_isTrans_unchecked_5x5 :
  gl_isTrans (named_texture "a.png" (Some (SDL_MapTrans false Scenario.image5))
                Scenario.image5 2 8 8) (2 + 5) 0
  = gl_isTrans (named_texture "a.png" (Some (SDL_MapTrans false Scenario.image5))
                  Scenario.image5 2 8 8) 2 (0 + 1).
Proof.
  apply (gl_isTrans_unchecked _ 2 0 5);
    first [vm_compute; reflexivity | vm_compute; discriminate].
Defined.
